(** * Auto_Net_Tool: the classifier, the two extractors, the topology
      builder and the code that reads their results

    A shallow embedding of [src/device.py], [src/switch_parser.py],
    [src/router_parser.py], [src/config_parser.py],
    [src/config_validator.py] and [src/advanced_analyzer.py], of
    [build_topology] and the two layout functions of [src/topology.py],
    and of the summary of a reply of [src/ai_analyzer.py]; followed by the
    properties of the specification checked against it, and by further
    properties of the code.

    Python text is modelled as [list ascii]: a sequence of characters
    whose code points lie below 256.  The regular expressions of the
    parsers are kept as syntax trees and run by a backtracking matcher
    that follows the priority rules of Python's [re] (leftmost match,
    alternatives tried left to right, greedy and lazy repetition).  A call
    that can raise returns a value or an exception.  The lines the program
    prints are not modelled. *)

From Stdlib Require Import Ascii String List Bool Arith ZArith Lia DecimalString.
From stdpp Require Import base option list gmap strings.
Import ListNotations.

Local Open Scope list_scope.
Local Open Scope nat_scope.

(* ===================================================================== *)
(** ** Text *)
(* ===================================================================== *)

Abbreviation str := (list ascii).

(** A literal of the source, as a list of characters. *)
Definition lit (s : string) : str := list_ascii_of_string s.

Definition NL : ascii := "010"%char.
Definition SP : ascii := " "%char.

(** The lines of a text joined by newlines, no newline after the last. *)
Fixpoint unlines (ls : list string) : str :=
  match ls with
  | [] => []
  | [l] => lit l
  | l :: ls' => lit l ++ NL :: unlines ls'
  end.

Definition code (c : ascii) : nat := nat_of_ascii c.

Definition between (lo hi n : nat) : bool := (lo <=? n) && (n <=? hi).

(** [str.isspace] on one character, which is also the class [\s] of a
    [str] pattern: TAB..CR, FS..US, SPACE, NEL and NBSP. *)
Definition is_space (c : ascii) : bool :=
  between 9 13 (code c) || between 28 32 (code c)
  || (code c =? 133) || (code c =? 160).

(** The class [\d]: the decimal digits below code point 256. *)
Definition is_digit (c : ascii) : bool := between 48 57 (code c).

(** [str.lower] on one character. *)
Definition lower_ascii (c : ascii) : ascii :=
  if between 65 90 (code c)
     || (between 192 222 (code c) && negb (code c =? 215))
  then ascii_of_nat (code c + 32)
  else c.

Definition lower (s : str) : str := map lower_ascii s.

Definition ascii_eqb (a b : ascii) : bool := Ascii.eqb a b.

Fixpoint str_eqb (a b : str) : bool :=
  match a, b with
  | [], [] => true
  | x :: a', y :: b' => ascii_eqb x y && str_eqb a' b'
  | _, _ => false
  end.

Fixpoint starts_with (p s : str) : bool :=
  match p, s with
  | [], _ => true
  | x :: p', y :: s' => ascii_eqb x y && starts_with p' s'
  | _ :: _, [] => false
  end.

(** [p in s] of Python. *)
Fixpoint contains (p s : str) : bool :=
  starts_with p s ||
  match s with
  | [] => false
  | _ :: s' => contains p s'
  end.

(** [str.strip()] : whitespace removed at both ends. *)
Fixpoint lstrip (s : str) : str :=
  match s with
  | c :: s' => if is_space c then lstrip s' else s
  | [] => []
  end.

Definition rstrip (s : str) : str := rev (lstrip (rev s)).

Definition strip (s : str) : str := rstrip (lstrip s).

(* ===================================================================== *)
(** ** Regular expressions of [re] *)
(* ===================================================================== *)

Inductive regex : Type :=
| Eps                                   (* empty pattern *)
| Lit (c : ascii)                       (* a literal character *)
| Dot                                   (* .   *)
| Space                                 (* \s  *)
| NotSpace                              (* \S  *)
| Digit                                 (* \d  *)
| Dollar                                (* $   *)
| Seq (a b : regex)                     (* ab  *)
| Alt (a b : regex)                     (* a|b *)
| Star (greedy : bool) (r : regex)      (* r*  and  r*? *)
| Group (n : nat) (r : regex)           (* (r), the n-th group *)
| Lookahead (r : regex).                (* (?=r) *)

(** [r+], [r+?], [r?] and a literal word. *)
Definition Plus (greedy : bool) (r : regex) : regex := Seq r (Star greedy r).
Definition Opt (r : regex) : regex := Alt r Eps.

(** The two kinds of repetition: [r*] takes as much as it can, [r*?] as
    little. *)
Definition greedy := true.
Definition non_greedy := false.

Fixpoint Word (s : str) : regex :=
  match s with
  | [] => Eps
  | [c] => Lit c
  | c :: s' => Seq (Lit c) (Word s')
  end.

Fixpoint Seqs (rs : list regex) : regex :=
  match rs with
  | [] => Eps
  | [r] => r
  | r :: rs' => Seq r (Seqs rs')
  end.

Record flags : Type := Flags {
  IGNORECASE : bool;
  DOTALL : bool;
  MULTILINE : bool
}.

Definition no_flags : flags := Flags false false false.

(** Captured groups: the text of group [n], the latest binding first. *)
Abbreviation caps := (list (nat * str)).

Definition cap_get (n : nat) (c : caps) : option str :=
  snd <$> find (fun p => fst p =? n) c.

(** A literal under the flags. *)
Definition lit_matches (f : flags) (a x : ascii) : bool :=
  if IGNORECASE f then ascii_eqb (lower_ascii a) (lower_ascii x)
  else ascii_eqb a x.

Definition dot_matches (f : flags) (x : ascii) : bool :=
  DOTALL f || negb (ascii_eqb x NL).

(** [$]: the end of the text or just before a newline that ends it; with
    MULTILINE, before any newline. *)
Definition at_dollar (f : flags) (s : str) : bool :=
  match s with
  | [] => true
  | c :: s' =>
      ascii_eqb c NL &&
      (MULTILINE f || match s' with [] => true | _ => false end)
  end.

Definition one_char (p : ascii -> bool)
    (k : str -> caps -> option (str * caps)) (s : str) (c : caps)
  : option (str * caps) :=
  match s with
  | x :: s' => if p x then k s' c else None
  | [] => None
  end.

Definition or_else {A} (a : option A) (b : unit -> option A) : option A :=
  match a with
  | Some r => Some r
  | None => b tt
  end.

(** The matcher, in continuation-passing style: [rmatch f r k s c] matches
    [r] at the head of [s] and hands the rest of the text and the groups to
    [k]; when [k] fails the matcher backtracks into [r].  A repetition
    gives up an iteration that consumed nothing, so the count of
    iterations is bounded by the length of the text. *)
Fixpoint rmatch (f : flags) (r : regex)
    (k : str -> caps -> option (str * caps)) (s : str) (c : caps)
    {struct r} : option (str * caps) :=
  match r with
  | Eps => k s c
  | Lit a => one_char (lit_matches f a) k s c
  | Dot => one_char (dot_matches f) k s c
  | Space => one_char is_space k s c
  | NotSpace => one_char (fun x => negb (is_space x)) k s c
  | Digit => one_char is_digit k s c
  | Dollar => if at_dollar f s then k s c else None
  | Seq a b => rmatch f a (rmatch f b k) s c
  | Alt a b => or_else (rmatch f a k s c) (fun _ => rmatch f b k s c)
  | Star greedy r' =>
      (fix loop (n : nat) (s : str) (c : caps) {struct n}
         : option (str * caps) :=
         let again (_ : unit) :=
           match n with
           | 0 => None
           | S n' =>
               rmatch f r'
                 (fun s' c' =>
                    if List.length s' <? List.length s then loop n' s' c'
                    else None)
                 s c
           end in
         if greedy then or_else (again tt) (fun _ => k s c)
         else or_else (k s c) again)
        (List.length s) s c
  | Group n r' =>
      rmatch f r'
        (fun s' c' =>
           k s' ((n, firstn (List.length s - List.length s') s) :: c'))
        s c
  | Lookahead r' =>
      match rmatch f r' (fun s' c' => Some (s', c')) s c with
      | Some (_, c') => k s c'
      | None => None
      end
  end.

Definition accept (s : str) (c : caps) : option (str * caps) := Some (s, c).

(** A match object: the matched text (group 0), the groups, and the text
    after the match. *)
Record rematch : Type := ReMatch {
  m_text : str;
  m_caps : caps;
  m_rest : str
}.

(** [Match.group(n)], [None] for a group that took no part. *)
Definition group (m : rematch) (n : nat) : option str :=
  match n with
  | 0 => Some (m_text m)
  | _ => cap_get n (m_caps m)
  end.

(** The value [findall] reports for a group: the empty text when the group
    took no part in the match. *)
Definition group_text (m : rematch) (n : nat) : str :=
  default [] (group m n).

Definition match_at (f : flags) (r : regex) (s : str) : option rematch :=
  match rmatch f r accept s [] with
  | Some (rest, c) =>
      Some (ReMatch (firstn (List.length s - List.length rest) s) c rest)
  | None => None
  end.

(** [re.search]: the match at the leftmost position that has one. *)
Fixpoint re_search (f : flags) (r : regex) (s : str) : option rematch :=
  match match_at f r s with
  | Some m => Some m
  | None =>
      match s with
      | [] => None
      | _ :: s' => re_search f r s'
      end
  end.

(** The matches [re.findall] and [re.finditer] walk through: leftmost
    first, each search resumed where the previous match ended.  [skip]
    counts the characters of the last match still to be stepped over.
    (After an empty match the scan moves one character on; no pattern of
    the parsers can match the empty text.) *)
Fixpoint matches_from (f : flags) (r : regex) (skip : nat) (s : str)
  : list rematch :=
  match skip with
  | S n =>
      match s with
      | [] => []
      | _ :: s' => matches_from f r n s'
      end
  | 0 =>
      match match_at f r s with
      | Some m =>
          m :: match s with
               | [] => []
               | _ :: s' => matches_from f r (List.length (m_text m) - 1) s'
               end
      | None =>
          match s with
          | [] => []
          | _ :: s' => matches_from f r 0 s'
          end
      end
  end.

Definition re_finditer (f : flags) (r : regex) (s : str) : list rematch :=
  matches_from f r 0 s.

(** Number of groups of a pattern. *)
Fixpoint count_groups (r : regex) : nat :=
  match r with
  | Seq a b | Alt a b => count_groups a + count_groups b
  | Star _ r' | Lookahead r' => count_groups r'
  | Group _ r' => S (count_groups r')
  | _ => 0
  end.

(** An item of the list [re.findall] returns: a text for a pattern with no
    group (the match) or one group (that group), a tuple of the groups
    otherwise. *)
Inductive found : Type :=
| FoundText (s : str)
| FoundTuple (gs : list str).

Definition found_of (r : regex) (m : rematch) : found :=
  match count_groups r with
  | 0 => FoundText (m_text m)
  | 1 => FoundText (group_text m 1)
  | n => FoundTuple (map (group_text m) (seq 1 n))
  end.

Definition re_findall (f : flags) (r : regex) (s : str) : list found :=
  map (found_of r) (re_finditer f r s).

(* ===================================================================== *)
(** ** Dictionaries that keep insertion order *)
(* ===================================================================== *)

(** [d[k] = v]: the value is replaced where the key stands, a new key goes
    to the end. *)
Fixpoint dict_set {V} (k : str) (v : V) (d : list (str * V))
  : list (str * V) :=
  match d with
  | [] => [(k, v)]
  | (k', v') :: d' =>
      if str_eqb k' k then (k, v) :: d' else (k', v') :: dict_set k v d'
  end.

Fixpoint dict_get {V} (k : str) (d : list (str * V)) : option V :=
  match d with
  | [] => None
  | (k', v) :: d' => if str_eqb k' k then Some v else dict_get k d'
  end.

(** [d[k][field] = ...]: the value under [k] changed in place. *)
Fixpoint dict_alter {V} (g : V -> V) (k : str) (d : list (str * V))
  : list (str * V) :=
  match d with
  | [] => []
  | (k', v) :: d' =>
      if str_eqb k' k then (k', g v) :: d' else (k', v) :: dict_alter g k d'
  end.

(* ===================================================================== *)
(** ** device.py *)
(* ===================================================================== *)

(** The dictionary the switch parser stores per interface. *)
Record SwitchInterface : Type := MkSwitchInterface {
  sw_description : option str;
  sw_mode : option str;
  sw_access_vlan : option str;
  sw_shutdown : bool
}.

(** The dictionary the router parser stores per interface; the key
    [secondary_ips] is absent until a secondary address is seen. *)
Record RouterInterface : Type := MkRouterInterface {
  description : option str;
  ip_address : option str;
  subnet_mask : option str;
  shutdown : bool;
  bandwidth : option str;
  duplex : option str;
  speed : option str;
  encapsulation : option str;
  vrf : option str;
  secondary_ips : option (list (str * str))
}.

Inductive RouteType : Type := static | static_default | ospf.

(** A route dictionary: [next_hop] and [admin_distance] for static routes,
    [area] for OSPF networks. *)
Record Route : Type := MkRoute {
  network : str;
  mask : str;
  rtype : RouteType;
  next_hop : option str;
  area : option str;
  admin_distance : option str
}.

Record Switch : Type := MkSwitch {
  s_hostname : str;
  s_vendor : str;
  s_interfaces : list (str * SwitchInterface);
  s_model : str;
  vlans : gset str;
  stp_mode : option str
}.

Record Router : Type := MkRouter {
  r_hostname : str;
  r_vendor : str;
  r_interfaces : list (str * RouterInterface);
  r_model : str;
  routing_protocols : list str;
  routes : list Route;
  bgp_asn : option str;
  ospf_process_id : option str
}.

(** [Switch()] and [Router()]. *)
Definition new_Switch : Switch :=
  MkSwitch (lit "Unknown") (lit "Cisco") [] (lit "Unknown") ∅ None.

Definition new_Router : Router :=
  MkRouter (lit "Unknown") (lit "Cisco") [] (lit "Unknown") [] [] None None.

Inductive DeviceType : Type := router | switch | unknown.

Definition switch_indicators : list str :=
  map lit ["switchport"; "spanning-tree"; "vtp mode";
           "vlan database"; "show mac address-table"].

Definition router_indicators : list str :=
  map lit ["router ospf"; "router bgp"; "router eigrp";
           "ip route "; "interface serial"; "ppp authentication";
           "frame-relay"; "ip nat"; "ipsec"; "crypto map"].

(** [sum(1 for indicator in indicators if indicator in text)] *)
Definition score (indicators : list str) (text : str) : nat :=
  List.length (List.filter (fun i => contains i text) indicators).

Definition any_in (words : list string) (text : str) : bool :=
  existsb (fun w => contains (lit w) text) words.

Definition detect_device_type (config_text : str) : DeviceType :=
  let config_text_lower := lower config_text in
  let switch_score := score switch_indicators config_text_lower in
  let router_score := score router_indicators config_text_lower in
  let has_routing_protocol :=
    any_in ["ospf"; "bgp"; "eigrp"; "rip"] config_text_lower in
  let has_switch_commands :=
    any_in ["vlan"; "switchport"] config_text_lower in
  if switch_score <? router_score then router
  else if router_score <? switch_score then switch
  else if has_routing_protocol && negb has_switch_commands then router
  else if has_switch_commands && negb has_routing_protocol then switch
  else if contains (lit "interface serial") config_text_lower
          || contains (lit "interface tunnel") config_text_lower
       then router
  else if contains (lit "interface vlan") config_text_lower
          || contains (lit "interface port-channel") config_text_lower
       then switch
  else unknown.

(* ===================================================================== *)
(** ** switch_parser.py *)
(* ===================================================================== *)

(** [hostname (\S+)] *)
Definition sw_hostname_re : regex :=
  Seqs [Word (lit "hostname "); Group 1 (Plus greedy NotSpace)].

(** [(interface \S+\n(?: .*\n)*?!)] *)
Definition sw_interface_block_re : regex :=
  Group 1 (Seqs [Word (lit "interface "); Plus greedy NotSpace; Lit NL;
                 Star non_greedy (Seqs [Lit SP; Star greedy Dot; Lit NL]);
                 Lit "!"]).

(** [interface (\S+)] *)
Definition sw_intf_name_re : regex :=
  Seqs [Word (lit "interface "); Group 1 (Plus greedy NotSpace)].

(** [description (.+)$] *)
Definition sw_desc_re : regex :=
  Seqs [Word (lit "description "); Group 1 (Plus greedy Dot); Dollar].

(** [switchport mode (\S+)] *)
Definition sw_mode_re : regex :=
  Seqs [Word (lit "switchport mode "); Group 1 (Plus greedy NotSpace)].

(** [switchport access vlan (\S+)] *)
Definition sw_vlan_re : regex :=
  Seqs [Word (lit "switchport access vlan "); Group 1 (Plus greedy NotSpace)].

Definition sw_set_hostname (h : str) (d : Switch) : Switch :=
  MkSwitch h (s_vendor d) (s_interfaces d) (s_model d) (vlans d) (stp_mode d).

Definition sw_set_interfaces (i : list (str * SwitchInterface)) (d : Switch)
  : Switch :=
  MkSwitch (s_hostname d) (s_vendor d) i (s_model d) (vlans d) (stp_mode d).

Definition sw_add_vlan (v : str) (d : Switch) : Switch :=
  MkSwitch (s_hostname d) (s_vendor d) (s_interfaces d) (s_model d)
           ({[ v ]} ∪ vlans d) (stp_mode d).

(** [switch_device.interfaces[name][...] = ...] *)
Definition sw_alter (name : str) (g : SwitchInterface -> SwitchInterface)
    (d : Switch) : Switch :=
  sw_set_interfaces (dict_alter g name (s_interfaces d)) d.

Definition sw_with_description (v : str) (i : SwitchInterface) :=
  MkSwitchInterface (Some v) (sw_mode i) (sw_access_vlan i) (sw_shutdown i).
Definition sw_with_mode (v : str) (i : SwitchInterface) :=
  MkSwitchInterface (sw_description i) (Some v) (sw_access_vlan i)
                    (sw_shutdown i).
Definition sw_with_access_vlan (v : str) (i : SwitchInterface) :=
  MkSwitchInterface (sw_description i) (sw_mode i) (Some v) (sw_shutdown i).

(** The body of the loop over the interface blocks. *)
Definition switch_block (block : str) (d : Switch) : Switch :=
  match re_search no_flags sw_intf_name_re block with
  | None => d
  | Some intf_name_match =>
      let intf_name := group_text intf_name_match 1 in
      let d :=
        sw_set_interfaces
          (dict_set intf_name
             (MkSwitchInterface None None None
                (contains (lit "shutdown") block))
             (s_interfaces d)) d in
      let d :=
        match re_search (Flags false false true) sw_desc_re block with
        | Some desc_match =>
            sw_alter intf_name
              (sw_with_description (strip (group_text desc_match 1))) d
        | None => d
        end in
      let d :=
        match re_search no_flags sw_mode_re block with
        | Some mode_match =>
            sw_alter intf_name (sw_with_mode (group_text mode_match 1)) d
        | None => d
        end in
      match re_search no_flags sw_vlan_re block with
      | Some vlan_match =>
          let vlan_id := group_text vlan_match 1 in
          sw_add_vlan vlan_id
            (sw_alter intf_name (sw_with_access_vlan vlan_id) d)
      | None => d
      end
  end.

(** A [for] loop over what [findall] returned for a pattern with at most
    one group; its items are texts. *)
Definition for_texts {D} (items : list found) (body : str -> D -> D) (d : D)
  : D :=
  fold_left
    (fun d item =>
       match item with
       | FoundText t => body t d
       | FoundTuple _ => d
       end)
    items d.

(** A [for] loop that unpacks the tuples of [findall]. *)
Definition for_tuples {D} (items : list found) (body : list str -> D -> D)
    (d : D) : D :=
  fold_left
    (fun d item =>
       match item with
       | FoundTuple gs => body gs d
       | FoundText _ => d
       end)
    items d.

Definition parse_switch_config (config_text : str) (switch_device : Switch)
  : Switch :=
  let d :=
    match re_search no_flags sw_hostname_re config_text with
    | Some hostname_match =>
        sw_set_hostname (group_text hostname_match 1) switch_device
    | None => switch_device
    end in
  let interface_blocks :=
    re_findall no_flags sw_interface_block_re config_text in
  for_texts interface_blocks switch_block d.

(* ===================================================================== *)
(** ** router_parser.py *)
(* ===================================================================== *)

Definition IC : flags := Flags true false false.          (* re.IGNORECASE *)
Definition DOTALL_IC : flags := Flags true true false.    (* re.DOTALL | re.IGNORECASE *)

Definition spaces : regex := Plus greedy Space.            (* \s+ *)
Definition digits : regex := Plus greedy Digit.            (* \d+ *)
Definition token : regex := Plus greedy NotSpace.          (* \S+ *)

(** [\d+\.\d+\.\d+\.\d+] *)
Definition dotted_quad : regex :=
  Seqs [digits; Lit "."; digits; Lit "."; digits; Lit "."; digits].

(** [hostname\s+(\S+)] *)
Definition hostname_re : regex :=
  Seqs [Word (lit "hostname"); spaces; Group 1 token].

(** [(\d{4})\s+(?:router|series)] *)
Definition model_re : regex :=
  Seqs [Group 1 (Seqs [Digit; Digit; Digit; Digit]); spaces;
        Alt (Word (lit "router")) (Word (lit "series"))].

(** [(interface\s+\S+.*?(?=!\s*$|\ninterface\s+\S+|\nend))] *)
Definition interface_block_re : regex :=
  Group 1
    (Seqs [Word (lit "interface"); spaces; token; Star non_greedy Dot;
           Lookahead
             (Alt (Seqs [Lit "!"; Star greedy Space; Dollar])
                (Alt (Seqs [Lit NL; Word (lit "interface"); spaces; token])
                     (Seqs [Lit NL; Word (lit "end")])))]).

(** [interface\s+(\S+)] *)
Definition intf_name_re : regex :=
  Seqs [Word (lit "interface"); spaces; Group 1 token].

(** [shutdown] *)
Definition shutdown_re : regex := Word (lit "shutdown").

(** [description\s+(.+?)(?=\n\S|\n\n|$)] *)
Definition desc_re : regex :=
  Seqs [Word (lit "description"); spaces; Group 1 (Plus non_greedy Dot);
        Lookahead
          (Alt (Seqs [Lit NL; NotSpace])
             (Alt (Seqs [Lit NL; Lit NL]) Dollar))].

(** [ip\s+address\s+(\d+\.\d+\.\d+\.\d+)\s+(\d+\.\d+\.\d+\.\d+)] *)
Definition ip_re : regex :=
  Seqs [Word (lit "ip"); spaces; Word (lit "address"); spaces;
        Group 1 dotted_quad; spaces; Group 2 dotted_quad].

(** [ip\s+address\s+(\d+\.\d+\.\d+\.\d+)\s+(\d+\.\d+\.\d+\.\d+)\s+secondary] *)
Definition sec_ip_re : regex :=
  Seqs [Word (lit "ip"); spaces; Word (lit "address"); spaces;
        Group 1 dotted_quad; spaces; Group 2 dotted_quad; spaces;
        Word (lit "secondary")].

(** [bandwidth\s+(\d+)] *)
Definition bw_re : regex :=
  Seqs [Word (lit "bandwidth"); spaces; Group 1 digits].

(** [duplex\s+(\S+)] *)
Definition duplex_re : regex :=
  Seqs [Word (lit "duplex"); spaces; Group 1 token].

(** [speed\s+(\d+)] *)
Definition speed_re : regex :=
  Seqs [Word (lit "speed"); spaces; Group 1 digits].

(** [router\s+<proto>\s+(\d+).*?(?=!\s*$|\nrouter\s+\S+)] for the protocol
    word [ospf] or [bgp]. *)
Definition protocol_block_re (proto : string) : regex :=
  Seqs [Word (lit "router"); spaces; Word (lit proto); spaces;
        Group 1 digits; Star non_greedy Dot;
        Lookahead
          (Alt (Seqs [Lit "!"; Star greedy Space; Dollar])
               (Seqs [Lit NL; Word (lit "router"); spaces; token]))].

(** [router\s+<proto>\s+(\d+)] *)
Definition protocol_id_re (proto : string) : regex :=
  Seqs [Word (lit "router"); spaces; Word (lit proto); spaces;
        Group 1 digits].

(** [network\s+(\d+\.\d+\.\d+\.\d+)\s+(\d+\.\d+\.\d+\.\d+)\s+area\s+(\d+)] *)
Definition ospf_network_re : regex :=
  Seqs [Word (lit "network"); spaces; Group 1 dotted_quad; spaces;
        Group 2 dotted_quad; spaces; Word (lit "area"); spaces;
        Group 3 digits].

(** [ip\s+route\s+(\d+\.\d+\.\d+\.\d+)\s+(\d+\.\d+\.\d+\.\d+)\s+(\S+)(?:\s+(\d+))?] *)
Definition static_route_re : regex :=
  Seqs [Word (lit "ip"); spaces; Word (lit "route"); spaces;
        Group 1 dotted_quad; spaces; Group 2 dotted_quad; spaces;
        Group 3 token; Opt (Seqs [spaces; Group 4 digits])].

(** [ip\s+route\s+0\.0\.0\.0\s+0\.0\.0\.0\s+(\S+)] *)
Definition default_route_re : regex :=
  Seqs [Word (lit "ip"); spaces; Word (lit "route"); spaces;
        Word (lit "0.0.0.0"); spaces; Word (lit "0.0.0.0"); spaces;
        Group 1 token].

Definition set_hostname (h : str) (d : Router) : Router :=
  MkRouter h (r_vendor d) (r_interfaces d) (r_model d) (routing_protocols d)
           (routes d) (bgp_asn d) (ospf_process_id d).

Definition set_model (m : str) (d : Router) : Router :=
  MkRouter (r_hostname d) (r_vendor d) (r_interfaces d) m
           (routing_protocols d) (routes d) (bgp_asn d) (ospf_process_id d).

Definition set_interfaces (i : list (str * RouterInterface)) (d : Router)
  : Router :=
  MkRouter (r_hostname d) (r_vendor d) i (r_model d) (routing_protocols d)
           (routes d) (bgp_asn d) (ospf_process_id d).

Definition set_ospf_process_id (p : str) (d : Router) : Router :=
  MkRouter (r_hostname d) (r_vendor d) (r_interfaces d) (r_model d)
           (routing_protocols d) (routes d) (bgp_asn d) (Some p).

Definition set_bgp_asn (a : str) (d : Router) : Router :=
  MkRouter (r_hostname d) (r_vendor d) (r_interfaces d) (r_model d)
           (routing_protocols d) (routes d) (Some a) (ospf_process_id d).

(** [router_device.routing_protocols.append(tag)] *)
Definition append_protocol (tag : str) (d : Router) : Router :=
  MkRouter (r_hostname d) (r_vendor d) (r_interfaces d) (r_model d)
           (routing_protocols d ++ [tag]) (routes d) (bgp_asn d)
           (ospf_process_id d).

(** [router_device.routes.append(route)] *)
Definition append_route (r : Route) (d : Router) : Router :=
  MkRouter (r_hostname d) (r_vendor d) (r_interfaces d) (r_model d)
           (routing_protocols d) (routes d ++ [r]) (bgp_asn d)
           (ospf_process_id d).

(** [router_device.interfaces[name][...] = ...] *)
Definition alter (name : str) (g : RouterInterface -> RouterInterface)
    (d : Router) : Router :=
  set_interfaces (dict_alter g name (r_interfaces d)) d.

Definition with_shutdown (i : RouterInterface) : RouterInterface :=
  MkRouterInterface (description i) (ip_address i) (subnet_mask i) true
    (bandwidth i) (duplex i) (speed i) (encapsulation i) (vrf i)
    (secondary_ips i).
Definition with_description (v : str) (i : RouterInterface) :=
  MkRouterInterface (Some v) (ip_address i) (subnet_mask i) (shutdown i)
    (bandwidth i) (duplex i) (speed i) (encapsulation i) (vrf i)
    (secondary_ips i).
Definition with_ip (a m : str) (i : RouterInterface) :=
  MkRouterInterface (description i) (Some a) (Some m) (shutdown i)
    (bandwidth i) (duplex i) (speed i) (encapsulation i) (vrf i)
    (secondary_ips i).
Definition with_secondary (a m : str) (i : RouterInterface) :=
  MkRouterInterface (description i) (ip_address i) (subnet_mask i)
    (shutdown i) (bandwidth i) (duplex i) (speed i) (encapsulation i) (vrf i)
    (Some (default [] (secondary_ips i) ++ [(a, m)])).
Definition with_bandwidth (v : str) (i : RouterInterface) :=
  MkRouterInterface (description i) (ip_address i) (subnet_mask i)
    (shutdown i) (Some v) (duplex i) (speed i) (encapsulation i) (vrf i)
    (secondary_ips i).
Definition with_duplex (v : str) (i : RouterInterface) :=
  MkRouterInterface (description i) (ip_address i) (subnet_mask i)
    (shutdown i) (bandwidth i) (Some v) (speed i) (encapsulation i) (vrf i)
    (secondary_ips i).
Definition with_speed (v : str) (i : RouterInterface) :=
  MkRouterInterface (description i) (ip_address i) (subnet_mask i)
    (shutdown i) (bandwidth i) (duplex i) (Some v) (encapsulation i) (vrf i)
    (secondary_ips i).

Definition empty_router_interface : RouterInterface :=
  MkRouterInterface None None None false None None None None None None.

(** One step of the loop body: [m = re.search(...); if m: update]. *)
Definition when_found {D} (f : flags) (r : regex) (text : str)
    (update : rematch -> D -> D) (d : D) : D :=
  match re_search f r text with
  | Some m => update m d
  | None => d
  end.

(** The body of the loop over the interface blocks. *)
Definition router_block (block : str) (d : Router) : Router :=
  match re_search IC intf_name_re block with
  | None => d
  | Some intf_name_match =>
      let intf_name := group_text intf_name_match 1 in
      let d :=
        set_interfaces
          (dict_set intf_name empty_router_interface (r_interfaces d)) d in
      let d :=
        when_found IC shutdown_re block
          (fun _ => alter intf_name with_shutdown) d in
      let d :=
        when_found DOTALL_IC desc_re block
          (fun m => alter intf_name
                      (with_description (strip (group_text m 1)))) d in
      let d :=
        when_found IC ip_re block
          (fun m => alter intf_name
                      (with_ip (group_text m 1) (group_text m 2))) d in
      let d :=
        when_found IC sec_ip_re block
          (fun m => alter intf_name
                      (with_secondary (group_text m 1) (group_text m 2))) d in
      let d :=
        when_found IC bw_re block
          (fun m => alter intf_name (with_bandwidth (group_text m 1))) d in
      let d :=
        when_found IC duplex_re block
          (fun m => alter intf_name (with_duplex (group_text m 1))) d in
      when_found IC speed_re block
        (fun m => alter intf_name (with_speed (group_text m 1))) d
  end.

(** The body of the loop over [ospf_blocks]. *)
Definition ospf_block_step (ospf_block : str) (d : Router) : Router :=
  match re_search IC (protocol_id_re "ospf") ospf_block with
  | None => d
  | Some process_id =>
      let d := set_ospf_process_id (group_text process_id 1) d in
      let d :=
        append_protocol (lit "ospf_" ++ group_text process_id 1) d in
      for_tuples (re_findall IC ospf_network_re ospf_block)
        (fun gs d =>
           match gs with
           | [net; msk; ar] =>
               append_route (MkRoute net msk ospf None (Some ar) None) d
           | _ => d
           end) d
  end.

(** The body of the loop over [bgp_blocks]. *)
Definition bgp_block_step (bgp_block : str) (d : Router) : Router :=
  match re_search IC (protocol_id_re "bgp") bgp_block with
  | None => d
  | Some asn_match =>
      let d := set_bgp_asn (group_text asn_match 1) d in
      append_protocol (lit "bgp_" ++ group_text asn_match 1) d
  end.

(** The body of the loop over [static_routes]; [if admin_distance:] holds
    for a text that is not empty. *)
Definition static_route_step (gs : list str) (d : Router) : Router :=
  match gs with
  | [net; msk; hop; dist] =>
      append_route
        (MkRoute net msk static (Some hop) None
           (match dist with [] => None | _ => Some dist end)) d
  | _ => d
  end.

(** The body of the loop over [default_routes]. *)
Definition default_route_step (hop : str) (d : Router) : Router :=
  append_route
    (MkRoute (lit "0.0.0.0") (lit "0.0.0.0") static_default (Some hop)
       None None) d.

Definition parse_router_config (config_text : str) (router_device : Router)
  : Router :=
  let d :=
    when_found IC hostname_re config_text
      (fun m => set_hostname (strip (group_text m 1))) router_device in
  let d :=
    when_found IC model_re config_text
      (fun m => set_model (lit "Cisco " ++ group_text m 1)) d in
  let d :=
    for_texts (re_findall DOTALL_IC interface_block_re config_text)
      router_block d in
  let d :=
    for_texts (re_findall DOTALL_IC (protocol_block_re "ospf") config_text)
      ospf_block_step d in
  let d :=
    for_texts (re_findall DOTALL_IC (protocol_block_re "bgp") config_text)
      bgp_block_step d in
  let d :=
    for_tuples (re_findall IC static_route_re config_text)
      static_route_step d in
  for_texts (re_findall IC default_route_re config_text)
    default_route_step d.

(** The worked example of the specification. *)
Definition example_text : str :=
  unlines ["hostname R1"; "interface Serial0/0";
           " ip address 10.1.1.1 255.255.255.252"; "!";
           "router ospf 1"; " network 10.1.1.0 0.0.0.3 area 0"; "!"].


(* ===================================================================== *)
(** ** The [ipaddress] module of Python's library, as far as the topology
       builder uses it.  A failed parse ([ValueError] and its subclasses
       [AddressValueError], [NetmaskValueError]) is [None]. *)
(* ===================================================================== *)

(** [s.split(sep)] *)
Fixpoint split_on (sep : ascii) (s : str) : list str :=
  match s with
  | [] => [[]]
  | c :: s' =>
      if ascii_eqb c sep then [] :: split_on sep s'
      else match split_on sep s' with
           | w :: ws => (c :: w) :: ws
           | [] => [[c]]
           end
  end.

(** [int(s, 10)] for a text of decimal digits. *)
Definition int_of_digits (s : str) : nat :=
  fold_left (fun n c => 10 * n + (code c - 48)) s 0.

(** [str(n)] for a natural number. *)
Definition str_of_nat (n : nat) : str :=
  lit (DecimalString.NilZero.string_of_uint (Nat.to_uint n)).

(** [_parse_octet]: one to three decimal digits, no leading zero unless the
    octet is [0], at most 255. *)
Definition parse_octet (octet_str : str) : option Z :=
  match octet_str with
  | [] => None
  | c0 :: _ =>
      if negb (forallb is_digit octet_str) then None
      else if 3 <? List.length octet_str then None
      else if negb (str_eqb octet_str (lit "0")) && ascii_eqb c0 "0" then None
      else if 255 <? int_of_digits octet_str then None
      else Some (Z.of_nat (int_of_digits octet_str))
  end.

(** [_ip_int_from_string]: four octets, big-endian. *)
Definition ip_int_from_string (ip_str : str) : option Z :=
  match ip_str with
  | [] => None
  | _ =>
      match split_on "." ip_str with
      | [a; b; c; d] =>
          match parse_octet a, parse_octet b, parse_octet c, parse_octet d with
          | Some a, Some b, Some c, Some d =>
              Some (Z.lor (Z.shiftl a 24)
                      (Z.lor (Z.shiftl b 16) (Z.lor (Z.shiftl c 8) d)))
          | _, _, _, _ => None
          end
      | _ => None
      end
  end.

(** [IPv4Address(s)]: the address as a 32-bit integer. *)
Definition IPv4Address (addr_str : str) : option Z :=
  if existsb (ascii_eqb "/") addr_str then None
  else ip_int_from_string addr_str.

Definition ALL_ONES : Z := 4294967295.

(** [_count_righthand_zero_bits(number, bits)] *)
Fixpoint count_righthand_zero_bits (number : Z) (bits : nat) : nat :=
  match bits with
  | 0 => 0
  | S b =>
      if Z.testbit number 0 then 0
      else S (count_righthand_zero_bits (Z.shiftr number 1) b)
  end.

(** [_prefix_from_ip_int]: the prefix length of a mask of the shape 1*0*. *)
Definition prefix_from_ip_int (ip_int : Z) : option nat :=
  let trailing_zeroes := count_righthand_zero_bits ip_int 32 in
  let prefixlen := 32 - trailing_zeroes in
  let leading_ones := Z.shiftr ip_int (Z.of_nat trailing_zeroes) in
  let all_ones := (Z.shiftl 1 (Z.of_nat prefixlen) - 1)%Z in
  if (leading_ones =? all_ones)%Z then Some prefixlen else None.

(** [_prefix_from_prefix_string] *)
Definition prefix_from_prefix_string (prefixlen_str : str) : option nat :=
  match prefixlen_str with
  | [] => None
  | _ =>
      if forallb is_digit prefixlen_str then
        let prefixlen := int_of_digits prefixlen_str in
        if prefixlen <=? 32 then Some prefixlen else None
      else None
  end.

(** [_prefix_from_ip_string]: a netmask, or else a hostmask. *)
Definition prefix_from_ip_string (ip_str : str) : option nat :=
  match ip_int_from_string ip_str with
  | None => None
  | Some ip_int =>
      match prefix_from_ip_int ip_int with
      | Some p => Some p
      | None => prefix_from_ip_int (Z.lxor ip_int ALL_ONES)
      end
  end.

(** [_ip_int_from_prefix] *)
Definition ip_int_from_prefix (prefixlen : nat) : Z :=
  Z.lxor ALL_ONES (Z.shiftr ALL_ONES (Z.of_nat prefixlen)).

Record IPv4Net : Type := MkNet {
  network_address : Z;
  netmask : Z;
  prefixlen : nat
}.

(** [IPv4Network(address, strict=False)] for a text [address]. *)
Definition IPv4Network (address : str) : option IPv4Net :=
  match split_on "/" address with
  | [addr; msk] =>
      match IPv4Address addr with
      | None => None
      | Some packed =>
          let prefix :=
            match prefix_from_prefix_string msk with
            | Some p => Some p
            | None => prefix_from_ip_string msk
            end in
          match prefix with
          | None => None
          | Some p =>
              let nm := ip_int_from_prefix p in
              Some (MkNet (Z.land packed nm) nm p)
          end
      end
  | _ => None
  end.

(** [str(IPv4Address)] *)
Definition str_of_ip (ip : Z) : str :=
  let octet (k : Z) := str_of_nat (Z.to_nat (Z.land (Z.shiftr ip k) 255)) in
  octet 24%Z ++ lit "." ++ octet 16%Z ++ lit "." ++ octet 8%Z ++ lit "."
    ++ octet 0%Z.

(** [str(network)] *)
Definition str_of_network (n : IPv4Net) : str :=
  str_of_ip (network_address n) ++ lit "/" ++ str_of_nat (prefixlen n).

(** [address in network] *)
Definition net_contains (n : IPv4Net) (ip : Z) : bool :=
  (Z.land ip (netmask n) =? network_address n)%Z.

(* ===================================================================== *)
(** ** Devices as objects *)
(* ===================================================================== *)

Inductive Device : Type :=
| SwitchDev (s : Switch)
| RouterDev (r : Router).

(** The dictionary of one interface, of either parser. *)
Inductive Interface : Type :=
| SwitchIntf (i : SwitchInterface)
| RouterIntf (i : RouterInterface).

(** [device.hostname], [type(device).__name__], [device.interfaces.items()] *)
Definition hostname (d : Device) : str :=
  match d with
  | SwitchDev s => s_hostname s
  | RouterDev r => r_hostname r
  end.

Definition type_name (d : Device) : str :=
  match d with
  | SwitchDev _ => lit "Switch"
  | RouterDev _ => lit "Router"
  end.

Definition interfaces (d : Device) : list (str * Interface) :=
  match d with
  | SwitchDev s => map (fun '(n, i) => (n, SwitchIntf i)) (s_interfaces s)
  | RouterDev r => map (fun '(n, i) => (n, RouterIntf i)) (r_interfaces r)
  end.

(** [props.get('ip_address')], [props.get('subnet_mask')],
    [props.get('description')]: [None] for a missing key. *)
Definition get_ip_address (props : Interface) : option str :=
  match props with
  | RouterIntf i => ip_address i
  | SwitchIntf _ => None
  end.

Definition get_subnet_mask (props : Interface) : option str :=
  match props with
  | RouterIntf i => subnet_mask i
  | SwitchIntf _ => None
  end.

Definition get_description (props : Interface) : option str :=
  match props with
  | RouterIntf i => description i
  | SwitchIntf i => sw_description i
  end.

(** Truth value of an optional text: [None] and the empty text are false. *)
Definition truthy (o : option str) : bool :=
  match o with
  | Some (_ :: _) => true
  | _ => false
  end.

(** Device objects live in a store; a reference is an index into it. *)
Abbreviation ref := nat.
Abbreviation store := (list Device).

Definition deref (h : store) (r : ref) : Device :=
  default (RouterDev new_Router) (h !! r).

(** [Switch()], [Router()]: a new object at the end of the store. *)
Definition alloc (d : Device) (h : store) : ref * store :=
  (List.length h, h ++ [d]).

(** A parser run on the object behind a reference. *)
Definition parse_router_config_at (config_text : str) (r : ref) (h : store)
  : store :=
  match h !! r with
  | Some (RouterDev d) =>
      <[ r := RouterDev (parse_router_config config_text d) ]> h
  | _ => h
  end.

Definition parse_switch_config_at (config_text : str) (r : ref) (h : store)
  : store :=
  match h !! r with
  | Some (SwitchDev d) =>
      <[ r := SwitchDev (parse_switch_config config_text d) ]> h
  | _ => h
  end.

(* ===================================================================== *)
(** ** The graph of [networkx] as [build_topology] uses it *)
(* ===================================================================== *)

(** Attributes of a node: [type] and [device_obj], absent on a node that
    an edge brought in. *)
Record NodeAttr : Type := MkNodeAttr {
  n_type : option str;
  n_device_obj : option ref
}.

(** Attributes of an edge: [interface1], [interface2], [network]. *)
Record EdgeAttr : Type := MkEdgeAttr {
  interface1 : option str;
  interface2 : option str;
  e_network : option str
}.

Definition no_attr : EdgeAttr := MkEdgeAttr None None None.

(** An undirected graph: nodes in insertion order, and one entry per edge,
    stored under the end points as first given. *)
Record Graph : Type := MkGraph {
  nodes : list (str * NodeAttr);
  edges : list (str * str * EdgeAttr)
}.

Definition empty_graph : Graph := MkGraph [] [].

(** Does the entry [(a, b)] stand for the edge between [u] and [v]? *)
Definition same_edge (u v a b : str) : bool :=
  (str_eqb a u && str_eqb b v) || (str_eqb a v && str_eqb b u).

(** [datadict.update(attr)] *)
Definition attr_update (new old : EdgeAttr) : EdgeAttr :=
  MkEdgeAttr
    (match interface1 new with Some x => Some x | None => interface1 old end)
    (match interface2 new with Some x => Some x | None => interface2 old end)
    (match e_network new with Some x => Some x | None => e_network old end).

Definition has_node (n : str) (g : Graph) : bool :=
  existsb (fun p => str_eqb (fst p) n) (nodes g).

(** [G.add_node(n, type=t, device_obj=o)] *)
Definition add_node (n : str) (t : str) (o : ref) (g : Graph) : Graph :=
  MkGraph (dict_set n (MkNodeAttr (Some t) (Some o)) (nodes g)) (edges g).

(** A node an edge mentions is created, without attributes, when missing. *)
Definition touch_node (n : str) (ns : list (str * NodeAttr))
  : list (str * NodeAttr) :=
  if existsb (fun p => str_eqb (fst p) n) ns then ns
  else ns ++ [(n, MkNodeAttr None None)].

Fixpoint edges_update (u v : str) (attr : EdgeAttr)
    (es : list (str * str * EdgeAttr)) : list (str * str * EdgeAttr) :=
  match es with
  | [] => [(u, v, attr_update attr no_attr)]
  | (a, b, old) :: es' =>
      if same_edge u v a b then (a, b, attr_update attr old) :: es'
      else (a, b, old) :: edges_update u v attr es'
  end.

(** [G.add_edge(u, v, **attr)]: the attributes of an edge already there
    are updated, never a second edge added. *)
Definition add_edge (u v : str) (attr : EdgeAttr) (g : Graph) : Graph :=
  MkGraph (touch_node v (touch_node u (nodes g)))
          (edges_update u v attr (edges g)).

(** [G.has_edge(u, v)] *)
Definition has_edge (u v : str) (g : Graph) : bool :=
  existsb (fun '(a, b, _) => same_edge u v a b) (edges g).

(** [G.get_edge_data(u, v)] *)
Definition edge_data (u v : str) (g : Graph) : option EdgeAttr :=
  snd <$> find (fun '(a, b, _) => same_edge u v a b) (edges g).

(* ===================================================================== *)
(** ** topology.py: [build_topology] *)
(* ===================================================================== *)

(** The run of [build_topology] threads the store of device objects and
    the graph under construction. *)
Record state : Type := MkState {
  devices : store;
  G : Graph
}.

Definition on_graph (g : Graph -> Graph) (st : state) : state :=
  MkState (devices st) (g (G st)).

Definition enumerate {A} (l : list A) : list (nat * A) :=
  combine (seq 0 (List.length l)) l.

(** The loop over [device2.interfaces.items()]: the first interface whose
    address lies in [network1] gives the edge and ends the loop; an
    address that does not parse is passed over. *)
Fixpoint link_first_match (host1 host2 intf1 : str) (network1 : IPv4Net)
    (intfs2 : list (str * Interface)) (st : state) : state :=
  match intfs2 with
  | [] => st
  | (intf2, props2) :: rest =>
      if truthy (get_ip_address props2) then
        match IPv4Address (default [] (get_ip_address props2)) with
        | Some ip2 =>
            if net_contains network1 ip2 then
              on_graph
                (add_edge host1 host2
                   (MkEdgeAttr (Some intf1) (Some intf2)
                      (Some (str_of_network network1)))) st
            else link_first_match host1 host2 intf1 network1 rest st
        | None => link_first_match host1 host2 intf1 network1 rest st
        end
      else link_first_match host1 host2 intf1 network1 rest st
  end.

(** The body of the loop over [device1.interfaces.items()]. *)
Definition subnet_links_of_interface (device_list : list ref) (i : nat)
    (device1 : ref) (intf1 : str) (props1 : Interface) (st : state)
  : state :=
  if truthy (get_ip_address props1) && truthy (get_subnet_mask props1) then
    match IPv4Network (default [] (get_ip_address props1) ++ lit "/"
                         ++ default [] (get_subnet_mask props1)) with
    | Some network1 =>
        fold_left
          (fun st '(j, device2) =>
             if negb (i =? j) then
               link_first_match
                 (hostname (deref (devices st) device1))
                 (hostname (deref (devices st) device2))
                 intf1 network1
                 (interfaces (deref (devices st) device2)) st
             else st)
          (enumerate device_list) st
    | None => st
    end
  else st.

(** Link devices based on IP subnets. *)
Definition subnet_pass (device_list : list ref) (st : state) : state :=
  fold_left
    (fun st '(i, device1) =>
       fold_left
         (fun st '(intf1, props1) =>
            subnet_links_of_interface device_list i device1 intf1 props1 st)
         (interfaces (deref (devices st) device1)) st)
    (enumerate device_list) st.

(** The loop over [other_device]: the first device named in the description,
    other than the device itself and not yet linked to it, gives an edge
    without attributes and ends the loop. *)
Fixpoint link_first_named (device : ref) (desc : str) (others : list ref)
    (st : state) : state :=
  match others with
  | [] => st
  | other_device :: rest =>
      let h := hostname (deref (devices st) device) in
      let o := hostname (deref (devices st) other_device) in
      if contains (lower o) desc && negb (str_eqb o h)
         && negb (has_edge h o (G st))
      then on_graph (add_edge h o no_attr) st
      else link_first_named device desc rest st
  end.

(** Fallback: use interface descriptions. *)
Definition description_pass (device_list : list ref) (st : state) : state :=
  fold_left
    (fun st device =>
       fold_left
         (fun st '(intf_name, props) =>
            if truthy (get_description props) then
              link_first_named device
                (lower (default [] (get_description props))) device_list st
            else st)
         (interfaces (deref (devices st) device)) st)
    device_list st.

(** The loop that adds every device as a node. *)
Definition add_nodes (device_list : list ref) (st : state) : state :=
  fold_left
    (fun st device =>
       on_graph
         (add_node (hostname (deref (devices st) device))
            (type_name (deref (devices st) device)) device) st)
    device_list st.

(** [build_topology(device_list)], run on a store of device objects: the
    store after the call and the graph returned. *)
Definition build_topology (device_list : list ref) (h : store) : state :=
  description_pass device_list
    (subnet_pass device_list
       (add_nodes device_list (MkState h empty_graph))).

(** [infer] of the specification on a sequence of device records: the
    graph [build_topology] returns for a store that holds just them. *)
Definition infer (ds : list Device) : Graph :=
  G (build_topology (seq 0 (List.length ds)) ds).

(* ===================================================================== *)
(** ** Calls that may raise *)
(* ===================================================================== *)

(** The exceptions the modelled code can raise: a key that a dictionary
    does not hold, a name that the module does not define. *)
Inductive exn : Type :=
| KeyError (key : str)
| NameError (name : str).

(** What a call comes to: a value returned, or an exception raised. *)
Inductive outcome (A : Type) : Type :=
| Return (a : A)
| Raise (e : exn).

Arguments Return {A} a.
Arguments Raise {A} e.

Definition bind {A B} (m : outcome A) (k : A -> outcome B) : outcome B :=
  match m with
  | Return a => k a
  | Raise e => Raise e
  end.

Notation "x <- m ;; k" := (bind m (fun x => k))
  (at level 100, m at next level, right associativity).

(** [d[k]]: the value under the key, [KeyError] when the key is missing. *)
Definition subscript {V} (d : list (str * V)) (k : str) : outcome V :=
  match dict_get k d with
  | Some v => Return v
  | None => Raise (KeyError k)
  end.

(** A [for] loop whose body may raise: the first exception ends it. *)
Fixpoint for_each {A S} (items : list A) (body : A -> S -> outcome S) (s : S)
  : outcome S :=
  match items with
  | [] => Return s
  | x :: rest => s' <- body x s ;; for_each rest body s'
  end.

(* ===================================================================== *)
(** ** config_validator.py *)
(* ===================================================================== *)

(** A finding is a dictionary with the keys [type], [message] and
    [component], all texts. *)
Abbreviation dict := (list (str * str)).

Definition finding (type : string) (message : list str) (component : string)
  : dict :=
  [(lit "type", lit type); (lit "message", concat message);
   (lit "component", lit component)].

(** [any(word in text for word in words)] *)
Definition any_word_in (words : list string) (text : str) : bool :=
  existsb (fun word => contains (lit word) text) words.

(** The body of the loop over the interfaces of a switch. *)
Definition validate_switch_interface (hostname intf_name : str)
    (props : SwitchInterface) (findings : list dict) : list dict :=
  let findings :=
    if truthy (sw_description props)
       && any_word_in ["rtr"; "router"; "to r"]
            (lower (default [] (sw_description props)))
    then
      if bool_decide (sw_mode props = Some (lit "access")) then
        findings ++
        [finding "WARNING"
           [hostname; lit ": Interface "; intf_name; lit " (";
            default [] (sw_description props);
            lit ") is an access port connected to a router. Should be a trunk."]
           "Interface Configuration"]
      else findings
    else findings in
  if negb (sw_shutdown props) && bool_decide (sw_mode props = None)
     && negb (truthy (sw_description props))
  then
    findings ++
    [finding "INFO"
       [hostname; lit ": Interface "; intf_name;
        lit " is active but unused. Consider shutting down."]
       "Security"]
  else findings.

(** The body of the loop over the interfaces of a router. *)
Definition validate_router_interface (hostname intf_name : str)
    (props : RouterInterface) (findings : list dict) : list dict :=
  let findings :=
    if negb (shutdown props) && negb (truthy (ip_address props)) then
      if negb (starts_with (lit "serial") (lower intf_name)) then
        findings ++
        [finding "INFO"
           [hostname; lit ": Interface "; intf_name;
            lit " is active but has no IP address configured."]
           "IP Configuration"]
      else findings
    else findings in
  if negb (truthy (description props)) && negb (shutdown props) then
    findings ++
    [finding "INFO"
       [hostname; lit ": Interface "; intf_name;
        lit " has no description. Add documentation."]
       "Documentation"]
  else findings.

(** [any(route['network'] == '0.0.0.0' for route in device.routes)] *)
Definition has_default_route (rs : list Route) : bool :=
  existsb (fun route => str_eqb (network route) (lit "0.0.0.0")) rs.

(** [validate_config(device)].  The line it prints for a router is left
    out, as is every other line the program prints. *)
Definition validate_config (device : Device) : list dict :=
  let findings := [] in
  match device with
  | SwitchDev d =>
      fold_left
        (fun findings '(intf_name, props) =>
           validate_switch_interface (s_hostname d) intf_name props findings)
        (s_interfaces d) findings
  | RouterDev d =>
      let findings :=
        fold_left
          (fun findings '(intf_name, props) =>
             validate_router_interface (r_hostname d) intf_name props
               findings)
          (r_interfaces d) findings in
      let findings :=
        if bool_decide (routing_protocols d = [])
           && (5 <? List.length (routes d))
        then
          findings ++
          [finding "RECOMMENDATION"
             [r_hostname d;
              lit ": Using only static routes. Consider dynamic routing (OSPF/BGP) for better scalability."]
             "Routing"]
        else findings in
      if negb (has_default_route (routes d)) then
        findings ++
        [finding "INFO"
           [r_hostname d;
            lit ": No default route configured. Ensure internet connectivity is properly routed."]
           "Routing"]
      else findings
  end.

(** [any(word in proto for proto in device.routing_protocols)] *)
Definition any_proto_has (word : string) (protos : list str) : bool :=
  existsb (fun proto => contains (lit word) proto) protos.

(** [generate_recommendations(device)] *)
Definition generate_recommendations (device : Device) : list str :=
  let recs := [] in
  match device with
  | SwitchDev d =>
      if bool_decide (stp_mode d = Some (lit "pvst")) then
        recs ++
        [s_hostname d ++
         lit ": Consider using 'spanning-tree mode rapid-pvst' for faster convergence."]
      else recs
  | RouterDev d =>
      let recs :=
        if (10 <? List.length (routes d))
           && negb (any_proto_has "ospf" (routing_protocols d))
        then
          recs ++
          [r_hostname d ++
           lit ": Many routes detected. Implement OSPF for dynamic routing."]
        else recs in
      if (50 <? List.length (routes d))
         && negb (any_proto_has "bgp" (routing_protocols d))
      then
        recs ++
        [r_hostname d ++
         lit ": Very large routing table. Consider BGP for enterprise networks."]
      else recs
  end.

(* ===================================================================== *)
(** ** config_parser.py *)
(* ===================================================================== *)

(** The files [parse_any_config] can open: the text [f.read()] gives for
    a path, [None] for a path at which there is no file
    ([FileNotFoundError]).  The file is decoded with [errors='ignore'], so
    no [UnicodeDecodeError] arises. *)
Abbreviation files := (str -> option str).

(** [parse_any_config(file_path)], run on a store of device objects: what
    it returns ([None] or the reference to a new device) and the store
    after the call.  The module imports the device classes and the two
    parsers and nothing else, so the name [os] in the branch of an unknown
    device type is not defined there.  Neither parser raises, so the two
    [except Exception] branches are never taken. *)
Definition parse_any_config (fs : files) (file_path : str) (h : store)
  : outcome (option ref * store) :=
  match fs file_path with
  | None => Return (None, h)
  | Some config_text =>
      match strip config_text with
      | [] => Return (None, h)
      | _ =>
          match detect_device_type config_text with
          | switch =>
              let '(device_obj, h) := alloc (SwitchDev new_Switch) h in
              Return (Some device_obj,
                      parse_switch_config_at config_text device_obj h)
          | router =>
              let '(device_obj, h) := alloc (RouterDev new_Router) h in
              Return (Some device_obj,
                      parse_router_config_at config_text device_obj h)
          | unknown => Raise (NameError (lit "os"))
          end
      end
  end.

(* ===================================================================== *)
(** ** advanced_analyzer.py: [NetworkIntelligenceEngine] *)
(* ===================================================================== *)

(** [network_data] is a dictionary; the two methods read the list of
    findings under its key [findings] and nothing else.  A finding is a
    dictionary of texts. *)
Abbreviation network_data := (list (str * list dict)).

(** The body of the loop of [generate_health_score]. *)
Definition health_step (finding : dict) (score : Z) : outcome Z :=
  severity <- subscript finding (lit "severity") ;;
  if str_eqb severity (lit "CRITICAL") then Return (score - 20)%Z
  else if str_eqb severity (lit "HIGH") then Return (score - 10)%Z
  else if str_eqb severity (lit "MEDIUM") then Return (score - 5)%Z
  else Return score.

(** [generate_health_score(network_data)] *)
Definition generate_health_score (data : network_data) : outcome Z :=
  let score := 100%Z in
  findings <- subscript data (lit "findings") ;;
  score <- for_each findings health_step score ;;
  Return (Z.max 0 score).

(** An entry of the improvement plan: the keys [issue], [fix] and [impact]. *)
Record plan_entry : Type := MkPlanEntry {
  issue : str;
  fix_text : str;
  impact : str
}.

(** The plan: a dictionary from a severity to the entries of that
    severity. *)
Abbreviation plan := (list (str * list plan_entry)).

Definition empty_plan : plan :=
  [(lit "critical", []); (lit "high", []); (lit "medium", []);
   (lit "low", [])].

(** The body of the loop of [generate_improvement_plan]: the list of the
    plan is looked up first, then the entry is built and appended. *)
Definition plan_step (finding : dict) (p : plan) : outcome plan :=
  severity <- subscript finding (lit "severity") ;;
  bucket <- subscript p (lower severity) ;;
  description <- subscript finding (lit "description") ;;
  let entry :=
    MkPlanEntry description
      (default (lit "Review configuration") (dict_get (lit "fix") finding))
      (if str_eqb severity (lit "CRITICAL") || str_eqb severity (lit "HIGH")
       then lit "High" else lit "Medium") in
  Return (dict_set (lower severity) (bucket ++ [entry]) p).

(** [generate_improvement_plan(network_data)] *)
Definition generate_improvement_plan (data : network_data) : outcome plan :=
  findings <- subscript data (lit "findings") ;;
  for_each findings plan_step empty_plan.

(* ===================================================================== *)
(** ** topology.py: the layouts of the drawing *)
(* ===================================================================== *)

(** A layout: the position of a node, by its name. *)
Abbreviation layout := (list (str * (Z * Z))).

Definition position (name : string) (x y : Z) : str * (Z * Z) :=
  (lit name, (x, y)).

(** Core, distribution and access. *)
Definition core_distribution_access : layout :=
  [position "R1" 0 8; position "R2" 4 8; position "Switch1" 2 4;
   position "Switch2" 6 4; position "PC1" 1 0; position "PC2" 3 0;
   position "Server1" 5 0].

(** Hub and spoke. *)
Definition hub_spoke : layout :=
  [position "R1" 0 0; position "R2" 4 4; position "R3" (-4) 4;
   position "Switch1" 2 2].

Definition custom_layouts : list (str * layout) :=
  [(lit "core_distribution_access", core_distribution_access);
   (lit "hub_spoke", hub_spoke)].

(** [k in d] *)
Definition dict_has {V} (k : str) (d : list (str * V)) : bool :=
  bool_decide (is_Some (dict_get k d)).

(** [graph.nodes()]: the names of the nodes, in insertion order. *)
Definition node_names (graph : Graph) : list str := map fst (nodes graph).

(** [try_load_custom_layout(graph)]: the first layout that has a position
    for every node. *)
Definition try_load_custom_layout (graph : Graph) : option layout :=
  snd <$>
  find (fun '(layout_name, layout_pos) =>
          forallb (fun node => dict_has node layout_pos) (node_names graph))
       custom_layouts.

(** The loop that places the nodes of one layer:
    [pos[node] = (i * step, y)] *)
Definition place_layer (step y : Z) (layer : list str) (pos : layout)
  : layout :=
  fold_left
    (fun pos '(i, node) => dict_set node ((Z.of_nat i * step)%Z, y) pos)
    (enumerate layer) pos.

(** The body of the loop that groups the devices by type:
    [devices_by_type[device_type].append(node)] *)
Definition group_node (node : str * NodeAttr)
    (devices_by_type : list (str * list str))
  : outcome (list (str * list str)) :=
  let '(node, attr) := node in
  let device_type := default (lit "Other") (n_type attr) in
  members <- subscript devices_by_type device_type ;;
  Return (dict_set device_type (members ++ [node]) devices_by_type).

(** [create_intelligent_layout(graph)]: a node whose [type] is none of the
    three keys of [devices_by_type] raises [KeyError]. *)
Definition create_intelligent_layout (graph : Graph) : outcome layout :=
  let pos := [] in
  let layer_height := 6%Z in
  let devices_by_type : list (str * list str) :=
    [(lit "Router", []); (lit "Switch", []); (lit "Other", [])] in
  devices_by_type <-
    for_each (nodes graph) group_node devices_by_type ;;
  routers <- subscript devices_by_type (lit "Router") ;;
  let pos := place_layer 4 layer_height routers pos in
  switches <- subscript devices_by_type (lit "Switch") ;;
  let pos := place_layer 3 (layer_height - 2) switches pos in
  others <- subscript devices_by_type (lit "Other") ;;
  let pos := place_layer 2 (layer_height - 4) others pos in
  Return pos.

(* ===================================================================== *)
(** ** ai_analyzer.py: the summary of a reply *)
(* ===================================================================== *)

(** [sep.join(parts)] *)
Fixpoint join (sep : str) (parts : list str) : str :=
  match parts with
  | [] => []
  | [p] => p
  | p :: rest => p ++ sep ++ join sep rest
  end.

(** [s.startswith(prefixes)] for a tuple of prefixes. *)
Definition starts_with_any (prefixes : list str) (s : str) : bool :=
  existsb (fun p => starts_with p s) prefixes.

(** The prefixes of the lines that a summary leaves out.  The source lists
    one more, of three characters, the second of which is U+20AC; no text
    of code points below 256 starts with it. *)
Definition summary_markers : list str :=
  map lit ["#"; "-"; "*"; "1."; "2."; "3."; "4."; "5."].

(** The loop over the lines: a line is stripped and kept when it is not
    empty and starts with no marker; the loop ends once three lines are
    kept. *)
Fixpoint summary_loop (lines : list str) (summary_lines : list str)
  : list str :=
  match lines with
  | [] => summary_lines
  | line :: rest =>
      let line := strip line in
      let summary_lines :=
        if negb (bool_decide (line = []))
           && negb (starts_with_any summary_markers line)
        then summary_lines ++ [line]
        else summary_lines in
      if 3 <=? List.length summary_lines then summary_lines
      else summary_loop rest summary_lines
  end.

(** [DeepAIAnalyzer._extract_summary(ai_message)] *)
Definition _extract_summary (ai_message : str) : str :=
  let lines := split_on NL ai_message in
  let summary_lines := summary_loop lines [] in
  match summary_lines with
  | [] => lit "No summary available"
  | _ => join [NL] summary_lines
  end.

(* ===================================================================== *)
(** ** Notions used to state and prove the properties *)
(* ===================================================================== *)

(** The longest prefix of characters of a class, and what follows it. *)
Fixpoint take_while (p : ascii -> bool) (s : str) : str :=
  match s with
  | x :: s' => if p x then x :: take_while p s' else []
  | [] => []
  end.

Fixpoint drop_while (p : ascii -> bool) (s : str) : str :=
  match s with
  | x :: s' => if p x then drop_while p s' else s
  | [] => []
  end.

Definition not_space (x : ascii) : bool := negb (is_space x).

(** Does the text start with the word, compared as a literal is under the
    flags? *)
Fixpoint word_at (f : flags) (w s : str) : bool :=
  match w, s with
  | [], _ => true
  | a :: w', x :: s' => lit_matches f a x && word_at f w' s'
  | _ :: _, [] => false
  end.

(** The class of characters a one-character pattern accepts. *)
Definition class_of (f : flags) (r : regex) : option (ascii -> bool) :=
  match r with
  | Lit a => Some (lit_matches f a)
  | Dot => Some (dot_matches f)
  | Space => Some is_space
  | NotSpace => Some not_space
  | Digit => Some is_digit
  | _ => None
  end.

(** What the matcher does on a greedy and on a lazy repetition of one
    character class: the longest run first, or the shortest. *)
Fixpoint star_class (p : ascii -> bool)
    (k : str -> caps -> option (str * caps)) (s : str) (c : caps)
  : option (str * caps) :=
  match s with
  | x :: s' =>
      if p x then or_else (star_class p k s' c) (fun _ => k s c) else k s c
  | [] => k s c
  end.

Fixpoint lazy_class (p : ascii -> bool)
    (k : str -> caps -> option (str * caps)) (s : str) (c : caps)
  : option (str * caps) :=
  or_else (k s c)
    (fun _ => match s with
              | x :: s' => if p x then lazy_class p k s' c else None
              | [] => None
              end).

(** A continuation that fails on every text starting with a character of
    the class. *)
Definition rejects (p : ascii -> bool)
    (k : str -> caps -> option (str * caps)) : Prop :=
  forall x s c, p x = true -> k (x :: s) c = None.

Definition all_ascii : list ascii := map ascii_of_nat (seq 0 256).

(** The class [p] lies within the class [q]. *)
Definition class_sub (p q : ascii -> bool) : bool :=
  forallb (fun x => implb (p x) (q x)) all_ascii.

(** Every match of [r] starts with a character of the class [q]. *)
Fixpoint leads (f : flags) (q : ascii -> bool) (r : regex) : bool :=
  match r with
  | Seq a _ | Group _ a => leads f q a
  | Alt a b => leads f q a && leads f q b
  | _ =>
      match class_of f r with
      | Some p => class_sub p q
      | None => false
      end
  end.

(** [p] occurs in [s]; and occurs in some letter case. *)
Definition occurs (p s : str) : Prop :=
  exists pre post, s = pre ++ p ++ post.

Definition occurs_any_case (p s : str) : Prop :=
  exists pre w post, s = pre ++ w ++ post /\ lower w = p.

Definition all_space (s : str) : Prop := Forall (fun x => is_space x = true) s.
Definition no_space (s : str) : Prop := Forall (fun x => is_space x = false) s.

(** A token ends where the text ends or white space follows. *)
Definition token_ends (rest : str) : Prop :=
  match rest with
  | [] => True
  | x :: _ => is_space x = true
  end.

(** Right after [pre] the text reads: a keyword, a gap, the token [tok]. *)
Definition keyword_token_at (is_kw is_gap : str -> Prop)
    (text pre tok : str) : Prop :=
  exists kw gap rest,
    text = pre ++ kw ++ gap ++ tok ++ rest /\
    is_kw kw /\ is_gap gap /\
    tok <> [] /\ no_space tok /\ token_ends rest.

(** The leftmost place where a pattern of the text stands gives [tok]. *)
Definition first_match (at_ : str -> str -> str -> Prop) (text tok : str)
  : Prop :=
  exists pre,
    at_ text pre tok /\
    forall pre' tok', at_ text pre' tok' -> List.length pre <= List.length pre'.

(** [hostname <token>] as the router parser reads it: the keyword in any
    letter case, then white space of any length. *)
Definition router_hostname_at : str -> str -> str -> Prop :=
  keyword_token_at (fun kw => lower kw = lit "hostname")
                   (fun gap => gap <> [] /\ all_space gap).

(** [hostname <token>] as the switch parser reads it: the keyword in lower
    case, then one space. *)
Definition switch_hostname_at : str -> str -> str -> Prop :=
  keyword_token_at (fun kw => kw = lit "hostname") (fun gap => gap = [SP]).

(** *** Shape of a graph *)

(** The end points of the edges, in the order the edges stand. *)
Definition edge_keys (g : Graph) : list (str * str) :=
  map (fun e => fst e) (edges g).

Definition no_self_loop (g : Graph) : Prop :=
  forall a b, In (a, b) (edge_keys g) -> a <> b.

(** Two entries join the same two nodes, in either order. *)
Definition same_pair (k k' : str * str) : Prop :=
  (fst k = fst k' /\ snd k = snd k') \/ (fst k = snd k' /\ snd k = fst k').

(** No two entries of the edge list join the same unordered pair. *)
Definition one_edge_per_pair (g : Graph) : Prop :=
  forall i j k k',
    edge_keys g !! i = Some k -> edge_keys g !! j = Some k' ->
    same_pair k k' -> i = j.

(** The attributes the subnet pass gives an edge. *)
Definition full_metadata (m : EdgeAttr) : Prop :=
  is_Some (interface1 m) /\ is_Some (interface2 m) /\ is_Some (e_network m).

(** The graph as the subnet pass leaves it, before the description pass. *)
Definition after_subnet_pass (ds : list Device) : Graph :=
  G (subnet_pass (seq 0 (List.length ds))
       (add_nodes (seq 0 (List.length ds)) (MkState ds empty_graph))).

(** Some interface of [d1] has an address and a mask that give a network,
    and the address of some interface of [d2] lies in it. *)
Definition subnet_match (d1 d2 : Device) : Prop :=
  exists intf1 props1 network1 intf2 props2 ip2,
    In (intf1, props1) (interfaces d1) /\
    truthy (get_ip_address props1) = true /\
    truthy (get_subnet_mask props1) = true /\
    IPv4Network (default [] (get_ip_address props1) ++ lit "/"
                   ++ default [] (get_subnet_mask props1)) = Some network1 /\
    In (intf2, props2) (interfaces d2) /\
    truthy (get_ip_address props2) = true /\
    IPv4Address (default [] (get_ip_address props2)) = Some ip2 /\
    net_contains network1 ip2 = true.

(** Every edge carries the three attributes. *)
Definition all_full (g : Graph) : Prop :=
  forall a b m, In (a, b, m) (edges g) -> full_metadata m.

(** The address and mask of the interface pair of the subnet example. *)
Definition ip_10_0_0_1 : str := lit "10.0.0.1".
Definition ip_10_0_0_2 : str := lit "10.0.0.2".
Definition mask_30 : str := lit "255.255.255.252".

(** The network 10.0.0.0/30: address, mask and prefix length. *)
Definition net_30 : IPv4Net := MkNet 167772160 4294967292 30.

(** An interface and a router with the fields of the example set and every
    other field at its default. *)
Definition interface_with (a : str) (m d : option str) : RouterInterface :=
  MkRouterInterface d (Some a) m false None None None None None None.

Definition router_with (h : str) (intfs : list (str * RouterInterface))
  : Router :=
  MkRouter h (lit "Cisco") intfs (lit "Unknown") [] [] None None.

Definition one_interface_router (h intf a : str) (m d : option str) : Device :=
  RouterDev (router_with h [(intf, interface_with a m d)]).

(** *** The matches of the subnet pass *)

(** The first interface of [intfs2] whose address lies in [network1]; an
    address that does not parse is passed over. *)
Fixpoint first_in_network (network1 : IPv4Net)
    (intfs2 : list (str * Interface)) : option str :=
  match intfs2 with
  | [] => None
  | (intf2, props2) :: rest =>
      if truthy (get_ip_address props2) then
        match IPv4Address (default [] (get_ip_address props2)) with
        | Some ip2 =>
            if net_contains network1 ip2 then Some intf2
            else first_in_network network1 rest
        | None => first_in_network network1 rest
        end
      else first_in_network network1 rest
  end.

(** The match of one interface of a device with the device [d2]: the
    interface has an address and a mask that give a network, and [d2] has
    an interface with an address in it.  The attributes name the
    interface, the first such interface of [d2], and the network. *)
Definition match_of (d2 : Device) (entry : str * Interface)
  : list EdgeAttr :=
  let '(intf1, props1) := entry in
  if truthy (get_ip_address props1) && truthy (get_subnet_mask props1) then
    match IPv4Network (default [] (get_ip_address props1) ++ lit "/"
                         ++ default [] (get_subnet_mask props1)) with
    | Some network1 =>
        match first_in_network network1 (interfaces d2) with
        | Some intf2 =>
            [MkEdgeAttr (Some intf1) (Some intf2)
               (Some (str_of_network network1))]
        | None => []
        end
    | None => []
    end
  else [].

(** The matches of [d1] with [d2], in the order of the interfaces of
    [d1]. *)
Definition subnet_matches (d1 d2 : Device) : list EdgeAttr :=
  flat_map (match_of d2) (interfaces d1).

(** [G.add_edge(u, v, **attr)] for each of the attributes in turn. *)
Definition link_all (u v : str) (ms : list EdgeAttr) (g : Graph) : Graph :=
  fold_left (fun g m => add_edge u v m g) ms g.

(** One extraction: a device is created and the parser run on it.  The
    result is the reference to the new object and the store. *)
Definition extract_router (config_text : str) (h : store) : ref * store :=
  let '(r, h') := alloc (RouterDev new_Router) h in
  (r, parse_router_config_at config_text r h').

Definition extract_switch (config_text : str) (h : store) : ref * store :=
  let '(r, h') := alloc (SwitchDev new_Switch) h in
  (r, parse_switch_config_at config_text r h').

(** The routes the loop over the static routes appends for the items
    [findall] returned, and the routes the loop over the default routes
    appends. *)
Definition static_routes (items : list found) : list Route :=
  flat_map
    (fun item =>
       match item with
       | FoundTuple [net; msk; hop; dist] =>
           [MkRoute net msk static (Some hop) None
              (match dist with [] => None | _ => Some dist end)]
       | _ => []
       end)
    items.

Definition default_routes (items : list found) : list Route :=
  flat_map
    (fun item =>
       match item with
       | FoundText hop =>
           [MkRoute (lit "0.0.0.0") (lit "0.0.0.0") static_default (Some hop)
              None None]
       | FoundTuple _ => []
       end)
    items.

(** *** Texts made of static route lines *)

(** A line [ip route <network> <mask> <next-hop> [<admin-distance>]]. *)
Record route_line : Type := RouteLine {
  rl_network : str;
  rl_mask : str;
  rl_hop : str;
  rl_distance : option str
}.

(** A number, and four numbers joined by dots. *)
Definition digits_text (s : str) : Prop :=
  s <> [] /\ Forall (fun x => is_digit x = true) s.

Definition quad_text (s : str) : Prop :=
  exists a b c d,
    s = a ++ "."%char :: b ++ "."%char :: c ++ "."%char :: d /\
    digits_text a /\ digits_text b /\ digits_text c /\ digits_text d.

Definition well_formed (l : route_line) : Prop :=
  quad_text (rl_network l) /\ quad_text (rl_mask l) /\
  rl_hop l <> [] /\ no_space (rl_hop l) /\
  match rl_distance l with
  | Some d => digits_text d
  | None => True
  end.

Definition line_text (l : route_line) : str :=
  lit "ip route " ++ rl_network l ++ SP :: rl_mask l ++ SP :: rl_hop l
    ++ match rl_distance l with
       | Some d => SP :: d
       | None => []
       end.

(** The lines, one per line of the text. *)
Fixpoint config_of_lines (ls : list route_line) : str :=
  match ls with
  | [] => []
  | [l] => line_text l
  | l :: ls' => line_text l ++ NL :: config_of_lines ls'
  end.

Definition is_default (l : route_line) : bool :=
  str_eqb (rl_network l) (lit "0.0.0.0") && str_eqb (rl_mask l) (lit "0.0.0.0").

Definition static_route_of (l : route_line) : Route :=
  MkRoute (rl_network l) (rl_mask l) static (Some (rl_hop l)) None
          (rl_distance l).

Definition default_route_of (l : route_line) : Route :=
  MkRoute (lit "0.0.0.0") (lit "0.0.0.0") static_default (Some (rl_hop l))
          None None.

(** What may follow a line: the end of the text, or a newline and a line
    that starts with [i]. *)
Definition next_line (tail : str) : Prop :=
  tail = [] \/ exists t, tail = NL :: "i"%char :: t.

(** The text does not start with a character of the class. *)
Definition starts_outside (p : ascii -> bool) (s : str) : Prop :=
  match s with
  | [] => True
  | x :: _ => p x = false
  end.

(** The admin distance as it stands in a line. *)
Definition distance_text (dist : option str) : str :=
  match dist with Some d => SP :: d | None => [] end.

(** The letter [i], in either case. *)
Definition first_is_i (x : ascii) : bool := lit_matches IC "i" x.

(** A character that is not white space and that only itself matches
    without regard to case. *)
Definition plain (a : ascii) : bool :=
  negb (is_space a)
  && forallb (fun x => implb (lit_matches IC a x) (ascii_eqb x a)) all_ascii.

(** The match of the default route pattern in a default line. *)
Definition default_match_of (l : route_line) (tail : str) : rematch :=
  ReMatch (lit "ip route " ++ rl_network l ++ SP :: rl_mask l ++ SP :: rl_hop l)
          [(1, rl_hop l)]
          (distance_text (rl_distance l) ++ tail).

(** *** Findings *)

(** The types a finding of [validate_config] can have, by the kind of the
    device. *)
Definition finding_types (device : Device) : list str :=
  match device with
  | SwitchDev _ => map lit ["WARNING"; "INFO"]
  | RouterDev _ => map lit ["INFO"; "RECOMMENDATION"]
  end.

(** An interface of a router that is not shut down. *)
Definition active (p : str * RouterInterface) : bool := negb (shutdown (snd p)).

(** The shape of a finding: the three keys, and a type of the given list. *)
Definition finding_of_types (types : list str) (f : dict) : Prop :=
  map fst f = map lit ["type"; "message"; "component"] /\
  exists ty, dict_get (lit "type") f = Some ty /\ In ty types.

(** *** Severities *)

(** [finding['severity']], when the finding has the key. *)
Definition severity_of (f : dict) : option str := dict_get (lit "severity") f.

Definition has_severity (f : dict) : Prop := is_Some (severity_of f).

(** The number of findings of a severity, as written. *)
Definition count_severity (sev : string) (fs : list dict) : Z :=
  Z.of_nat
    (List.length
       (List.filter
          (fun f => match severity_of f with
                    | Some s => str_eqb s (lit sev)
                    | None => false
                    end) fs)).

(** The keys of the improvement plan. *)
Definition plan_keys : list str := map lit ["critical"; "high"; "medium"; "low"].

(** A finding the improvement plan can take: it has a severity that, in
    lower case, is a key of the plan, and a description. *)
Definition plannable (f : dict) : Prop :=
  exists sev,
    severity_of f = Some sev /\ In (lower sev) plan_keys /\
    is_Some (dict_get (lit "description") f).

(** The entry of the plan for a finding. *)
Definition entry_of (f : dict) : plan_entry :=
  MkPlanEntry
    (default [] (dict_get (lit "description") f))
    (default (lit "Review configuration") (dict_get (lit "fix") f))
    (match severity_of f with
     | Some sev =>
         if str_eqb sev (lit "CRITICAL") || str_eqb sev (lit "HIGH")
         then lit "High" else lit "Medium"
     | None => lit "Medium"
     end).

(** The findings whose severity is [k] in lower case, in their order. *)
Definition of_severity (k : str) (fs : list dict) : list dict :=
  List.filter
    (fun f => match severity_of f with
              | Some sev => str_eqb (lower sev) k
              | None => false
              end) fs.

(** The plan that sorts the findings by severity. *)
Definition plan_of (fs : list dict) : plan :=
  map (fun k => (k, map entry_of (of_severity k fs))) plan_keys.

(** A plan with its four lists. *)
Definition plan4 (c h m l : list plan_entry) : plan :=
  [(lit "critical", c); (lit "high", h); (lit "medium", m); (lit "low", l)].

(** *** Layers of a layout *)

(** The keys of [devices_by_type]. *)
Definition layer_names : list str := map lit ["Router"; "Switch"; "Other"].

(** [graph.nodes[node].get('type', 'Other')] *)
Definition node_type (attr : NodeAttr) : str :=
  default (lit "Other") (n_type attr).

(** The nodes of a type, in the order of the graph. *)
Definition of_type (ty : str) (ns : list (str * NodeAttr)) : list str :=
  map fst (List.filter (fun p => str_eqb (node_type (snd p)) ty) ns).

(** The positions of a layer: the i-th node at [(i * step, y)]. *)
Definition layer (step y : Z) (names : list str) : layout :=
  map (fun '(i, n) => (n, ((Z.of_nat i * step)%Z, y))) (enumerate names).

(** The three lists of [devices_by_type]. *)
Definition by_type3 (r s o : list str) : list (str * list str) :=
  [(lit "Router", r); (lit "Switch", s); (lit "Other", o)].

(** The node of a device: its type is that of a router or of a switch. *)
Definition device_node (p : str * NodeAttr) : Prop :=
  n_type (snd p) = Some (lit "Router") \/ n_type (snd p) = Some (lit "Switch").

(** The finding of a router without a default route. *)
Definition no_default_route_finding (hostname : str) : dict :=
  finding "INFO"
    [hostname;
     lit ": No default route configured. Ensure internet connectivity is properly routed."]
    "Routing".

(** The two recommendations for a router. *)
Definition ospf_advice (hostname : str) : str :=
  hostname ++ lit ": Many routes detected. Implement OSPF for dynamic routing.".

Definition bgp_advice (hostname : str) : str :=
  hostname
  ++ lit ": Very large routing table. Consider BGP for enterprise networks.".

(** *** Lines of a summary *)

(** A line as a summary holds it: not empty, without a newline, with no
    white space at either end, and starting with no marker. *)
Definition summary_line (l : str) : Prop :=
  l <> [] /\ ~ In NL l /\ strip l = l /\
  starts_with_any summary_markers l = false.

(** *** What a match is made of *)

(** Every character a match of [r] takes belongs to the class [q]. *)
Fixpoint chars_in (f : flags) (q : ascii -> bool) (r : regex) : bool :=
  match r with
  | Eps | Dollar | Lookahead _ => true
  | Seq a b | Alt a b => chars_in f q a && chars_in f q b
  | Star _ a | Group _ a => chars_in f q a
  | _ =>
      match class_of f r with
      | Some p => class_sub p q
      | None => false
      end
  end.

(** Every match of [r] takes a character of the class [q]. *)
Fixpoint needs (f : flags) (q : ascii -> bool) (r : regex) : bool :=
  match r with
  | Seq a b => needs f q a || needs f q b
  | Alt a b => needs f q a && needs f q b
  | Group _ a => needs f q a
  | _ =>
      match class_of f r with
      | Some p => class_sub p q
      | None => false
      end
  end.

(** Every group [n] of [r] matches a text that is not empty and made of
    characters of the class [qs n]. *)
Fixpoint groups_in (f : flags) (qs : nat -> ascii -> bool) (r : regex)
  : bool :=
  match r with
  | Group n a =>
      chars_in f (qs n) a && leads f (fun _ => true) a && groups_in f qs a
  | Seq a b | Alt a b => groups_in f qs a && groups_in f qs b
  | Star _ a | Lookahead a => groups_in f qs a
  | _ => true
  end.

(** The group [n] takes part in every match of [r]. *)
Fixpoint binds (n : nat) (r : regex) : bool :=
  match r with
  | Group m a => (m =? n) || binds n a
  | Seq a b => binds n a || binds n b
  | Alt a b => binds n a && binds n b
  | _ => false
  end.

(** A text that is not empty and made of characters of a class. *)
Definition text_of (q : ascii -> bool) (t : str) : Prop :=
  t <> [] /\ Forall (fun x => q x = true) t.

(** The groups captured so far are texts of their classes. *)
Definition caps_in (qs : nat -> ascii -> bool) (cs : caps) : Prop :=
  Forall (fun p => text_of (qs (fst p)) (snd p)) cs.

Definition any_char (x : ascii) : bool := true.

(** A digit or a dot. *)
Definition digit_or_dot (x : ascii) : bool := is_digit x || ascii_eqb x ".".

(** *** What a parser stores for a stanza *)

(** The dictionary the router parser stores for an interface stanza. *)
Definition router_entry (block : str) : RouterInterface :=
  let i := empty_router_interface in
  let i := when_found IC shutdown_re block (fun _ => with_shutdown) i in
  let i :=
    when_found DOTALL_IC desc_re block
      (fun m => with_description (strip (group_text m 1))) i in
  let i :=
    when_found IC ip_re block
      (fun m => with_ip (group_text m 1) (group_text m 2)) i in
  let i :=
    when_found IC sec_ip_re block
      (fun m => with_secondary (group_text m 1) (group_text m 2)) i in
  let i :=
    when_found IC bw_re block (fun m => with_bandwidth (group_text m 1)) i in
  let i :=
    when_found IC duplex_re block (fun m => with_duplex (group_text m 1)) i in
  when_found IC speed_re block (fun m => with_speed (group_text m 1)) i.

(** The dictionary the switch parser stores for an interface stanza. *)
Definition switch_entry (block : str) : SwitchInterface :=
  let i := MkSwitchInterface None None None (contains (lit "shutdown") block) in
  let i :=
    when_found (Flags false false true) sw_desc_re block
      (fun m => sw_with_description (strip (group_text m 1))) i in
  let i :=
    when_found no_flags sw_mode_re block
      (fun m => sw_with_mode (group_text m 1)) i in
  when_found no_flags sw_vlan_re block
    (fun m => sw_with_access_vlan (group_text m 1)) i.

(** The VLAN a stanza adds to the VLANs of the switch. *)
Definition switch_vlan (block : str) : gset str :=
  match re_search no_flags sw_vlan_re block with
  | Some m => {[ group_text m 1 ]}
  | None => ∅
  end.

(** *** The shape of what the parsers record *)

(** An address and its mask: both texts of digits and dots, or both
    absent. *)
Definition address_pair (a m : option str) : Prop :=
  match a, m with
  | Some a, Some m => text_of digit_or_dot a /\ text_of digit_or_dot m
  | None, None => True
  | _, _ => False
  end.

Definition router_interface_shape (name : str) (i : RouterInterface) : Prop :=
  text_of not_space name /\
  address_pair (ip_address i) (subnet_mask i) /\
  match secondary_ips i with
  | None => True
  | Some ips =>
      exists a m, ips = [(a, m)] /\ address_pair (Some a) (Some m) /\
                  is_Some (ip_address i)
  end /\
  (forall v, bandwidth i = Some v -> text_of is_digit v) /\
  (forall v, duplex i = Some v -> text_of not_space v) /\
  (forall v, speed i = Some v -> text_of is_digit v) /\
  encapsulation i = None /\ vrf i = None.

Definition switch_interface_shape (vs : gset str) (name : str)
    (i : SwitchInterface) : Prop :=
  text_of not_space name /\
  (forall v, sw_mode i = Some v -> text_of not_space v) /\
  (forall v, sw_access_vlan i = Some v -> text_of not_space v /\ v ∈ vs).

(** The classes of the groups of the static route pattern: network and
    mask, next hop, admin distance. *)
Definition static_route_classes (n : nat) : ascii -> bool :=
  match n with
  | 3 => not_space
  | 4 => is_digit
  | _ => digit_or_dot
  end.

(** A route of the static route loops. *)
Definition route_shape (r : Route) : Prop :=
  text_of digit_or_dot (network r) /\ text_of digit_or_dot (mask r) /\
  (exists hop, next_hop r = Some hop /\ text_of not_space hop) /\
  area r = None /\
  match rtype r with
  | static => forall v, admin_distance r = Some v -> text_of is_digit v
  | static_default =>
      network r = lit "0.0.0.0" /\ mask r = lit "0.0.0.0" /\
      admin_distance r = None
  | ospf => False
  end.

(** *** A second parse *)

(** The assignments [d[k] = v] of a list, one after the other. *)
Definition set_all {V} (kvs : list (str * V)) (d : list (str * V))
  : list (str * V) :=
  fold_left (fun d kv => dict_set (fst kv) (snd kv) d) kvs d.

(** The entries the router parser sets for a text, in the order of the
    stanzas. *)
Definition router_entries (text : str) : list (str * RouterInterface) :=
  flat_map
    (fun item =>
       match item with
       | FoundText block =>
           match re_search IC intf_name_re block with
           | Some m => [(group_text m 1, router_entry block)]
           | None => []
           end
       | FoundTuple _ => []
       end)
    (re_findall DOTALL_IC interface_block_re text).

(** The routes the router parser appends for a text. *)
Definition routes_of_text (text : str) : list Route :=
  static_routes (re_findall IC static_route_re text)
  ++ default_routes (re_findall IC default_route_re text).

(** *** The fields of a parsed device *)

(** The model the router parser sets: [Cisco] and four digits. *)
Definition model_shape (m : str) : Prop :=
  exists a b c d,
    m = lit "Cisco " ++ [a; b; c; d] /\
    Forall (fun x => is_digit x = true) [a; b; c; d].

(** *** Where an edge comes from *)

(** An interface of [d1] has an address and a mask that give a network, an
    interface of [d2] has an address in that network, and [m] names the
    two interfaces and the network. *)
Definition subnet_link (d1 d2 : Device) (m : EdgeAttr) : Prop :=
  exists intf1 props1 network1 intf2 props2 ip2,
    In (intf1, props1) (interfaces d1) /\
    truthy (get_ip_address props1) = true /\
    truthy (get_subnet_mask props1) = true /\
    IPv4Network (default [] (get_ip_address props1) ++ lit "/"
                   ++ default [] (get_subnet_mask props1)) = Some network1 /\
    In (intf2, props2) (interfaces d2) /\
    truthy (get_ip_address props2) = true /\
    IPv4Address (default [] (get_ip_address props2)) = Some ip2 /\
    net_contains network1 ip2 = true /\
    m = MkEdgeAttr (Some intf1) (Some intf2) (Some (str_of_network network1)).

(** The description [desc], taken in lower case, names the device. *)
Definition names_device (desc : str) (d : Device) : bool :=
  contains (lower (hostname d)) (lower desc).

(** The description of an interface of [d1] names [d2]. *)
Definition mentions (d1 d2 : Device) : Prop :=
  exists intf props,
    In (intf, props) (interfaces d1) /\
    truthy (get_description props) = true /\
    names_device (default [] (get_description props)) d2 = true.

(** The edge entry joins two devices at different places of the list:
    either a description of the first names the second, their hostnames
    differ and the entry has no attribute; or the entry, in one direction
    or the other, has the attributes of a subnet link between them. *)
Definition edge_justified (h : store) (device_list : list ref)
    (e : str * str * EdgeAttr) : Prop :=
  exists i j r1 r2,
    device_list !! i = Some r1 /\ device_list !! j = Some r2 /\ i <> j /\
    let d1 := deref h r1 in
    let d2 := deref h r2 in
    (fst (fst e) = hostname d1 /\ snd (fst e) = hostname d2 /\
     hostname d1 <> hostname d2 /\ snd e = no_attr /\ mentions d1 d2) \/
    (same_pair (fst e) (hostname d1, hostname d2) /\ subnet_link d1 d2 (snd e)).

(** The node attributes [build_topology] gives a device. *)
Definition node_of (h : store) (r : ref) : str * NodeAttr :=
  (hostname (deref h r),
   MkNodeAttr (Some (type_name (deref h r))) (Some r)).

(* ===================================================================== *)
(** * Properties *)
(* ===================================================================== *)

(* ===================================================================== *)
(** ** Facts about text *)
(* ===================================================================== *)

Lemma ascii_eqb_eq a b : ascii_eqb a b = true <-> a = b.
Proof. apply Ascii.eqb_eq. Qed.

Lemma str_eqb_eq a b : str_eqb a b = true <-> a = b.
Proof.
  revert b. induction a as [|x a IH]; intros [|y b]; simpl;
    try (split; [discriminate|discriminate]); [split; reflexivity|].
  rewrite andb_true_iff, ascii_eqb_eq, IH.
  split; [intros [-> ->]; reflexivity|intros [= -> ->]; auto].
Qed.

Lemma str_eqb_refl a : str_eqb a a = true.
Proof. apply str_eqb_eq. reflexivity. Qed.

Lemma str_eqb_neq a b : str_eqb a b = false <-> a <> b.
Proof.
  rewrite <- str_eqb_eq. destruct (str_eqb a b); split; congruence.
Qed.

Lemma str_eqb_sym a b : str_eqb a b = str_eqb b a.
Proof.
  destruct (str_eqb b a) eqn:E.
  - apply str_eqb_eq in E as ->. apply str_eqb_refl.
  - apply str_eqb_neq. apply str_eqb_neq in E. congruence.
Qed.

Lemma starts_with_spec p s :
  starts_with p s = true <-> exists post, s = p ++ post.
Proof.
  revert s. induction p as [|x p IH]; intros s; simpl.
  - split; [intros _; exists s; reflexivity|reflexivity].
  - destruct s as [|y s].
    + split; [discriminate|intros [post H]; discriminate].
    + rewrite andb_true_iff, ascii_eqb_eq, IH. split.
      * intros (-> & post & ->). exists post. reflexivity.
      * intros [post [= -> ->]]. eauto.
Qed.

(** [p in s] holds exactly when [p] occurs in [s]. *)
Lemma contains_spec p s : contains p s = true <-> occurs p s.
Proof.
  unfold occurs. induction s as [|y s IH].
  - simpl. rewrite orb_false_r, starts_with_spec. split.
    + intros [post H]. exists [], post. exact H.
    + intros (pre & post & H). destruct pre; [exists post; exact H|discriminate].
  - cbn [contains]. rewrite orb_true_iff, starts_with_spec, IH. split.
    + intros [[post H]|(pre & post & ->)].
      * exists [], post. exact H.
      * exists (y :: pre), post. reflexivity.
    + intros (pre & post & H). destruct pre as [|z pre]; simpl in H.
      * left. exists post. exact H.
      * right. inversion H. eauto.
Qed.

Lemma contains_false p s : contains p s = false <-> ~ occurs p s.
Proof.
  rewrite <- contains_spec. destruct (contains p s); split; congruence.
Qed.

Lemma lower_length s : List.length (lower s) = List.length s.
Proof. apply length_map. Qed.

Lemma lower_app a b : lower (a ++ b) = lower a ++ lower b.
Proof. apply map_app. Qed.

(** To occur in the lowered text is to occur in some letter case. *)
Lemma occurs_lower p s : occurs p (lower s) <-> occurs_any_case p s.
Proof.
  unfold occurs, occurs_any_case, lower. split.
  - intros (pre & post & H).
    apply map_eq_app in H as (pre' & t & -> & <- & H).
    apply map_eq_app in H as (w & post' & -> & <- & <-).
    exists pre', w, post'. auto.
  - intros (pre & w & post & -> & <-).
    exists (map lower_ascii pre), (map lower_ascii post).
    rewrite !map_app. reflexivity.
Qed.

(** *** Runs of characters of one class *)

Lemma take_drop_while p s : take_while p s ++ drop_while p s = s.
Proof.
  induction s as [|x s IH]; [reflexivity|]. simpl.
  destruct (p x); [simpl; rewrite IH|]; reflexivity.
Qed.

Lemma take_while_all p s : Forall (fun x => p x = true) (take_while p s).
Proof.
  induction s as [|x s IH]; simpl; [constructor|].
  destruct (p x) eqn:E; constructor; assumption.
Qed.

Lemma drop_while_head p s x s' : drop_while p s = x :: s' -> p x = false.
Proof.
  induction s as [|y s IH]; simpl; [discriminate|].
  destruct (p y) eqn:E; [exact IH|]. intros H; inversion H; subst. exact E.
Qed.

Lemma drop_while_app p a b :
  Forall (fun x => p x = true) a ->
  drop_while p (a ++ b) = drop_while p b.
Proof.
  induction 1 as [|x a Hx _ IH]; [reflexivity|]. simpl. rewrite Hx. exact IH.
Qed.

Lemma take_while_app p a b :
  Forall (fun x => p x = true) a ->
  take_while p (a ++ b) = a ++ take_while p b.
Proof.
  induction 1 as [|x a Hx _ IH]; [reflexivity|]. simpl. rewrite Hx, IH. reflexivity.
Qed.

Lemma take_while_ends p rest :
  match rest with [] => True | x :: _ => p x = false end ->
  take_while p rest = [].
Proof. destruct rest as [|x rest]; simpl; [reflexivity|]. intros ->. reflexivity. Qed.

Lemma drop_while_ends p rest :
  match rest with [] => True | x :: _ => p x = false end ->
  drop_while p rest = rest.
Proof. destruct rest as [|x rest]; simpl; [reflexivity|]. intros ->. reflexivity. Qed.

Lemma drop_while_outside p s : starts_outside p s -> drop_while p s = s.
Proof. destruct s as [|x s]; simpl; [reflexivity|]. intros ->. reflexivity. Qed.

Lemma take_length_diff (a b : str) : take (length (a ++ b) - length b) (a ++ b) = a.
Proof.
  rewrite length_app. replace (length a + length b - length b) with (length a) by lia.
  apply take_app_length.
Qed.

Lemma no_space_not_space s : no_space s -> Forall (fun x => not_space x = true) s.
Proof.
  intros H. eapply Forall_impl; [exact H|].
  intros x Hx. unfold not_space. simpl in Hx. rewrite Hx. reflexivity.
Qed.

Lemma token_ends_not_space rest :
  token_ends rest -> match rest with [] => True | x :: _ => not_space x = false end.
Proof. destruct rest; simpl; [auto|]. unfold not_space. intros ->. reflexivity. Qed.

Lemma lstrip_no_space s : no_space s -> lstrip s = s.
Proof. destruct 1 as [|x s Hx _]; simpl; [|rewrite Hx]; reflexivity. Qed.

Lemma strip_no_space s : no_space s -> strip s = s.
Proof.
  intros H. unfold strip, rstrip. rewrite (lstrip_no_space s H).
  rewrite lstrip_no_space, rev_involutive; [reflexivity|].
  unfold no_space in *. apply Forall_rev. exact H.
Qed.

(** *** Classes of characters *)

Lemma in_all_ascii x : In x all_ascii.
Proof.
  unfold all_ascii. rewrite <- (ascii_nat_embedding x).
  apply in_map, in_seq. pose proof (nat_ascii_bounded x). lia.
Qed.

Lemma class_sub_spec p q x : class_sub p q = true -> p x = true -> q x = true.
Proof.
  unfold class_sub. rewrite forallb_forall. intros H Hp.
  specialize (H x (in_all_ascii x)). rewrite Hp in H. exact H.
Qed.

Lemma digit_not_space x : is_digit x = true -> is_space x = false.
Proof.
  intros H. apply (class_sub_spec is_digit (fun x => negb (is_space x))) in H;
    [|vm_compute; reflexivity].
  destruct (is_space x); [discriminate|reflexivity].
Qed.

Lemma space_is_not f a x :
  class_sub is_space (fun x => negb (lit_matches f a x)) = true ->
  is_space x = true -> lit_matches f a x = false.
Proof.
  intros Hc Hx. apply (class_sub_spec _ _ _ Hc) in Hx.
  destruct (lit_matches f a x); [discriminate|reflexivity].
Qed.

Lemma digit_is_not f a x :
  class_sub is_digit (fun x => negb (lit_matches f a x)) = true ->
  is_digit x = true -> lit_matches f a x = false.
Proof.
  intros Hc Hx. apply (class_sub_spec _ _ _ Hc) in Hx.
  destruct (lit_matches f a x); [discriminate|reflexivity].
Qed.

Lemma plain_spec a x :
  plain a = true -> lit_matches IC a x = true -> x = a.
Proof.
  unfold plain. rewrite andb_true_iff, forallb_forall. intros [_ H] Hx.
  specialize (H x (in_all_ascii x)). rewrite Hx in H.
  apply ascii_eqb_eq, H.
Qed.

Lemma plain_not_space a : plain a = true -> is_space a = false.
Proof.
  unfold plain. rewrite andb_true_iff. intros [H _].
  destruct (is_space a); [discriminate|reflexivity].
Qed.

Lemma lit_matches_refl a : lit_matches IC a a = true.
Proof. unfold lit_matches. simpl. apply ascii_eqb_eq. reflexivity. Qed.

(** *** Dictionaries *)

Lemma dict_get_set_eq {V} k (v : V) d : dict_get k (dict_set k v d) = Some v.
Proof.
  induction d as [|[k' v'] d IH]; simpl.
  - rewrite str_eqb_refl. reflexivity.
  - destruct (str_eqb k' k) eqn:E; simpl.
    + rewrite str_eqb_refl. reflexivity.
    + rewrite E. exact IH.
Qed.

Lemma dict_get_set_ne {V} k k' (v : V) d :
  k <> k' -> dict_get k' (dict_set k v d) = dict_get k' d.
Proof.
  intros Hne. induction d as [|[k0 v0] d IH]; simpl.
  - apply str_eqb_neq in Hne. rewrite Hne. reflexivity.
  - destruct (str_eqb k0 k) eqn:E; simpl.
    + apply str_eqb_eq in E as ->. apply str_eqb_neq in Hne. rewrite Hne.
      reflexivity.
    + rewrite IH. reflexivity.
Qed.

Lemma dict_get_alter_eq {V} (g : V -> V) k d :
  dict_get k (dict_alter g k d) = g <$> dict_get k d.
Proof.
  induction d as [|[k' v'] d IH]; simpl; [reflexivity|].
  destruct (str_eqb k' k) eqn:E; simpl; rewrite E; [reflexivity|exact IH].
Qed.

Lemma dict_get_alter_ne {V} (g : V -> V) k k' d :
  k <> k' -> dict_get k' (dict_alter g k d) = dict_get k' d.
Proof.
  intros Hne. induction d as [|[k0 v0] d IH]; simpl; [reflexivity|].
  destruct (str_eqb k0 k) eqn:E; simpl.
  - apply str_eqb_eq in E as ->. apply str_eqb_neq in Hne. rewrite Hne.
    reflexivity.
  - rewrite IH. reflexivity.
Qed.

(** *** Loops *)

Lemma fold_left_inv {A S X} (proj : S -> X) (f : S -> A -> S) l s :
  (forall s a, proj (f s a) = proj s) -> proj (fold_left f l s) = proj s.
Proof.
  intros H. revert s. induction l as [|a l IH]; intros s; [reflexivity|].
  simpl. rewrite IH. apply H.
Qed.

Lemma fold_left_id {A S} (f : S -> A -> S) l s :
  (forall a, In a l -> f s a = s) -> fold_left f l s = s.
Proof.
  induction l as [|a l IH]; intros H; [reflexivity|].
  simpl. rewrite (H a) by (left; reflexivity).
  apply IH. intros b Hb. apply H. right. exact Hb.
Qed.

Lemma fold_left_ind {A S} (P : S -> Prop) (f : S -> A -> S) l s :
  P s -> (forall s a, In a l -> P s -> P (f s a)) -> P (fold_left f l s).
Proof.
  revert s. induction l as [|a l IH]; intros s Hs Hstep; [exact Hs|].
  simpl. apply IH.
  - apply Hstep; [left; reflexivity|exact Hs].
  - intros s' b Hb. apply Hstep. right. exact Hb.
Qed.

Lemma fold_left_reach {A S} (R Q : S -> Prop) (f : S -> A -> S) l a s :
  R s -> In a l ->
  (forall s b, R s -> R (f s b)) ->
  (forall s, R s -> Q (f s a)) ->
  (forall s b, R s -> Q s -> Q (f s b)) ->
  Q (fold_left f l s).
Proof.
  intros Hs Hin HR Hhit Hkeep. revert s Hs.
  induction l as [|b l IH]; intros s Hs; [destruct Hin|].
  simpl. destruct Hin as [->|Hin].
  - assert (Hq : Q (f s a)) by (apply Hhit, Hs).
    assert (Hr : R (f s a)) by (apply HR, Hs).
    clear IH Hs. revert Hq Hr. generalize (f s a). clear s.
    induction l as [|c l IH]; intros s Hq Hr; [exact Hq|].
    simpl. apply IH; [apply Hkeep; assumption|apply HR, Hr].
  - apply IH; [exact Hin|apply HR, Hs].
Qed.

(* ===================================================================== *)
(** ** The matcher *)
(* ===================================================================== *)

(** *** Equations of the matcher *)

Section Engine.
Variable f : flags.
Implicit Types (k : str -> caps -> option (str * caps)) (s : str) (c : caps).

Lemma rmatch_class r p k s c :
  class_of f r = Some p -> rmatch f r k s c = one_char p k s c.
Proof. destruct r; simpl; intros H; inversion H; reflexivity. Qed.

Lemma rmatch_seq a b k s c :
  rmatch f (Seq a b) k s c = rmatch f a (rmatch f b k) s c.
Proof. reflexivity. Qed.

Lemma rmatch_word w k s c :
  rmatch f (Word w) k s c =
  if word_at f w s then k (drop (length w) s) c else None.
Proof.
  revert k s c. induction w as [|a w IH]; intros k s c; [reflexivity|].
  destruct w as [|b w].
  - simpl. destruct s as [|x s]; simpl; [reflexivity|].
    rewrite andb_true_r, drop_0. reflexivity.
  - change (Word (a :: b :: w)) with (Seq (Lit a) (Word (b :: w))).
    rewrite rmatch_seq. simpl rmatch at 1. destruct s as [|x s]; [reflexivity|].
    cbn [one_char word_at]. destruct (lit_matches f a x); [|reflexivity].
    rewrite IH. reflexivity.
Qed.

Lemma rmatch_star_greedy r p k s c :
  class_of f r = Some p ->
  rmatch f (Star true r) k s c = star_class p k s c.
Proof.
  intros Hr. simpl.
  generalize (le_n (length s)).
  generalize (length s) at 2 3 as n.
  intros n; revert s c. induction n as [|n IH]; intros s c Hn.
  - destruct s; [|simpl in Hn; lia]. reflexivity.
  - rewrite (rmatch_class _ _ _ _ _ Hr).
    destruct s as [|x s]; [reflexivity|].
    cbn [one_char star_class]. destruct (p x); [|reflexivity].
    assert ((length s <? length (x :: s)) = true) as -> by (apply Nat.ltb_lt; simpl; lia).
    rewrite IH by (simpl in Hn; lia). reflexivity.
Qed.

Lemma rmatch_star_lazy r p k s c :
  class_of f r = Some p ->
  rmatch f (Star false r) k s c = lazy_class p k s c.
Proof.
  intros Hr. simpl.
  generalize (le_n (length s)).
  generalize (length s) at 2 3 as n.
  intros n; revert s c. induction n as [|n IH]; intros s c Hn.
  - destruct s; [|simpl in Hn; lia]. reflexivity.
  - rewrite (rmatch_class _ _ _ _ _ Hr).
    destruct s as [|x s]; [reflexivity|].
    cbn [one_char lazy_class]. destruct (k (x :: s) c); [reflexivity|].
    cbn [or_else]. destruct (p x); [|reflexivity].
    assert ((length s <? length (x :: s)) = true) as -> by (apply Nat.ltb_lt; simpl; lia).
    rewrite IH by (simpl in Hn; lia). reflexivity.
Qed.

Lemma rmatch_group n r k s c :
  rmatch f (Group n r) k s c =
  rmatch f r
    (fun s' c' => k s' ((n, take (length s - length s') s) :: c')) s c.
Proof. reflexivity. Qed.
End Engine.

Lemma rmatch_alt f a b k s c :
  rmatch f (Alt a b) k s c
  = or_else (rmatch f a k s c) (fun _ => rmatch f b k s c).
Proof. reflexivity. Qed.

Lemma or_else_None {A} (a : option A) : or_else a (fun _ => None) = a.
Proof. destruct a; reflexivity. Qed.

(** *** Repetition of one class *)

Lemma star_class_rejects p k s c :
  rejects p k -> star_class p k s c = k (drop_while p s) c.
Proof.
  intros Hk. induction s as [|x s IH]; [reflexivity|].
  simpl. destruct (p x) eqn:Hx; [|reflexivity].
  rewrite IH, (Hk x s c Hx). apply or_else_None.
Qed.

Lemma star_class_first p k s c r :
  k (drop_while p s) c = Some r -> star_class p k s c = Some r.
Proof.
  induction s as [|x s IH]; simpl; [tauto|].
  destruct (p x); [|tauto]. intros H. rewrite (IH H). reflexivity.
Qed.

(** What a greedy run over one class leaves to the continuation. *)
Lemma star_class_inv p k s cs res :
  star_class p k s cs = Some res ->
  exists n, n <= List.length s /\
            Forall (fun x => p x = true) (take n s) /\
            k (drop n s) cs = Some res.
Proof.
  induction s as [|x s IH]; simpl.
  - intros H. exists 0. repeat split; [simpl; lia|constructor|exact H].
  - destruct (p x) eqn:Hx.
    + destruct (star_class p k s cs) eqn:E; simpl.
      * intros [= <-]. destruct (IH eq_refl) as (n & Hn & Hall & Hk).
        exists (S n). simpl. repeat split; [lia|constructor; assumption|exact Hk].
      * intros H. exists 0. repeat split; [lia|constructor|exact H].
    + intros H. exists 0. repeat split; [lia|constructor|exact H].
Qed.

Lemma rmatch_plus_rejects f r p k s c :
  class_of f r = Some p -> rejects p k ->
  rmatch f (Plus true r) k s c =
  match s with
  | x :: s' => if p x then k (drop_while p s') c else None
  | [] => None
  end.
Proof.
  intros Hr Hk. unfold Plus. rewrite rmatch_seq, (rmatch_class f r p) by assumption.
  destruct s as [|x s]; [reflexivity|]. cbn [one_char].
  destruct (p x); [|reflexivity].
  rewrite (rmatch_star_greedy f r p) by assumption.
  apply star_class_rejects, Hk.
Qed.

Lemma rmatch_plus_first f r p k s c res :
  class_of f r = Some p ->
  (forall x s', s = x :: s' -> p x = true -> k (drop_while p s') c = Some res) ->
  rmatch f (Plus true r) k s c =
  match s with
  | x :: s' => if p x then Some res else None
  | [] => None
  end.
Proof.
  intros Hr Hk. unfold Plus. rewrite rmatch_seq, (rmatch_class f r p) by assumption.
  destruct s as [|x s]; [reflexivity|]. cbn [one_char].
  destruct (p x) eqn:Hx; [|reflexivity].
  rewrite (rmatch_star_greedy f r p) by assumption.
  apply star_class_first. eapply Hk; eauto.
Qed.

Lemma rmatch_plus_inv f r p k s cs res :
  class_of f r = Some p ->
  rmatch f (Plus true r) k s cs = Some res ->
  exists n, n <= List.length s /\
            Forall (fun x => p x = true) (take n s) /\
            k (drop n s) cs = Some res.
Proof.
  intros Hr. unfold Plus. rewrite rmatch_seq, (rmatch_class f r p) by assumption.
  destruct s as [|x s]; [discriminate|]. cbn [one_char].
  destruct (p x) eqn:Hx; [|discriminate].
  rewrite (rmatch_star_greedy f r p) by assumption.
  intros H. apply star_class_inv in H as (n & Hn & Hall & Hk).
  exists (S n). simpl. repeat split; [lia|constructor; assumption|exact Hk].
Qed.

Lemma rejects_wrap p (k : str -> caps -> option (str * caps)) (g : str -> caps -> caps) :
  rejects p k -> rejects p (fun s c => k s (g s c)).
Proof. intros H x s c Hx. apply H, Hx. Qed.

Lemma rmatch_plus_app f r p k a s c :
  class_of f r = Some p -> rejects p k ->
  a <> [] -> Forall (fun x => p x = true) a -> starts_outside p s ->
  rmatch f (Plus true r) k (a ++ s) c = k s c.
Proof.
  intros Hr Hk Ha Hall Hs.
  rewrite (rmatch_plus_rejects f r p) by assumption.
  destruct a as [|x a]; [congruence|]. inversion Hall; subst. simpl.
  rewrite H1, drop_while_app, drop_while_outside by assumption. reflexivity.
Qed.

Lemma rmatch_digits_app f k a s c :
  rejects is_digit k -> digits_text a -> starts_outside is_digit s ->
  rmatch f digits k (a ++ s) c = k s c.
Proof.
  intros Hk [Ha Hall] Hs. unfold digits, greedy.
  apply (rmatch_plus_app f Digit is_digit); auto.
Qed.

Lemma rmatch_spaces_app f k a s c :
  rejects is_space k -> a <> [] -> all_space a -> starts_outside is_space s ->
  rmatch f spaces k (a ++ s) c = k s c.
Proof.
  intros Hk Ha Hall Hs. unfold spaces, greedy.
  apply (rmatch_plus_app f Space is_space); auto.
Qed.

Lemma rmatch_dot f k s c : rmatch f (Lit ".") k ("."%char :: s) c = k s c.
Proof.
  simpl. unfold lit_matches. destruct (IGNORECASE f); reflexivity.
Qed.

(** *** The first character of a match *)

Lemma one_char_sub p q k x s cs :
  class_sub p q = true -> q x = false -> one_char p k (x :: s) cs = None.
Proof.
  intros H Hq. cbn [one_char]. destruct (p x) eqn:E; [|reflexivity].
  apply (class_sub_spec _ _ _ H) in E. congruence.
Qed.

Lemma leads_cons f q r k x s cs :
  leads f q r = true -> q x = false -> rmatch f r k (x :: s) cs = None.
Proof.
  revert k s cs.
  induction r as [ | ch | | | | | | a IHa b IHb | a IHa b IHb | g a IHa
                 | n a IHa | a IHa ];
    intros k s cs H Hq; simpl in H; try discriminate;
    try (erewrite rmatch_class by reflexivity; eapply one_char_sub; eassumption).
  - simpl. apply IHa; assumption.
  - apply andb_true_iff in H as [H1 H2]. simpl.
    rewrite IHa, IHb by assumption. reflexivity.
  - rewrite rmatch_group. apply IHa; assumption.
Qed.

Lemma leads_nil f q r k cs :
  leads f q r = true -> rmatch f r k [] cs = None.
Proof.
  revert k cs.
  induction r as [ | ch | | | | | | a IHa b IHb | a IHa b IHb | g a IHa
                 | n a IHa | a IHa ];
    intros k cs H; simpl in H; try discriminate; try reflexivity.
  - simpl. apply IHa; assumption.
  - apply andb_true_iff in H as [H1 H2]. simpl.
    rewrite IHa, IHb by assumption. reflexivity.
  - rewrite rmatch_group. apply IHa; assumption.
Qed.

Lemma leads_rejects f p r k :
  leads f (fun x => negb (p x)) r = true -> rejects p (rmatch f r k).
Proof.
  intros H x s c Hp. apply (leads_cons f _ r k x s c H). rewrite Hp. reflexivity.
Qed.

(** *** A match is a prefix of the text *)

(** A match takes a prefix of the text: what the continuation gets is a
    suffix of it. *)
Lemma rmatch_suffix f r k s cs res :
  rmatch f r k s cs = Some res ->
  exists s' cs', k s' cs' = Some res /\ s' `suffix_of` s.
Proof.
  revert k s cs res.
  induction r as [ | ch | | | | | | a IHa b IHb | a IHa b IHb | g a IHa
                 | n a IHa | a IHa ];
    intros k s cs res H;
    try (destruct s as [|x s]; simpl in H; [discriminate|];
         match type of H with
         | (if ?b then _ else _) = _ => destruct b; [|discriminate]
         end;
         exists s, cs; split; [exact H|apply suffix_cons_r; reflexivity]).
  - exists s, cs. split; [exact H|reflexivity].
  - simpl in H. destruct (at_dollar f s); [|discriminate].
    exists s, cs. split; [exact H|reflexivity].
  - simpl in H. apply IHa in H as (s1 & c1 & H & Hs1).
    apply IHb in H as (s2 & c2 & H & Hs2).
    exists s2, c2. split; [exact H|]. etrans; eassumption.
  - simpl in H. destruct (rmatch f a k s cs) eqn:E; simpl in H.
    + rewrite <- H in *. apply IHa in E. exact E.
    + apply IHb in H. exact H.
  - simpl in H. revert H. generalize (List.length s) at 1 as n. intros n.
    revert s cs. induction n as [|n IHn]; intros s cs H.
    + destruct g; simpl in H.
      * exists s, cs. split; [exact H|reflexivity].
      * destruct (k s cs) eqn:E; simpl in H; [|discriminate].
        rewrite <- H. exists s, cs. split; [exact E|reflexivity].
    + destruct g.
      * match type of H with
        | or_else ?x _ = _ => destruct x eqn:E
        end; simpl in H.
        -- rewrite <- H in *. apply IHa in E as (s1 & c1 & E & Hs1).
           destruct (List.length s1 <? List.length s); [|discriminate].
           apply IHn in E as (s2 & c2 & E & Hs2).
           exists s2, c2. split; [exact E|]. etrans; eassumption.
        -- exists s, cs. split; [exact H|reflexivity].
      * destruct (k s cs) eqn:Ek; simpl in H.
        -- rewrite <- H. exists s, cs. split; [exact Ek|reflexivity].
        -- apply IHa in H as (s1 & c1 & H & Hs1).
           destruct (List.length s1 <? List.length s); [|discriminate].
           apply IHn in H as (s2 & c2 & H & Hs2).
           exists s2, c2. split; [exact H|]. etrans; eassumption.
  - simpl in H. apply IHa in H as (s1 & c1 & H & Hs1). eauto.
  - simpl in H.
    destruct (rmatch f a (fun s' c' => Some (s', c')) s cs) as [[s1 c1]|];
      [|discriminate].
    exists s, c1. split; [exact H|reflexivity].
Qed.

Lemma match_at_split f r s m :
  match_at f r s = Some m -> s = m_text m ++ m_rest m.
Proof.
  unfold match_at. destruct (rmatch f r accept s []) as [[rest c]|] eqn:E;
    [|discriminate].
  intros [= <-]. apply rmatch_suffix in E as (s' & c' & [= -> ->] & [pre ->]).
  simpl. rewrite take_length_diff. reflexivity.
Qed.

(** A pattern that starts with one character matches at least that
    character. *)
Lemma leads_consumes f q r k s cs res :
  leads f q r = true ->
  rmatch f r k s cs = Some res ->
  exists s' cs',
    k s' cs' = Some res /\ s' `suffix_of` s /\
    List.length s' < List.length s.
Proof.
  revert k s cs res.
  induction r as [ | ch | | | | | | a IHa b IHb | a IHa b IHb | g a IHa
                 | n a IHa | a IHa ];
    intros k s cs res Hl H; simpl in Hl; try discriminate;
    try (destruct s as [|x s]; simpl in H; [discriminate|];
         match type of H with
         | (if ?b then _ else _) = _ => destruct b; [|discriminate]
         end;
         exists s, cs; repeat split;
         [exact H|apply suffix_cons_r; reflexivity|simpl; lia]).
  - simpl in H. apply IHa in H as (s1 & c1 & H & Hs1 & Hlen); [|exact Hl].
    apply rmatch_suffix in H as (s2 & c2 & H & Hs2).
    exists s2, c2. repeat split; [exact H|etrans; eassumption|].
    apply suffix_length in Hs2. lia.
  - apply andb_true_iff in Hl as [Hla Hlb]. simpl in H.
    destruct (rmatch f a k s cs) eqn:E; simpl in H.
    + rewrite <- H in *. apply IHa in E; assumption.
    + apply IHb in H; assumption.
  - simpl in H. apply IHa in H as (s1 & c1 & H & Hs1 & Hlen); [|exact Hl].
    eauto.
Qed.

Lemma match_at_nonempty f q r s m :
  leads f q r = true -> match_at f r s = Some m -> m_text m <> [].
Proof.
  intros Hl H. pose proof (match_at_split f r s m H) as Hs.
  unfold match_at in H.
  destruct (rmatch f r accept s []) as [[rest c]|] eqn:E; [|discriminate].
  inversion H; subst m. simpl in *.
  apply (leads_consumes f q) in E as (s' & c' & [= -> ->] & _ & Hlen);
    [|exact Hl].
  intros Hnil. rewrite Hnil in Hs. simpl in Hs. subst s. lia.
Qed.

(** The patterns the parsers hand to [findall] start with a letter: none
    of their matches is empty. *)
Lemma findall_patterns_consume :
  leads no_flags (fun _ => true) sw_interface_block_re = true /\
  Forall (fun r => leads DOTALL_IC (fun _ => true) r = true)
    [interface_block_re; protocol_block_re "ospf"; protocol_block_re "bgp"]
  /\
  Forall (fun r => leads IC (fun _ => true) r = true)
    [ospf_network_re; static_route_re; default_route_re].
Proof. repeat constructor. Qed.

(** *** Words *)

Lemma word_at_ic w t :
  word_at IC w t = true <->
  exists kw rest, t = kw ++ rest /\ length kw = length w /\ lower kw = lower w.
Proof.
  revert t. induction w as [|a w IH]; intros t; simpl.
  - split; [intros _; exists [], t; auto|reflexivity].
  - destruct t as [|x t].
    + split; [discriminate|]. intros (kw & rest & H & Hl & _).
      destruct kw; simpl in *; discriminate.
    + rewrite andb_true_iff, IH. unfold lit_matches. simpl.
      rewrite ascii_eqb_eq. split.
      * intros (Hx & kw & rest & -> & Hl & Hw).
        exists (x :: kw), rest. simpl. rewrite Hl, Hw, Hx. auto.
      * intros (kw & rest & H & Hl & Hw). destruct kw as [|y kw]; [discriminate|].
        simpl in *. inversion H; subst. inversion Hw.
        split; [reflexivity|]. exists kw, rest. auto.
Qed.

Lemma word_at_exact w t :
  word_at no_flags w t = true <-> exists rest, t = w ++ rest.
Proof.
  revert t. induction w as [|a w IH]; intros t; simpl.
  - split; [intros _; exists t; reflexivity|reflexivity].
  - destruct t as [|x t].
    + split; [discriminate|]. intros (rest & H). discriminate.
    + rewrite andb_true_iff, IH. unfold lit_matches. simpl.
      rewrite ascii_eqb_eq. split.
      * intros (-> & rest & ->). exists rest. reflexivity.
      * intros (rest & H). inversion H; subst. eauto.
Qed.

Lemma word_at_app f w w' s :
  word_at f w w' = true -> length w' = length w -> word_at f w (w' ++ s) = true.
Proof.
  revert w'. induction w as [|a w IH]; intros w' H Hl; [reflexivity|].
  destruct w' as [|x w']; [discriminate|]. simpl in *.
  apply andb_true_iff in H as [-> H]. simpl. apply IH; [exact H|lia].
Qed.

Lemma rmatch_word_app f w w' k s c :
  word_at f w w' = true -> length w' = length w ->
  rmatch f (Word w) k (w' ++ s) c = k s c.
Proof.
  intros H Hl. rewrite rmatch_word, word_at_app by assumption.
  rewrite <- Hl, drop_app_length. reflexivity.
Qed.

(** *** Patterns without groups *)

(** A pattern without groups hands the groups on unchanged. *)
Lemma rmatch_groupless f r k s cs res :
  count_groups r = 0 ->
  rmatch f r k s cs = Some res ->
  exists s', k s' cs = Some res.
Proof.
  revert k s cs res.
  induction r as [ | ch | | | | | | a IHa b IHb | a IHa b IHb | g a IHa
                 | n a IHa | a IHa ];
    intros k s cs res Hg H; simpl in Hg; try discriminate;
    try (destruct s as [|x s]; simpl in H; [discriminate|];
         match type of H with
         | (if ?b then _ else _) = _ => destruct b; [eauto|discriminate]
         end).
  - eauto.
  - simpl in H. destruct (at_dollar f s); [eauto|discriminate].
  - simpl in H. apply IHa in H as [s1 H]; [|lia]. apply IHb in H; [exact H|lia].
  - simpl in H. destruct (rmatch f a k s cs) eqn:E.
    + simpl in H. rewrite <- H in *. apply IHa in E; [exact E|lia].
    + simpl in H. apply IHb in H; [exact H|lia].
  - simpl in H. revert H. generalize (List.length s) at 1 as n. intros n.
    revert s cs. induction n as [|n IHn]; intros s cs H.
    + destruct g; simpl in H; [eauto|].
      destruct (k s cs) eqn:E; simpl in H; [|discriminate].
      rewrite <- H. eauto.
    + destruct g.
      * match type of H with
        | or_else ?x _ = _ => destruct x eqn:E
        end; simpl in H.
        -- rewrite <- H in *. apply IHa in E as [s1 E]; [|exact Hg].
           destruct (List.length s1 <? List.length s); [|discriminate].
           apply IHn in E. exact E.
        -- eauto.
      * destruct (k s cs) eqn:Ek; simpl in H; [rewrite <- H; eauto|].
        apply IHa in H as [s1 H]; [|exact Hg].
        destruct (List.length s1 <? List.length s); [|discriminate].
        apply IHn in H. exact H.
  - simpl in H.
    destruct (rmatch f a (fun s' c' => Some (s', c')) s cs) as [[s1 c1]|] eqn:E;
      [|discriminate].
    apply IHa in E as [s2 E]; [|exact Hg]. inversion E; subst. eauto.
Qed.

Lemma word_groupless w : count_groups (Word w) = 0.
Proof.
  induction w as [|a w IH]; [reflexivity|].
  destruct w; [reflexivity|]. simpl in *. exact IH.
Qed.

(** *** Search *)

Lemma re_search_None f r s :
  re_search f r s = None <-> forall pre t, s = pre ++ t -> match_at f r t = None.
Proof.
  induction s as [|x s IH]; simpl.
  - split.
    + destruct (match_at f r []) eqn:E; [discriminate|].
      intros _ pre t H. symmetry in H. apply app_eq_nil in H as [_ ->]. exact E.
    + intros H. rewrite (H [] [] eq_refl). reflexivity.
  - split.
    + destruct (match_at f r (x :: s)) eqn:E; [discriminate|].
      intros Hs pre t H. destruct pre as [|y pre]; simpl in H.
      * subst t. exact E.
      * inversion H; subst. eapply IH; eauto.
    + intros H. rewrite (H [] (x :: s) eq_refl). apply IH.
      intros pre t ->. apply (H (x :: pre)). reflexivity.
Qed.

Lemma re_search_Some f r s m :
  re_search f r s = Some m <->
  exists pre t, s = pre ++ t /\ match_at f r t = Some m /\
    forall pre' t', s = pre' ++ t' -> length pre' < length pre ->
                    match_at f r t' = None.
Proof.
  revert m. induction s as [|x s IH]; intros m; simpl.
  - split.
    + destruct (match_at f r []) eqn:E; [|discriminate]. intros [= ->].
      exists [], []. repeat split; [exact E|]. simpl. intros; lia.
    + intros (pre & t & H & Hm & _). symmetry in H.
      apply app_eq_nil in H as [-> ->]. rewrite Hm. reflexivity.
  - split.
    + destruct (match_at f r (x :: s)) eqn:E.
      * intros [= ->]. exists [], (x :: s). repeat split; [exact E|].
        simpl. intros; lia.
      * intros H. apply IH in H as (pre & t & -> & Hm & Hfirst).
        exists (x :: pre), t. repeat split; [exact Hm|].
        intros pre' t' H Hlen. destruct pre' as [|y pre']; simpl in H.
        -- subst t'. exact E.
        -- inversion H; subst. eapply Hfirst; eauto. simpl in Hlen. lia.
    + intros (pre & t & H & Hm & Hfirst). destruct pre as [|y pre]; simpl in H.
      * subst t. rewrite Hm. reflexivity.
      * inversion H; subst.
        rewrite (Hfirst [] (y :: pre ++ t) eq_refl) by (simpl; lia).
        apply IH. exists pre, t. repeat split; [exact Hm|].
        intros pre' t' H' Hlen. apply (Hfirst (y :: pre') t').
        -- simpl. rewrite H'. reflexivity.
        -- simpl. lia.
Qed.

Lemma re_search_is_Some f r s :
  is_Some (re_search f r s) <->
  exists pre t, s = pre ++ t /\ is_Some (match_at f r t).
Proof.
  split.
  - intros [m Hm]. apply re_search_Some in Hm as (pre & t & -> & Hm & _).
    exists pre, t. split; [reflexivity|]. rewrite Hm. eauto.
  - intros (pre & t & -> & [m Hm]).
    destruct (re_search f r (pre ++ t)) eqn:E; [eauto|].
    rewrite re_search_None in E. rewrite (E pre t eq_refl) in Hm. discriminate.
Qed.

Lemma match_at_word f w t :
  match_at f (Word w) t =
  if word_at f w t then
    Some (ReMatch (take (length t - length (drop (length w) t)) t) []
                  (drop (length w) t))
  else None.
Proof.
  unfold match_at. rewrite rmatch_word. destruct (word_at f w t); reflexivity.
Qed.

(** Searching a word without regard to letter case finds it exactly when
    it occurs in some letter case. *)
Lemma re_search_word_ic w s :
  is_Some (re_search IC (Word w) s) <-> occurs_any_case (lower w) s.
Proof.
  rewrite re_search_is_Some. unfold occurs_any_case. split.
  - intros (pre & t & -> & Hm). rewrite match_at_word in Hm.
    destruct (word_at IC w t) eqn:Hw; [|destruct Hm; discriminate].
    apply word_at_ic in Hw as (kw & rest & -> & _ & Hkw). eauto.
  - intros (pre & kw & post & -> & Hkw). exists pre, (kw ++ post).
    split; [reflexivity|]. rewrite match_at_word.
    assert (word_at IC w (kw ++ post) = true) as ->; [|eauto].
    apply word_at_ic. exists kw, post. repeat split; [|exact Hkw].
    rewrite <- (lower_length kw), Hkw. apply lower_length.
Qed.

(** *** Walking through the matches *)

Lemma matches_from_in f r n s m :
  In m (matches_from f r n s) -> exists t, match_at f r t = Some m.
Proof.
  revert n. induction s as [|x s IH]; intros n.
  - destruct n; cbn [matches_from]; [|intros []].
    destruct (match_at f r []) eqn:E; [|intros []].
    intros [<-|[]]. eauto.
  - destruct n; cbn [matches_from]; [|apply IH].
    destruct (match_at f r (x :: s)) eqn:E; [|apply IH].
    intros [<-|H]; [eauto|]. apply IH in H. exact H.
Qed.

Lemma matches_from_skip f r n s :
  n <= length s -> matches_from f r n s = matches_from f r 0 (drop n s).
Proof.
  revert s. induction n as [|n IH]; intros s Hn; [reflexivity|].
  destruct s as [|x s]; [simpl in Hn; lia|].
  simpl. apply IH. simpl in Hn. lia.
Qed.

Lemma matches_from_here f r a rest c :
  a <> [] ->
  rmatch f r accept (a ++ rest) [] = Some (rest, c) ->
  matches_from f r 0 (a ++ rest)
  = ReMatch a c rest :: matches_from f r 0 rest.
Proof.
  intros Ha Hm. destruct a as [|x a]; [congruence|].
  assert (E : match_at f r ((x :: a) ++ rest) = Some (ReMatch (x :: a) c rest)).
  { unfold match_at. rewrite Hm, take_length_diff. reflexivity. }
  simpl app in *. cbn [matches_from]. rewrite E. cbn [m_text]. f_equal.
  rewrite matches_from_skip by (rewrite length_app; simpl; lia).
  simpl. rewrite Nat.sub_0_r, drop_app_length. reflexivity.
Qed.

Lemma matches_from_pass f r x s :
  rmatch f r accept (x :: s) [] = None ->
  matches_from f r 0 (x :: s) = matches_from f r 0 s.
Proof. intros H. cbn [matches_from]. unfold match_at. rewrite H. reflexivity. Qed.

(** A stretch of text in which no match starts is passed over. *)
Lemma matches_from_pass_all f r seg s :
  (forall pre a, seg = pre ++ a -> a <> [] ->
                 rmatch f r accept (a ++ s) [] = None) ->
  matches_from f r 0 (seg ++ s) = matches_from f r 0 s.
Proof.
  induction seg as [|x seg IH]; intros H; [reflexivity|].
  change ((x :: seg) ++ s) with (x :: (seg ++ s)).
  rewrite matches_from_pass.
  - apply IH. intros pre a -> Ha. apply (H (x :: pre)); [reflexivity|exact Ha].
  - apply (H [] (x :: seg)); [reflexivity|discriminate].
Qed.

Lemma matches_from_pass_class f r q seg s :
  leads f q r = true -> Forall (fun x => q x = false) seg ->
  matches_from f r 0 (seg ++ s) = matches_from f r 0 s.
Proof.
  intros Hl Hseg. apply matches_from_pass_all. intros pre a -> Ha.
  apply Forall_app in Hseg as [_ Hseg].
  destruct a as [|x a]; [congruence|]. inversion Hseg; subst.
  simpl. apply (leads_cons f q); assumption.
Qed.

Lemma matches_from_nil f r q :
  leads f q r = true -> matches_from f r 0 [] = [].
Proof.
  intros Hl. cbn [matches_from]. unfold match_at.
  rewrite (leads_nil f q) by assumption. reflexivity.
Qed.

(* ===================================================================== *)
(** ** Patterns of the parsers on texts of a known shape *)
(* ===================================================================== *)

(** *** Keyword, white space, token *)

Lemma match_at_keyword_token f w t :
  match_at f (Seqs [Word w; spaces; Group 1 token]) t =
  if word_at f w t then
    match drop (length w) t with
    | x :: s1 =>
        if is_space x then
          match drop_while is_space s1 with
          | y :: s2 =>
              Some (ReMatch
                      (take (length t - length (drop_while not_space s2)) t)
                      [(1, y :: take_while not_space s2)]
                      (drop_while not_space s2))
          | [] => None
          end
        else None
    | [] => None
    end
  else None.
Proof.
  unfold match_at. cbn [Seqs]. rewrite rmatch_seq, rmatch_word.
  destruct (word_at f w t); [|reflexivity].
  rewrite rmatch_seq. unfold spaces, token, greedy.
  rewrite (rmatch_plus_rejects f Space is_space) by
    (try reflexivity; apply leads_rejects; vm_compute; reflexivity).
  destruct (drop (length w) t) as [|x s1]; [reflexivity|].
  destruct (is_space x); [|reflexivity].
  destruct (drop_while is_space s1) as [|y s2] eqn:E.
  - reflexivity.
  - pose proof (drop_while_head _ _ _ _ E) as Hy.
    rewrite rmatch_group.
    erewrite (rmatch_plus_first f NotSpace not_space); [|reflexivity|].
    2:{ intros x' s' [= <- <-] _. unfold accept. reflexivity. }
    unfold not_space at 1. rewrite Hy. cbn [negb].
    f_equal. f_equal.
    change (y :: s2) with ([y] ++ s2).
    rewrite <- (take_drop_while not_space s2) at 1 3.
    rewrite app_assoc, take_length_diff. reflexivity.
Qed.

(** The three-part pattern [<word>\s+(\S+)] matches at the head of a text
    exactly when the text starts with the word, white space and a token. *)
Lemma keyword_token_complete w kw ws tok rest :
  length kw = length w -> lower kw = lower w ->
  ws <> [] -> all_space ws -> tok <> [] -> no_space tok -> token_ends rest ->
  match_at IC (Seqs [Word w; spaces; Group 1 token]) (kw ++ ws ++ tok ++ rest)
  = Some (ReMatch (kw ++ ws ++ tok) [(1, tok)] rest).
Proof.
  intros Hl Hkw Hws Hsp Htok Hns Hrest.
  rewrite match_at_keyword_token.
  assert (word_at IC w (kw ++ ws ++ tok ++ rest) = true) as ->
    by (apply word_at_ic; eauto).
  rewrite <- Hl, drop_app_length.
  destruct ws as [|x ws]; [congruence|]. inversion Hsp as [|? ? Hx Hsp']; subst.
  simpl. rewrite Hx.
  destruct tok as [|y tok]; [congruence|]. inversion Hns as [|? ? Hy Hns']; subst.
  rewrite drop_while_app by assumption. simpl. rewrite Hy.
  apply no_space_not_space in Hns'. apply token_ends_not_space in Hrest.
  rewrite drop_while_app, take_while_app by assumption.
  rewrite drop_while_ends, take_while_ends by assumption.
  rewrite app_nil_r.
  assert (E : kw ++ x :: ws ++ y :: tok ++ rest
              = (kw ++ x :: ws ++ y :: tok) ++ rest).
  { rewrite <- app_assoc. simpl. do 2 f_equal.
    rewrite <- app_assoc. reflexivity. }
  rewrite E, take_length_diff. reflexivity.
Qed.

Lemma keyword_token_sound w t m :
  match_at IC (Seqs [Word w; spaces; Group 1 token]) t = Some m ->
  exists kw ws tok rest,
    t = kw ++ ws ++ tok ++ rest /\ length kw = length w /\ lower kw = lower w /\
    ws <> [] /\ all_space ws /\ tok <> [] /\ no_space tok /\ token_ends rest /\
    m = ReMatch (kw ++ ws ++ tok) [(1, tok)] rest.
Proof.
  intros Hm.
  assert (exists kw ws tok rest,
    t = kw ++ ws ++ tok ++ rest /\ length kw = length w /\ lower kw = lower w /\
    ws <> [] /\ all_space ws /\ tok <> [] /\ no_space tok /\ token_ends rest)
    as (kw & ws & tok & rest & -> & Hl & Hkw & Hws & Hsp & Htok & Hns & Hrest).
  { rewrite match_at_keyword_token in Hm.
    destruct (word_at IC w t) eqn:Hw; [|discriminate].
    apply word_at_ic in Hw as (kw & rest0 & -> & Hl & Hkw).
    rewrite <- Hl, drop_app_length in Hm.
    destruct rest0 as [|x s1]; [discriminate|].
    destruct (is_space x) eqn:Hx; [|discriminate].
    destruct (drop_while is_space s1) as [|y s2] eqn:E; [discriminate|].
    exists kw, (x :: take_while is_space s1), (y :: take_while not_space s2),
      (drop_while not_space s2).
    repeat split; try assumption; try discriminate.
    - f_equal. simpl. f_equal.
      rewrite <- (take_drop_while is_space s1) at 1. rewrite E.
      f_equal. simpl. rewrite take_drop_while. reflexivity.
    - constructor; [exact Hx|apply take_while_all].
    - constructor; [exact (drop_while_head _ _ _ _ E)|].
      eapply Forall_impl; [apply (take_while_all not_space)|].
      intros z Hz. unfold not_space in Hz. destruct (is_space z); [discriminate|reflexivity].
    - destruct (drop_while not_space s2) as [|z s3] eqn:E3; simpl; [exact I|].
      apply drop_while_head in E3. unfold not_space in E3.
      destruct (is_space z); [reflexivity|discriminate]. }
  exists kw, ws, tok, rest. repeat split; try assumption.
  rewrite (keyword_token_complete w) in Hm by assumption. congruence.
Qed.

(** *** Keyword and token *)

Lemma match_at_word_token f w t :
  match_at f (Seqs [Word w; Group 1 token]) t =
  if word_at f w t then
    match drop (length w) t with
    | y :: s2 =>
        if not_space y then
          Some (ReMatch
                  (take (length t - length (drop_while not_space s2)) t)
                  [(1, y :: take_while not_space s2)]
                  (drop_while not_space s2))
        else None
    | [] => None
    end
  else None.
Proof.
  unfold match_at. cbn [Seqs]. rewrite rmatch_seq, rmatch_word.
  destruct (word_at f w t); [|reflexivity].
  unfold token, greedy. rewrite rmatch_group.
  destruct (drop (length w) t) as [|y s2]; [reflexivity|].
  erewrite (rmatch_plus_first f NotSpace not_space); [|reflexivity|].
  2:{ intros x' s' [= <- <-] _. unfold accept. reflexivity. }
  destruct (not_space y); [|reflexivity].
  f_equal. f_equal.
  change (y :: s2) with ([y] ++ s2).
  rewrite <- (take_drop_while not_space s2) at 1 3.
  rewrite app_assoc, take_length_diff. reflexivity.
Qed.

Lemma word_token_complete w tok rest :
  tok <> [] -> no_space tok -> token_ends rest ->
  match_at no_flags (Seqs [Word w; Group 1 token]) (w ++ tok ++ rest)
  = Some (ReMatch (w ++ tok) [(1, tok)] rest).
Proof.
  intros Htok Hns Hrest. rewrite match_at_word_token.
  assert (word_at no_flags w (w ++ tok ++ rest) = true) as ->
    by (apply word_at_exact; eauto).
  rewrite drop_app_length.
  destruct tok as [|y tok]; [congruence|]. inversion Hns as [|? ? Hy Hns']; subst.
  simpl. unfold not_space at 1. rewrite Hy. simpl.
  apply no_space_not_space in Hns'. apply token_ends_not_space in Hrest.
  rewrite drop_while_app, take_while_app by assumption.
  rewrite drop_while_ends, take_while_ends by assumption.
  rewrite app_nil_r.
  assert (E : w ++ y :: tok ++ rest = (w ++ y :: tok) ++ rest).
  { rewrite <- app_assoc. reflexivity. }
  rewrite E, take_length_diff. reflexivity.
Qed.

Lemma word_token_sound w t m :
  match_at no_flags (Seqs [Word w; Group 1 token]) t = Some m ->
  exists tok rest,
    t = w ++ tok ++ rest /\ tok <> [] /\ no_space tok /\ token_ends rest /\
    m = ReMatch (w ++ tok) [(1, tok)] rest.
Proof.
  intros Hm.
  assert (exists tok rest,
    t = w ++ tok ++ rest /\ tok <> [] /\ no_space tok /\ token_ends rest)
    as (tok & rest & -> & Htok & Hns & Hrest).
  { rewrite match_at_word_token in Hm.
    destruct (word_at no_flags w t) eqn:Hw; [|discriminate].
    apply word_at_exact in Hw as (rest0 & ->).
    rewrite drop_app_length in Hm.
    destruct rest0 as [|y s2]; [discriminate|].
    destruct (not_space y) eqn:Hy; [|discriminate].
    exists (y :: take_while not_space s2), (drop_while not_space s2).
    repeat split; try discriminate.
    - simpl. rewrite take_drop_while. reflexivity.
    - constructor.
      + unfold not_space in Hy. destruct (is_space y); [discriminate|reflexivity].
      + eapply Forall_impl; [apply (take_while_all not_space)|].
        intros z Hz. unfold not_space in Hz. simpl.
        destruct (is_space z); [discriminate|reflexivity].
    - destruct (drop_while not_space s2) as [|z s3] eqn:E3; simpl; [exact I|].
      apply drop_while_head in E3. unfold not_space in E3.
      destruct (is_space z); [reflexivity|discriminate]. }
  exists tok, rest. repeat split; try assumption.
  rewrite word_token_complete in Hm by assumption. congruence.
Qed.

Lemma token_starts_outside_space a s :
  a <> [] -> no_space a -> starts_outside is_space (a ++ s).
Proof.
  intros Ha Hall. destruct a as [|x a]; [congruence|].
  inversion Hall; subst. simpl. assumption.
Qed.

Lemma rmatch_group_token g k a b c res :
  a <> [] -> no_space a -> token_ends b ->
  k b ((g, a) :: c) = Some res ->
  rmatch IC (Group g token) k (a ++ b) c = Some res.
Proof.
  intros Ha Hall Hb Hk. rewrite rmatch_group. unfold token, greedy.
  destruct a as [|x a]; [congruence|]. inversion Hall as [|? ? Hx Hall']; subst.
  erewrite (rmatch_plus_first IC NotSpace not_space); [|reflexivity|].
  - simpl. unfold not_space. rewrite Hx. reflexivity.
  - intros x' s' [= <- <-] _.
    rewrite drop_while_app by (apply no_space_not_space, Hall').
    rewrite drop_while_ends by (apply token_ends_not_space, Hb).
    change (x :: a ++ b) with ((x :: a) ++ b).
    rewrite take_length_diff. exact Hk.
Qed.

(** *** Dotted quads *)

Lemma digits_text_head a :
  digits_text a -> exists x a', a = x :: a' /\ is_digit x = true.
Proof.
  intros [Ha Hall]. destruct a as [|x a']; [congruence|].
  inversion Hall; subst. eauto.
Qed.

Lemma quad_text_head n :
  quad_text n -> exists x n', n = x :: n' /\ is_digit x = true.
Proof.
  intros (a & b & c & d & -> & Ha & _).
  destruct (digits_text_head a Ha) as (x & a' & -> & Hx). simpl. eauto.
Qed.

Lemma quad_starts_outside_space n s :
  quad_text n -> starts_outside is_space (n ++ s).
Proof.
  intros H. destruct (quad_text_head n H) as (x & n' & -> & Hx).
  simpl. apply digit_not_space, Hx.
Qed.

Lemma quad_text_chars n :
  quad_text n ->
  Forall (fun x => is_digit x = true \/ x = "."%char) n.
Proof.
  intros (a & b & c & d & -> & [_ Ha] & [_ Hb] & [_ Hc] & [_ Hd]).
  assert (lift : forall s, Forall (fun x => is_digit x = true) s ->
                           Forall (fun x => is_digit x = true \/ x = "."%char) s).
  { intros s Hs. eapply Forall_impl; [exact Hs|]. intros x Hx. left. exact Hx. }
  apply Forall_app. split; [apply lift, Ha|].
  apply Forall_cons. split; [right; reflexivity|].
  apply Forall_app. split; [apply lift, Hb|].
  apply Forall_cons. split; [right; reflexivity|].
  apply Forall_app. split; [apply lift, Hc|].
  apply Forall_cons. split; [right; reflexivity|].
  apply lift, Hd.
Qed.

Lemma quad_no_space n : quad_text n -> no_space n.
Proof.
  intros H. eapply Forall_impl; [apply quad_text_chars, H|].
  intros x [Hx| ->]; [apply digit_not_space, Hx|reflexivity].
Qed.

Lemma quad_chars_not_i n :
  quad_text n -> Forall (fun x => first_is_i x = false) n.
Proof.
  intros H. eapply Forall_impl; [apply quad_text_chars, H|].
  intros x [Hx| ->]; [|reflexivity].
  apply (digit_is_not IC "i"); [vm_compute; reflexivity|exact Hx].
Qed.

Lemma rmatch_group_quad g k n s c :
  quad_text n -> rejects is_digit k -> starts_outside is_digit s ->
  rmatch IC (Group g dotted_quad) k (n ++ s) c = k s ((g, n) :: c).
Proof.
  intros (a & b & c0 & d & -> & Ha & Hb & Hc & Hd) Hk Hs.
  rewrite rmatch_group. unfold dotted_quad. cbn [Seqs].
  repeat (rewrite <- app_assoc || rewrite <- app_comm_cons).
  rewrite rmatch_seq, rmatch_digits_app; [|apply leads_rejects; vm_compute; reflexivity|assumption|reflexivity].
  rewrite rmatch_seq, rmatch_dot.
  rewrite rmatch_seq, rmatch_digits_app; [|apply leads_rejects; vm_compute; reflexivity|assumption|reflexivity].
  rewrite rmatch_seq, rmatch_dot.
  rewrite rmatch_seq, rmatch_digits_app; [|apply leads_rejects; vm_compute; reflexivity|assumption|reflexivity].
  rewrite rmatch_seq, rmatch_dot.
  rewrite rmatch_digits_app; [| |assumption|assumption].
  - f_equal. f_equal. f_equal.
    replace (a ++ "."%char :: b ++ "."%char :: c0 ++ "."%char :: d ++ s)
      with ((a ++ "."%char :: b ++ "."%char :: c0 ++ "."%char :: d) ++ s).
    + apply take_length_diff.
    + repeat (rewrite <- app_assoc; simpl). reflexivity.
  - intros x s' c' Hx. apply Hk, Hx.
Qed.

(** *** A word before white space *)

(** A word of plain characters followed by white space: the token before
    the white space has to be the word itself. *)
Lemma word_before_space w n rest k c :
  forallb plain w = true -> no_space n ->
  rmatch IC (Word w) (rmatch IC spaces k) (n ++ SP :: rest) c
  = if str_eqb n w then rmatch IC spaces k (SP :: rest) c else None.
Proof.
  intros Hw Hn. rewrite rmatch_word. revert n Hn.
  induction w as [|a w IH]; intros n Hn.
  - cbn [word_at List.length drop]. destruct n as [|x n]; [reflexivity|].
    inversion Hn; subst. cbn [str_eqb app].
    apply (leads_cons IC is_space); [reflexivity|assumption].
  - cbn [forallb] in Hw. apply andb_true_iff in Hw as [Ha Hw].
    destruct n as [|x n].
    + cbn [app word_at str_eqb].
      destruct (lit_matches IC a SP) eqn:E; [|reflexivity].
      apply (plain_spec a _ Ha) in E. subst a. discriminate.
    + inversion Hn; subst. cbn [app word_at str_eqb List.length drop].
      destruct (lit_matches IC a x) eqn:E; cbn [andb].
      * apply (plain_spec a _ Ha) in E. subst x.
        assert (ascii_eqb a a = true) as -> by (apply ascii_eqb_eq; reflexivity).
        cbn [andb]. apply IH; assumption.
      * assert (ascii_eqb x a = false) as ->; [|reflexivity].
        destruct (ascii_eqb x a) eqn:E'; [|reflexivity].
        apply ascii_eqb_eq in E'. subst x. rewrite lit_matches_refl in E.
        discriminate.
Qed.

Lemma word_spaces_before_space w r n rest k c :
  forallb plain w = true -> no_space n ->
  rmatch IC (Seq (Word w) (Seq spaces r)) k (n ++ SP :: rest) c
  = if str_eqb n w then rmatch IC (Seq spaces r) k (SP :: rest) c else None.
Proof.
  intros Hw Hn.
  change (rmatch IC (Seq (Word w) (Seq spaces r)) k (n ++ SP :: rest) c)
    with (rmatch IC (Word w) (rmatch IC spaces (rmatch IC r k))
            (n ++ SP :: rest) c).
  rewrite word_before_space by assumption. reflexivity.
Qed.

(* ===================================================================== *)
(** ** The loops of the parsers *)
(* ===================================================================== *)

Lemma for_texts_inv {D X} (proj : D -> X) items body (d : D) :
  (forall t d, proj (body t d) = proj d) ->
  proj (for_texts items body d) = proj d.
Proof.
  intros H. unfold for_texts. revert d.
  induction items as [|i items IH]; intros d; [reflexivity|].
  simpl. rewrite IH. destruct i; [apply H|reflexivity].
Qed.

Lemma for_tuples_inv {D X} (proj : D -> X) items body (d : D) :
  (forall t d, proj (body t d) = proj d) ->
  proj (for_tuples items body d) = proj d.
Proof.
  intros H. unfold for_tuples. revert d.
  induction items as [|i items IH]; intros d; [reflexivity|].
  simpl. rewrite IH. destruct i; [reflexivity|apply H].
Qed.

Lemma when_found_inv {D X} (proj : D -> X) f r text update (d : D) :
  (forall m d, proj (update m d) = proj d) ->
  proj (when_found f r text update d) = proj d.
Proof. intros H. unfold when_found. destruct re_search; [apply H|reflexivity]. Qed.

Lemma for_texts_ind {D} (P : D -> Prop) items body (d : D) :
  P d ->
  (forall t d, In (FoundText t) items -> P d -> P (body t d)) ->
  P (for_texts items body d).
Proof.
  unfold for_texts. revert d.
  induction items as [|i items IH]; intros d Hd Hstep; [exact Hd|].
  simpl. apply IH.
  - destruct i; [apply Hstep; [left; reflexivity|exact Hd]|exact Hd].
  - intros t d' Hin. apply Hstep. right. exact Hin.
Qed.

(** *** What the loop bodies of the router parser keep *)

Lemma router_block_keeps block d :
  r_hostname (router_block block d) = r_hostname d /\
  routing_protocols (router_block block d) = routing_protocols d /\
  routes (router_block block d) = routes d /\
  bgp_asn (router_block block d) = bgp_asn d /\
  ospf_process_id (router_block block d) = ospf_process_id d.
Proof.
  unfold router_block. destruct re_search; [|auto].
  rewrite !(when_found_inv r_hostname), !(when_found_inv routing_protocols),
    !(when_found_inv routes), !(when_found_inv bgp_asn),
    !(when_found_inv ospf_process_id) by reflexivity.
  auto.
Qed.

Lemma router_block_hostname block d :
  r_hostname (router_block block d) = r_hostname d.
Proof.
  unfold router_block. destruct re_search; [|reflexivity].
  rewrite !(when_found_inv r_hostname) by reflexivity. reflexivity.
Qed.

Lemma ospf_block_step_hostname block d :
  r_hostname (ospf_block_step block d) = r_hostname d.
Proof.
  unfold ospf_block_step. destruct re_search; [|reflexivity].
  rewrite (for_tuples_inv r_hostname); [reflexivity|].
  intros gs d'. destruct gs as [|? [|? [|? [|]]]]; reflexivity.
Qed.

Lemma bgp_block_step_hostname block d :
  r_hostname (bgp_block_step block d) = r_hostname d.
Proof. unfold bgp_block_step. destruct re_search; reflexivity. Qed.

Lemma static_route_step_hostname gs d :
  r_hostname (static_route_step gs d) = r_hostname d.
Proof. destruct gs as [|? [|? [|? [|? [|]]]]]; reflexivity. Qed.

Lemma ospf_block_step_interfaces block d :
  r_interfaces (ospf_block_step block d) = r_interfaces d.
Proof.
  unfold ospf_block_step. destruct re_search; [|reflexivity].
  rewrite (for_tuples_inv r_interfaces); [reflexivity|].
  intros gs d'. destruct gs as [|? [|? [|? [|]]]]; reflexivity.
Qed.

Lemma bgp_block_step_interfaces block d :
  r_interfaces (bgp_block_step block d) = r_interfaces d.
Proof. unfold bgp_block_step. destruct re_search; reflexivity. Qed.

Lemma static_route_step_interfaces gs d :
  r_interfaces (static_route_step gs d) = r_interfaces d.
Proof. destruct gs as [|? [|? [|? [|? [|]]]]]; reflexivity. Qed.

(** *** The hostname after a parse *)

Lemma parse_router_config_hostname text d :
  r_hostname (parse_router_config text d) =
  match re_search IC hostname_re text with
  | Some m => strip (group_text m 1)
  | None => r_hostname d
  end.
Proof.
  unfold parse_router_config.
  rewrite (for_texts_inv r_hostname) by reflexivity.
  rewrite (for_tuples_inv r_hostname) by apply static_route_step_hostname.
  rewrite (for_texts_inv r_hostname) by apply bgp_block_step_hostname.
  rewrite (for_texts_inv r_hostname) by apply ospf_block_step_hostname.
  rewrite (for_texts_inv r_hostname) by apply router_block_hostname.
  rewrite (when_found_inv r_hostname) by reflexivity.
  unfold when_found. destruct re_search; reflexivity.
Qed.

Lemma switch_block_hostname block d :
  s_hostname (switch_block block d) = s_hostname d.
Proof.
  unfold switch_block. destruct re_search; [|reflexivity].
  destruct (re_search _ sw_desc_re block), (re_search _ sw_mode_re block),
    (re_search _ sw_vlan_re block); reflexivity.
Qed.

Lemma parse_switch_config_hostname text d :
  s_hostname (parse_switch_config text d) =
  match re_search no_flags sw_hostname_re text with
  | Some m => group_text m 1
  | None => s_hostname d
  end.
Proof.
  unfold parse_switch_config.
  rewrite (for_texts_inv s_hostname) by apply switch_block_hostname.
  destruct re_search; reflexivity.
Qed.

(* ===================================================================== *)
(** ** The classifier *)
(* ===================================================================== *)

Lemma score_positive inds text :
  (exists i, In i inds /\ contains i text = true) -> 0 < score inds text.
Proof.
  unfold score. intros (i & Hin & Hc).
  induction inds as [|j inds IH]; [destruct Hin|].
  cbn [List.filter]. destruct Hin as [->|Hin].
  - rewrite Hc. simpl. lia.
  - destruct (contains j text); [simpl; lia|]. apply IH, Hin.
Qed.

Lemma score_zero inds text :
  (forall i, In i inds -> contains i text = false) -> score inds text = 0.
Proof.
  unfold score. intros H.
  induction inds as [|j inds IH]; [reflexivity|].
  cbn [List.filter]. rewrite (H j) by (left; reflexivity).
  apply IH. intros i Hi. apply H. right. exact Hi.
Qed.

Lemma detect_by_score text :
  let t := lower text in
  (score router_indicators t < score switch_indicators t ->
   detect_device_type text = switch) /\
  (score switch_indicators t < score router_indicators t ->
   detect_device_type text = router).
Proof.
  unfold detect_device_type. cbv zeta. split; intros H.
  - destruct (Nat.ltb_spec (score switch_indicators (lower text))
                           (score router_indicators (lower text))); [lia|].
    destruct (Nat.ltb_spec (score router_indicators (lower text))
                           (score switch_indicators (lower text))); [|lia].
    reflexivity.
  - destruct (Nat.ltb_spec (score switch_indicators (lower text))
                           (score router_indicators (lower text))); [|lia].
    reflexivity.
Qed.

Lemma none_occur inds text :
  forallb (fun i => negb (contains i (lower text))) inds = true ->
  forall i, In i inds -> ~ occurs_any_case i text.
Proof.
  rewrite forallb_forall. intros H i Hi. specialize (H i Hi).
  rewrite <- occurs_lower, <- contains_spec.
  destruct (contains i (lower text)); [discriminate|congruence].
Qed.

Lemma one_occurs inds text :
  existsb (fun i => contains i (lower text)) inds = true ->
  exists i, In i inds /\ occurs_any_case i text.
Proof.
  rewrite existsb_exists. intros (i & Hi & Hc). exists i. split; [exact Hi|].
  apply occurs_lower, contains_spec, Hc.
Qed.

(** C5.  A text in which a switch indicator occurs, in whatever letter
    case, and no router indicator does is classified [switch]; a text in
    which a router indicator occurs and no switch indicator does is
    classified [router]. *)
Theorem C5_indicators_decide (text : str) :
  ((exists i, In i switch_indicators /\ occurs_any_case i text) ->
   (forall i, In i router_indicators -> ~ occurs_any_case i text) ->
   detect_device_type text = switch) /\
  ((exists i, In i router_indicators /\ occurs_any_case i text) ->
   (forall i, In i switch_indicators -> ~ occurs_any_case i text) ->
   detect_device_type text = router).
Proof.
  split; intros (i & Hin & Hocc) Hnone.
  - apply detect_by_score.
    rewrite (score_zero router_indicators).
    + apply score_positive. exists i. split; [exact Hin|].
      apply contains_spec, occurs_lower, Hocc.
    + intros j Hj. apply contains_false. rewrite occurs_lower. apply Hnone, Hj.
  - apply detect_by_score.
    rewrite (score_zero switch_indicators).
    + apply score_positive. exists i. split; [exact Hin|].
      apply contains_spec, occurs_lower, Hocc.
    + intros j Hj. apply contains_false. rewrite occurs_lower. apply Hnone, Hj.
Qed.

Lemma C5_indicators_witness :
  detect_device_type (lit "Switchport mode access") = switch /\
  detect_device_type (lit "Router OSPF 1") = router.
Proof.
  split.
  - apply (C5_indicators_decide (lit "Switchport mode access")).
    + apply one_occurs. vm_compute. reflexivity.
    + apply none_occur. vm_compute. reflexivity.
  - apply (C5_indicators_decide (lit "Router OSPF 1")).
    + apply one_occurs. vm_compute. reflexivity.
    + apply none_occur. vm_compute. reflexivity.
Defined.

(* ===================================================================== *)
(** ** The hostname both parsers record *)
(* ===================================================================== *)

Lemma router_hostname_at_match text pre tok :
  router_hostname_at text pre tok ->
  exists t m, text = pre ++ t /\ match_at IC hostname_re t = Some m /\
              group_text m 1 = tok.
Proof.
  intros (kw & ws & rest & -> & Hkw & [Hws Hsp] & Htok & Hns & Hrest).
  eexists _, _. split; [reflexivity|]. split.
  - apply (keyword_token_complete (lit "hostname")); try assumption.
    rewrite <- (lower_length kw), Hkw. reflexivity.
  - reflexivity.
Qed.

Lemma match_router_hostname_at pre t m :
  match_at IC hostname_re t = Some m ->
  router_hostname_at (pre ++ t) pre (group_text m 1)
  /\ no_space (group_text m 1).
Proof.
  intros H. apply keyword_token_sound in H
    as (kw & ws & tok & rest & -> & Hl & Hkw & Hws & Hsp & Htok & Hns & Hrest & ->).
  split; [|exact Hns]. exists kw, ws, rest. repeat split; assumption.
Qed.

Lemma switch_hostname_at_match text pre tok :
  switch_hostname_at text pre tok ->
  exists t m, text = pre ++ t /\ match_at no_flags sw_hostname_re t = Some m /\
              group_text m 1 = tok.
Proof.
  intros (kw & ws & rest & -> & -> & -> & Htok & Hns & Hrest).
  eexists _, _. split; [reflexivity|]. split.
  - rewrite (app_assoc (lit "hostname") [SP]).
    apply (word_token_complete (lit "hostname ")); assumption.
  - reflexivity.
Qed.

Lemma match_switch_hostname_at pre t m :
  match_at no_flags sw_hostname_re t = Some m ->
  switch_hostname_at (pre ++ t) pre (group_text m 1).
Proof.
  intros H. apply word_token_sound in H
    as (tok & rest & -> & Htok & Hns & Hrest & ->).
  exists (lit "hostname"), [SP], rest. repeat split; assumption.
Qed.

(** The router parser records the token of the leftmost
    [hostname <token>], the keyword read in any letter case. *)
Lemma router_hostname_first text d tok :
  first_match router_hostname_at text tok ->
  r_hostname (parse_router_config text d) = tok.
Proof.
  intros (pre & Hat & Hfirst).
  destruct (router_hostname_at_match _ _ _ Hat) as (t & m & -> & Hm & Hg).
  rewrite parse_router_config_hostname.
  assert (re_search IC hostname_re (pre ++ t) = Some m) as ->.
  { apply re_search_Some. exists pre, t. repeat split; [exact Hm|].
    intros pre' t' E Hlen.
    destruct (match_at IC hostname_re t') as [m'|] eqn:Hm'; [|reflexivity].
    apply (match_router_hostname_at pre') in Hm' as [Hat' _].
    rewrite <- E in Hat'. apply Hfirst in Hat'. lia. }
  rewrite Hg. apply strip_no_space.
  apply (match_router_hostname_at pre) in Hm as [_ Hns].
  rewrite Hg in Hns. exact Hns.
Qed.

Lemma router_hostname_absent text d :
  (forall pre tok, ~ router_hostname_at text pre tok) ->
  r_hostname (parse_router_config text d) = r_hostname d.
Proof.
  intros Hno. rewrite parse_router_config_hostname.
  assert (re_search IC hostname_re text = None) as ->; [|reflexivity].
  apply re_search_None. intros pre t ->.
  destruct (match_at IC hostname_re t) as [m|] eqn:Hm; [|reflexivity].
  apply (match_router_hostname_at pre) in Hm as [Hat _]. elim (Hno _ _ Hat).
Qed.

(** The switch parser records the token of the leftmost [hostname <token>]
    written in lower case with one space. *)
Lemma switch_hostname_first text d tok :
  first_match switch_hostname_at text tok ->
  s_hostname (parse_switch_config text d) = tok.
Proof.
  intros (pre & Hat & Hfirst).
  destruct (switch_hostname_at_match _ _ _ Hat) as (t & m & -> & Hm & Hg).
  rewrite parse_switch_config_hostname.
  assert (re_search no_flags sw_hostname_re (pre ++ t) = Some m) as ->.
  { apply re_search_Some. exists pre, t. repeat split; [exact Hm|].
    intros pre' t' E Hlen.
    destruct (match_at no_flags sw_hostname_re t') as [m'|] eqn:Hm';
      [|reflexivity].
    apply (match_switch_hostname_at pre') in Hm'.
    rewrite <- E in Hm'. apply Hfirst in Hm'. lia. }
  exact Hg.
Qed.

Lemma switch_hostname_absent text d :
  (forall pre tok, ~ switch_hostname_at text pre tok) ->
  s_hostname (parse_switch_config text d) = s_hostname d.
Proof.
  intros Hno. rewrite parse_switch_config_hostname.
  assert (re_search no_flags sw_hostname_re text = None) as ->; [|reflexivity].
  apply re_search_None. intros pre t ->.
  destruct (match_at no_flags sw_hostname_re t) as [m|] eqn:Hm; [|reflexivity].
  apply (match_switch_hostname_at pre) in Hm. elim (Hno _ _ Hm).
Qed.

(** C6, as the code has it.  The router parser sets the hostname to the
    token after the leftmost [hostname <token>], the keyword in any letter
    case and any white space between; the switch parser to the token after
    the leftmost [hostname <token>] in lower case with exactly one space;
    where the text has no such place the hostname is left as it was, which
    is "Unknown" on a device just created. *)
Theorem C6_hostname_per_parser (text : str) :
  (forall d tok, first_match router_hostname_at text tok ->
                 r_hostname (parse_router_config text d) = tok) /\
  (forall d, (forall pre tok, ~ router_hostname_at text pre tok) ->
             r_hostname (parse_router_config text d) = r_hostname d) /\
  (forall d tok, first_match switch_hostname_at text tok ->
                 s_hostname (parse_switch_config text d) = tok) /\
  (forall d, (forall pre tok, ~ switch_hostname_at text pre tok) ->
             s_hostname (parse_switch_config text d) = s_hostname d) /\
  r_hostname new_Router = lit "Unknown" /\ s_hostname new_Switch = lit "Unknown".
Proof.
  repeat split.
  - intros d tok. apply router_hostname_first.
  - intros d. apply router_hostname_absent.
  - intros d tok. apply switch_hostname_first.
  - intros d. apply switch_hostname_absent.
Qed.

(** The claim as the specification words it fails on the switch parser: an
    upper-case keyword is a case-insensitive match of [hostname <token>],
    yet the switch keeps "Unknown". *)
Lemma C6_switch_is_case_sensitive :
  first_match router_hostname_at (lit "HOSTNAME SW1") (lit "SW1") /\
  s_hostname (parse_switch_config (lit "HOSTNAME SW1") new_Switch)
  = lit "Unknown".
Proof.
  split; [|vm_compute; reflexivity].
  exists []. split.
  - exists (lit "HOSTNAME"), [SP], [].
    repeat split; try discriminate; try reflexivity.
    + repeat constructor.
    + repeat constructor.
  - intros; simpl; lia.
Qed.

Lemma C6_hostname_witness :
  r_hostname (parse_router_config (lit "Hostname  R1") new_Router) = lit "R1"
  /\ s_hostname (parse_switch_config (lit "hostname SW1") new_Switch)
     = lit "SW1".
Proof.
  split.
  - apply (C6_hostname_per_parser (lit "Hostname  R1")).
    exists []. split; [|intros; simpl; lia].
    exists (lit "Hostname"), [SP; SP], [].
    repeat split; try discriminate; try reflexivity; repeat constructor.
  - apply (C6_hostname_per_parser (lit "hostname SW1")).
    exists []. split; [|intros; simpl; lia].
    exists (lit "hostname"), [SP], [].
    repeat split; try discriminate; try reflexivity; repeat constructor.
Defined.

(* ===================================================================== *)
(** ** The shutdown flag of an interface *)
(* ===================================================================== *)

(** *** The switch parser *)

Lemma switch_block_skip block d :
  re_search no_flags sw_intf_name_re block = None -> switch_block block d = d.
Proof. intros H. unfold switch_block. rewrite H. reflexivity. Qed.

Lemma switch_block_entry block d m :
  re_search no_flags sw_intf_name_re block = Some m ->
  sw_shutdown <$> dict_get (group_text m 1) (s_interfaces (switch_block block d))
  = Some (contains (lit "shutdown") block).
Proof.
  intros H. unfold switch_block. rewrite H.
  destruct (re_search _ sw_desc_re block), (re_search _ sw_mode_re block),
    (re_search _ sw_vlan_re block);
    cbn [s_interfaces sw_alter sw_set_interfaces sw_add_vlan];
    rewrite ?dict_get_alter_eq, dict_get_set_eq; reflexivity.
Qed.

Lemma switch_block_other block d m name :
  re_search no_flags sw_intf_name_re block = Some m ->
  group_text m 1 <> name ->
  dict_get name (s_interfaces (switch_block block d))
  = dict_get name (s_interfaces d).
Proof.
  intros H Hne. unfold switch_block. rewrite H.
  destruct (re_search _ sw_desc_re block), (re_search _ sw_mode_re block),
    (re_search _ sw_vlan_re block);
    cbn [s_interfaces sw_alter sw_set_interfaces sw_add_vlan];
    rewrite ?dict_get_alter_ne by exact Hne;
    apply dict_get_set_ne; exact Hne.
Qed.

(** An interface of the device was there before the parse or was read
    from a stanza of the text, and then its flag tells whether [shutdown]
    occurs in that stanza. *)
Lemma switch_shutdown_flag text d name i :
  dict_get name (s_interfaces (parse_switch_config text d)) = Some i ->
  dict_get name (s_interfaces d) = Some i \/
  exists block m,
    In (FoundText block) (re_findall no_flags sw_interface_block_re text) /\
    re_search no_flags sw_intf_name_re block = Some m /\
    group_text m 1 = name /\
    (sw_shutdown i = true <-> occurs (lit "shutdown") block).
Proof.
  unfold parse_switch_config. revert name i.
  apply (for_texts_ind (fun d' => forall name i,
    dict_get name (s_interfaces d') = Some i ->
    dict_get name (s_interfaces d) = Some i \/ _)).
  - intros name i H. left.
    destruct (re_search no_flags sw_hostname_re text); exact H.
  - intros block d' Hin IH name i H.
    destruct (re_search no_flags sw_intf_name_re block) as [m|] eqn:Hm.
    + destruct (decide (group_text m 1 = name)) as [E|E].
      * right. exists block, m. repeat split; try assumption.
        -- intros Hi. apply contains_spec.
           pose proof (switch_block_entry block d' m Hm) as Hs.
           rewrite E, H in Hs.
           change (Some (sw_shutdown i) = Some (contains (lit "shutdown") block))
             in Hs.
           congruence.
        -- intros Ho. apply contains_spec in Ho.
           pose proof (switch_block_entry block d' m Hm) as Hs.
           rewrite E, H in Hs.
           change (Some (sw_shutdown i) = Some (contains (lit "shutdown") block))
             in Hs.
           congruence.
      * rewrite (switch_block_other block d' m name Hm E) in H. apply IH, H.
    + rewrite (switch_block_skip block d' Hm) in H. apply IH, H.
Qed.

(** *** The router parser *)

Lemma router_block_skip block d :
  re_search IC intf_name_re block = None -> router_block block d = d.
Proof. intros H. unfold router_block. rewrite H. reflexivity. Qed.

Lemma when_found_alter_other f r text name g d name' :
  name <> name' ->
  dict_get name'
    (r_interfaces (when_found f r text (fun m => alter name (g m)) d))
  = dict_get name' (r_interfaces d).
Proof.
  intros Hne. unfold when_found. destruct re_search; [|reflexivity].
  cbn [r_interfaces alter set_interfaces]. apply dict_get_alter_ne, Hne.
Qed.

Lemma when_found_alter_shutdown f r text name g d :
  (forall m i, shutdown (g m i) = shutdown i) ->
  shutdown <$> dict_get name
    (r_interfaces (when_found f r text (fun m => alter name (g m)) d))
  = shutdown <$> dict_get name (r_interfaces d).
Proof.
  intros Hg. unfold when_found. destruct re_search as [m|]; [|reflexivity].
  cbn [r_interfaces alter set_interfaces]. rewrite dict_get_alter_eq.
  destruct (dict_get name (r_interfaces d)); simpl; [|reflexivity].
  rewrite Hg. reflexivity.
Qed.

Lemma router_block_entry block d m :
  re_search IC intf_name_re block = Some m ->
  shutdown <$> dict_get (group_text m 1) (r_interfaces (router_block block d))
  = Some (bool_decide (is_Some (re_search IC shutdown_re block))).
Proof.
  intros H. unfold router_block. rewrite H.
  rewrite !when_found_alter_shutdown by reflexivity.
  unfold when_found. destruct (re_search IC shutdown_re block);
    cbn [r_interfaces alter set_interfaces];
    rewrite ?dict_get_alter_eq, dict_get_set_eq; reflexivity.
Qed.

Lemma router_block_other block d m name :
  re_search IC intf_name_re block = Some m ->
  group_text m 1 <> name ->
  dict_get name (r_interfaces (router_block block d))
  = dict_get name (r_interfaces d).
Proof.
  intros H Hne. unfold router_block. rewrite H.
  rewrite !when_found_alter_other by exact Hne.
  unfold when_found. destruct (re_search IC shutdown_re block);
    cbn [r_interfaces alter set_interfaces];
    rewrite ?dict_get_alter_ne by exact Hne;
    apply dict_get_set_ne; exact Hne.
Qed.

Lemma router_shutdown_flag text d name i :
  dict_get name (r_interfaces (parse_router_config text d)) = Some i ->
  dict_get name (r_interfaces d) = Some i \/
  exists block m,
    In (FoundText block) (re_findall DOTALL_IC interface_block_re text) /\
    re_search IC intf_name_re block = Some m /\
    group_text m 1 = name /\
    (shutdown i = true <-> occurs_any_case (lit "shutdown") block).
Proof.
  unfold parse_router_config.
  rewrite (for_texts_inv r_interfaces) by reflexivity.
  rewrite (for_tuples_inv r_interfaces) by apply static_route_step_interfaces.
  rewrite (for_texts_inv r_interfaces) by apply bgp_block_step_interfaces.
  rewrite (for_texts_inv r_interfaces) by apply ospf_block_step_interfaces.
  revert name i.
  apply (for_texts_ind (fun d' => forall name i,
    dict_get name (r_interfaces d') = Some i ->
    dict_get name (r_interfaces d) = Some i \/ _)).
  - intros name i H. left.
    rewrite !(when_found_inv r_interfaces) in H by reflexivity. exact H.
  - intros block d' Hin IH name i H.
    destruct (re_search IC intf_name_re block) as [m|] eqn:Hm.
    + destruct (decide (group_text m 1 = name)) as [E|E].
      * right. exists block, m. repeat split; try assumption.
        -- intros Hi. apply (re_search_word_ic (lit "shutdown")).
           pose proof (router_block_entry block d' m Hm) as Hs.
           rewrite E, H in Hs. cbn [fmap option_fmap option_map] in Hs.
           rewrite Hi in Hs. injection Hs as Hs. symmetry in Hs.
           apply bool_decide_eq_true in Hs. exact Hs.
        -- intros Ho. apply (re_search_word_ic (lit "shutdown")) in Ho.
           pose proof (router_block_entry block d' m Hm) as Hs.
           rewrite E, H in Hs. cbn [fmap option_fmap option_map] in Hs.
           injection Hs as Hs. rewrite Hs. apply bool_decide_eq_true. exact Ho.
      * rewrite (router_block_other block d' m name Hm E) in H. apply IH, H.
    + rewrite (router_block_skip block d' Hm) in H. apply IH, H.
Qed.

(** *** Both parsers *)

(** Every interface a parser records on a device just created was read
    from a block of the text, and its shutdown flag is true exactly when
    [shutdown] occurs in that block (a [no shutdown] line included): for
    the switch parser in lower case as written, for the router parser in
    any letter case. *)
Lemma shutdown_flag_of_block (text name : str) :
  (forall i,
     dict_get name (s_interfaces (parse_switch_config text new_Switch)) = Some i ->
     exists block m,
       In (FoundText block) (re_findall no_flags sw_interface_block_re text) /\
       re_search no_flags sw_intf_name_re block = Some m /\
       group_text m 1 = name /\
       (sw_shutdown i = true <-> occurs (lit "shutdown") block)) /\
  (forall i,
     dict_get name (r_interfaces (parse_router_config text new_Router)) = Some i ->
     exists block m,
       In (FoundText block) (re_findall DOTALL_IC interface_block_re text) /\
       re_search IC intf_name_re block = Some m /\
       group_text m 1 = name /\
       (shutdown i = true <-> occurs_any_case (lit "shutdown") block)).
Proof.
  split; intros i H.
  - apply switch_shutdown_flag in H as [H|H]; [discriminate|exact H].
  - apply router_shutdown_flag in H as [H|H]; [discriminate|exact H].
Qed.

(** The router parser looks for [shutdown] without regard to case: a
    stanza with [SHUTDOWN] in upper case does not contain the substring
    [shutdown], yet the flag is set. *)
Lemma router_flag_ignores_case :
  let text := unlines ["interface Gi0/1"; " SHUTDOWN"; "!"] in
  re_findall DOTALL_IC interface_block_re text
    = [FoundText (lit "interface Gi0/1" ++ NL :: lit " SHUTDOWN" ++ [NL])] /\
  shutdown <$> dict_get (lit "Gi0/1")
                 (r_interfaces (parse_router_config text new_Router))
    = Some true /\
  ~ occurs (lit "shutdown") text.
Proof.
  cbv zeta. split; [vm_compute; reflexivity|].
  split; [vm_compute; reflexivity|].
  apply contains_false. vm_compute. reflexivity.
Qed.

(** C10.  The router parser does not end an interface stanza at its [!]:
    the block it reads runs on to the next [interface] line, to a line
    that starts with [end], or to a [!] at the end of the text.  Here the
    stanza of [Gi0/1] has no [shutdown] in it, in whatever letter case, and
    parsed alone gives the flag false; followed by a [router bgp] stanza
    with a [neighbor ... shutdown] line it gives the flag true, the block
    being the text up to its last [!].  The switch parser reads the stanza
    up to its [!] and gives the flag false on the same text. *)
Theorem C10_router_flag_from_later_stanza :
  let stanza :=
    unlines ["interface Gi0/1"; " ip address 10.0.0.1 255.255.255.0";
             "!"; ""] in
  let later :=
    unlines ["router bgp 1"; " neighbor 2.2.2.2 shutdown"; "!"; ""] in
  let text := stanza ++ later in
  ~ occurs_any_case (lit "shutdown") stanza /\
  shutdown <$> dict_get (lit "Gi0/1")
                 (r_interfaces (parse_router_config stanza new_Router))
    = Some false /\
  shutdown <$> dict_get (lit "Gi0/1")
                 (r_interfaces (parse_router_config text new_Router))
    = Some true /\
  re_findall DOTALL_IC interface_block_re text
    = [FoundText (stanza
                  ++ unlines ["router bgp 1"; " neighbor 2.2.2.2 shutdown";
                              ""])] /\
  sw_shutdown <$> dict_get (lit "Gi0/1")
                    (s_interfaces (parse_switch_config text new_Switch))
    = Some false.
Proof.
  cbv zeta. split; [|repeat split; vm_compute; reflexivity].
  rewrite <- occurs_lower. apply contains_false. vm_compute. reflexivity.
Qed.

(* ===================================================================== *)
(** ** The routing blocks of the router parser *)
(* ===================================================================== *)

(** Group 1 of a match of the block pattern is a run of digits. *)
Lemma protocol_block_group proto t m :
  match_at DOTALL_IC (protocol_block_re proto) t = Some m ->
  Forall (fun x => is_digit x = true) (group_text m 1).
Proof.
  unfold match_at, protocol_block_re. cbn [Seqs].
  destruct (rmatch _ _ _ _ _) as [[rest c]|] eqn:E; [|discriminate].
  intros [= <-]. rewrite rmatch_seq in E.
  apply rmatch_groupless in E as [s1 E]; [|apply word_groupless].
  rewrite rmatch_seq in E.
  apply rmatch_groupless in E as [s2 E]; [|reflexivity].
  rewrite rmatch_seq in E.
  apply rmatch_groupless in E as [s3 E]; [|apply word_groupless].
  rewrite rmatch_seq in E.
  apply rmatch_groupless in E as [s4 E]; [|reflexivity].
  rewrite rmatch_seq, rmatch_group in E. unfold digits, greedy in E.
  apply (rmatch_plus_inv _ Digit is_digit) in E as (n & Hn & Hall & E);
    [|reflexivity].
  rewrite rmatch_seq in E.
  apply rmatch_groupless in E as [s5 E]; [|reflexivity].
  apply rmatch_groupless in E as [s6 E]; [|reflexivity].
  unfold accept in E. inversion E; subst.
  unfold group_text, group, cap_get. simpl.
  rewrite length_drop.
  replace (List.length s4 - (List.length s4 - n)) with n by lia.
  exact Hall.
Qed.

(** No match of [router\s+<proto>\s+(\d+)] in a run of digits. *)
Lemma no_protocol_id_in_digits proto ds :
  Forall (fun x => is_digit x = true) ds ->
  re_search IC (protocol_id_re proto) ds = None.
Proof.
  intros Hd. apply re_search_None. intros pre t ->.
  apply Forall_app in Hd as [_ Hd].
  unfold match_at, protocol_id_re. cbn [Seqs].
  destruct t as [|x t].
  - rewrite (leads_nil IC (lit_matches IC "r")); reflexivity.
  - inversion Hd; subst.
    rewrite (leads_cons IC (lit_matches IC "r")); [reflexivity|reflexivity|].
    apply (class_sub_spec is_digit (fun x => negb (lit_matches IC "r" x))) in H1;
      [|vm_compute; reflexivity].
    destruct (lit_matches IC "r" x); [discriminate|reflexivity].
Qed.

Lemma protocol_blocks_are_digits proto text block :
  In (FoundText block)
     (re_findall DOTALL_IC (protocol_block_re proto) text) ->
  Forall (fun x => is_digit x = true) block.
Proof.
  unfold re_findall, re_finditer. rewrite in_map_iff.
  intros (m & Hf & Hin). apply matches_from_in in Hin as [t Hm].
  unfold found_of in Hf.
  assert (count_groups (protocol_block_re proto) = 1) as Hc.
  { unfold protocol_block_re. cbn [Seqs count_groups].
    rewrite !word_groupless. reflexivity. }
  rewrite Hc in Hf. inversion Hf; subst.
  eapply protocol_block_group, Hm.
Qed.

(** The two loops over the routing blocks leave the device as it is:
    [findall] returns the process numbers, not the blocks, and no
    [router ospf <id>] or [router bgp <asn>] is found in a number. *)
Lemma ospf_loop_is_idle text d :
  for_texts (re_findall DOTALL_IC (protocol_block_re "ospf") text)
    ospf_block_step d = d.
Proof.
  apply (for_texts_ind (fun d' => d' = d)); [reflexivity|].
  intros block d' Hin ->. unfold ospf_block_step.
  rewrite no_protocol_id_in_digits; [reflexivity|].
  eapply protocol_blocks_are_digits, Hin.
Qed.

Lemma bgp_loop_is_idle text d :
  for_texts (re_findall DOTALL_IC (protocol_block_re "bgp") text)
    bgp_block_step d = d.
Proof.
  apply (for_texts_ind (fun d' => d' = d)); [reflexivity|].
  intros block d' Hin ->. unfold bgp_block_step.
  rewrite no_protocol_id_in_digits; [reflexivity|].
  eapply protocol_blocks_are_digits, Hin.
Qed.

(** Whatever the text, the parser records no protocol tag, no OSPF process
    id and no BGP ASN. *)
Lemma routing_blocks_never_recorded text d :
  routing_protocols (parse_router_config text d) = routing_protocols d /\
  ospf_process_id (parse_router_config text d) = ospf_process_id d /\
  bgp_asn (parse_router_config text d) = bgp_asn d.
Proof.
  unfold parse_router_config.
  rewrite bgp_loop_is_idle, ospf_loop_is_idle.
  rewrite !(for_texts_inv routing_protocols), !(for_texts_inv ospf_process_id),
    !(for_texts_inv bgp_asn) by reflexivity.
  rewrite !(for_tuples_inv routing_protocols), !(for_tuples_inv ospf_process_id),
    !(for_tuples_inv bgp_asn)
    by (intros gs d'; destruct gs as [|? [|? [|? [|? [|]]]]]; reflexivity).
  rewrite !(for_texts_inv routing_protocols), !(for_texts_inv ospf_process_id),
    !(for_texts_inv bgp_asn) by apply router_block_keeps.
  rewrite !(when_found_inv routing_protocols), !(when_found_inv ospf_process_id),
    !(when_found_inv bgp_asn) by reflexivity.
  auto.
Qed.

(** C1, at the worked example of the specification.  The hostname and the
    address of Serial0/0 are read as the example says; but [findall] hands
    the loop over the OSPF blocks the text "1", the process number, in
    which [router ospf <id>] is not found: no protocol tag, no process id
    and no OSPF route are recorded. *)
Theorem C1_worked_example_loses_ospf :
  let d := parse_router_config example_text new_Router in
  re_findall DOTALL_IC (protocol_block_re "ospf") example_text
    = [FoundText (lit "1")] /\
  r_hostname d = lit "R1" /\
  (fun i => (ip_address i, subnet_mask i))
    <$> dict_get (lit "Serial0/0") (r_interfaces d)
    = Some (Some (lit "10.1.1.1"), Some (lit "255.255.255.252")) /\
  routing_protocols d = [] /\
  routes d = [] /\
  ospf_process_id d = None.
Proof. cbv zeta. repeat split; vm_compute; reflexivity. Qed.

(* ===================================================================== *)
(** ** Static routes *)
(* ===================================================================== *)

(** *** The routes of a parsed device *)

Lemma static_loop_routes items d :
  routes (for_tuples items static_route_step d)
  = routes d ++ static_routes items.
Proof.
  unfold for_tuples, static_routes. revert d.
  induction items as [|item items IH]; intros d; simpl.
  - rewrite app_nil_r. reflexivity.
  - rewrite IH. destruct item as [t|gs]; [reflexivity|].
    destruct gs as [|n [|m [|hop [|dist [|]]]]]; try reflexivity.
    simpl. rewrite <- app_assoc. reflexivity.
Qed.

Lemma default_loop_routes items d :
  routes (for_texts items default_route_step d)
  = routes d ++ default_routes items.
Proof.
  unfold for_texts, default_routes. revert d.
  induction items as [|item items IH]; intros d; simpl.
  - rewrite app_nil_r. reflexivity.
  - rewrite IH. destruct item as [t|gs]; [|reflexivity].
    simpl. rewrite <- app_assoc. reflexivity.
Qed.

(** The routes of the parsed device: those it had, then one per match of
    the static route pattern, then one per match of the default route
    pattern.  No route of type [ospf] is ever appended. *)
Lemma parse_router_config_routes text d :
  routes (parse_router_config text d)
  = routes d ++ static_routes (re_findall IC static_route_re text)
    ++ default_routes (re_findall IC default_route_re text).
Proof.
  unfold parse_router_config.
  rewrite default_loop_routes, static_loop_routes.
  rewrite bgp_loop_is_idle, ospf_loop_is_idle.
  rewrite (for_texts_inv routes) by apply router_block_keeps.
  rewrite !(when_found_inv routes) by reflexivity.
  rewrite app_assoc. reflexivity.
Qed.

(** *** A line of the text *)

Lemma next_line_outside tail :
  next_line tail -> starts_outside is_digit tail /\ token_ends tail.
Proof. intros [->|[t ->]]; split; reflexivity. Qed.

Lemma line_text_split l tail :
  line_text l ++ tail
  = lit "ip" ++ [SP] ++ lit "route" ++ [SP] ++ rl_network l ++ [SP]
    ++ rl_mask l ++ [SP] ++ rl_hop l ++ distance_text (rl_distance l) ++ tail.
Proof.
  unfold line_text, distance_text.
  change (lit "ip route ") with (lit "ip" ++ [SP] ++ lit "route" ++ [SP]).
  repeat (rewrite <- app_assoc || rewrite <- app_comm_cons). reflexivity.
Qed.

Lemma line_text_parts l tail :
  line_text l ++ tail
  = (lit "ip route " ++ rl_network l ++ SP :: rl_mask l ++ SP :: rl_hop l)
    ++ distance_text (rl_distance l) ++ tail.
Proof.
  unfold line_text, distance_text.
  repeat (rewrite <- app_assoc || rewrite <- app_comm_cons). reflexivity.
Qed.

Lemma line_text_nonempty l : line_text l <> [].
Proof. unfold line_text. discriminate. Qed.

Lemma config_cons l ls :
  config_of_lines (l :: ls) = line_text l ++
    match ls with [] => [] | _ => NL :: config_of_lines ls end.
Proof. destruct ls; simpl; [rewrite app_nil_r|]; reflexivity. Qed.

Lemma config_next_line ls :
  next_line (match ls with [] => [] | _ => NL :: config_of_lines ls end).
Proof.
  destruct ls as [|l ls]; [left; reflexivity|]. right.
  rewrite config_cons. unfold line_text. simpl. eauto.
Qed.

Lemma distance_token_ends dist tail :
  next_line tail -> token_ends (distance_text dist ++ tail).
Proof.
  intros Ht. destruct dist; [reflexivity|]. apply next_line_outside, Ht.
Qed.

Lemma distance_chars dist :
  match dist with Some d => digits_text d | None => True end ->
  Forall (fun x => first_is_i x = false) (distance_text dist).
Proof.
  destruct dist as [d|]; [|constructor]. intros [_ Hd].
  constructor; [reflexivity|].
  eapply Forall_impl; [exact Hd|]. intros x Hx.
  apply (digit_is_not IC "i"); [vm_compute; reflexivity|exact Hx].
Qed.

Lemma after_hop_no_route dist tail :
  match dist with Some d => digits_text d | None => True end ->
  next_line tail ->
  starts_outside (lit_matches IC "r")
    (drop_while is_space (distance_text dist ++ tail)).
Proof.
  intros Hd Ht. destruct dist as [d|].
  - destruct (digits_text_head d Hd) as (x & d' & -> & Hx).
    cbn [distance_text app drop_while].
    change (is_space SP) with true. cbv iota.
    rewrite (digit_not_space x Hx). simpl.
    apply (digit_is_not IC "r"); [vm_compute; reflexivity|exact Hx].
  - destruct Ht as [->|[t ->]]; reflexivity.
Qed.

(** *** The static route pattern *)

Lemma static_leads : leads IC first_is_i static_route_re = true.
Proof. vm_compute. reflexivity. Qed.

(** After the next hop: the admin distance, when there is one. *)
Lemma rmatch_distance dist tail c :
  match dist with Some d => digits_text d | None => True end ->
  next_line tail ->
  rmatch IC (Opt (Seqs [spaces; Group 4 digits])) accept
    (match dist with Some d => SP :: d | None => [] end ++ tail) c
  = Some (tail, match dist with Some d => (4, d) :: c | None => c end).
Proof.
  intros Hd Htail. unfold Opt. cbn [Seqs]. rewrite rmatch_alt, rmatch_seq.
  destruct dist as [d|].
  - change ((SP :: d) ++ tail) with ([SP] ++ d ++ tail).
    rewrite rmatch_spaces_app;
      [|apply leads_rejects; vm_compute; reflexivity|discriminate
       |repeat constructor|].
    2:{ destruct (digits_text_head d Hd) as (x & d' & -> & Hx).
        simpl. apply digit_not_space, Hx. }
    rewrite rmatch_group. unfold digits, greedy.
    destruct (digits_text_head d Hd) as (x & d' & -> & Hx).
    destruct Hd as [_ Hall]. inversion Hall; subst.
    erewrite (rmatch_plus_first IC Digit is_digit); [|reflexivity|].
    2:{ intros x' s' [= <- <-] _.
        rewrite drop_while_app by assumption.
        rewrite drop_while_outside by apply next_line_outside, Htail.
        unfold accept. reflexivity. }
    simpl. rewrite Hx. simpl. do 4 f_equal.
    change (S (List.length (d' ++ tail)))
      with (List.length ((x :: d') ++ tail)).
    apply take_length_diff.
  - simpl app. destruct Htail as [->|[t ->]]; [reflexivity|].
    change (NL :: "i"%char :: t) with ([NL] ++ "i"%char :: t).
    rewrite rmatch_spaces_app;
      [|apply leads_rejects; vm_compute; reflexivity|discriminate
       |repeat constructor|reflexivity].
    rewrite (leads_cons IC is_digit); reflexivity.
Qed.

(** The static route pattern matches a line from its start to its end. *)
Lemma static_route_match l tail :
  well_formed l -> next_line tail ->
  rmatch IC static_route_re accept (line_text l ++ tail) []
  = Some (tail,
          match rl_distance l with
          | Some d => [(4, d)]
          | None => []
          end ++ [(3, rl_hop l); (2, rl_mask l); (1, rl_network l)]).
Proof.
  intros (Hn & Hm & Hh & Hns & Hd) Htail.
  rewrite line_text_split. unfold static_route_re. cbn [Seqs].
  rewrite rmatch_seq, rmatch_word_app by reflexivity.
  rewrite rmatch_seq, rmatch_spaces_app;
    [|apply leads_rejects; vm_compute; reflexivity|discriminate
     |repeat constructor|reflexivity].
  rewrite rmatch_seq, rmatch_word_app by reflexivity.
  rewrite rmatch_seq, rmatch_spaces_app;
    [|apply leads_rejects; vm_compute; reflexivity|discriminate
     |repeat constructor|apply quad_starts_outside_space, Hn].
  rewrite rmatch_seq, rmatch_group_quad;
    [|exact Hn|apply leads_rejects; vm_compute; reflexivity|reflexivity].
  rewrite rmatch_seq, rmatch_spaces_app;
    [|apply leads_rejects; vm_compute; reflexivity|discriminate
     |repeat constructor|apply quad_starts_outside_space, Hm].
  rewrite rmatch_seq, rmatch_group_quad;
    [|exact Hm|apply leads_rejects; vm_compute; reflexivity|reflexivity].
  rewrite rmatch_seq, rmatch_spaces_app;
    [|apply leads_rejects; vm_compute; reflexivity|discriminate
     |repeat constructor|apply token_starts_outside_space; assumption].
  rewrite rmatch_seq.
  apply rmatch_group_token; [exact Hh|exact Hns| |].
  - unfold distance_text. destruct (rl_distance l); [reflexivity|].
    apply next_line_outside, Htail.
  - unfold distance_text. rewrite rmatch_distance by assumption.
    destruct (rl_distance l); reflexivity.
Qed.

Lemma static_matches_of_lines ls :
  Forall well_formed ls ->
  map (found_of static_route_re) (re_finditer IC static_route_re (config_of_lines ls))
  = map (fun l => FoundTuple [rl_network l; rl_mask l; rl_hop l;
                              default [] (rl_distance l)]) ls.
Proof.
  unfold re_finditer. induction 1 as [|l ls Hl Hls IH].
  - cbn [config_of_lines].
    rewrite (matches_from_nil _ _ _ static_leads). reflexivity.
  - rewrite config_cons.
    rewrite (matches_from_here IC static_route_re (line_text l) _ _
               (line_text_nonempty l)
               (static_route_match l _ Hl (config_next_line ls))).
    cbn [map]. f_equal.
    + unfold found_of. change (count_groups static_route_re) with 4.
      cbn [seq map]. unfold group_text, group, cap_get.
      destruct (rl_distance l); reflexivity.
    + destruct ls as [|l' ls'].
      * rewrite (matches_from_nil _ _ _ static_leads). reflexivity.
      * rewrite matches_from_pass by (apply (leads_cons IC first_is_i); reflexivity).
        exact IH.
Qed.

(** *** The default route pattern *)

Lemma default_leads : leads IC first_is_i default_route_re = true.
Proof. vm_compute. reflexivity. Qed.

(** The default route pattern at the start of a line. *)
Lemma default_route_at_line l tail :
  well_formed l -> next_line tail ->
  rmatch IC default_route_re accept (line_text l ++ tail) []
  = if is_default l
    then Some (distance_text (rl_distance l) ++ tail, [(1, rl_hop l)])
    else None.
Proof.
  intros (Hn & Hm & Hh & Hns & Hd) Htail.
  rewrite line_text_split. unfold default_route_re, is_default. cbn [Seqs].
  rewrite rmatch_seq, rmatch_word_app by reflexivity.
  rewrite rmatch_seq, rmatch_spaces_app;
    [|apply leads_rejects; vm_compute; reflexivity|discriminate
     |repeat constructor|reflexivity].
  rewrite rmatch_seq, rmatch_word_app by reflexivity.
  rewrite rmatch_seq, rmatch_spaces_app;
    [|apply leads_rejects; vm_compute; reflexivity|discriminate
     |repeat constructor|apply quad_starts_outside_space, Hn].
  change ([SP] ++ rl_mask l ++ ?x) with (SP :: rl_mask l ++ x).
  rewrite word_spaces_before_space; [|reflexivity|apply quad_no_space, Hn].
  destruct (str_eqb (rl_network l) (lit "0.0.0.0")); [|reflexivity].
  change (SP :: rl_mask l ++ ?x) with ([SP] ++ rl_mask l ++ x).
  rewrite rmatch_seq, rmatch_spaces_app;
    [|apply leads_rejects; vm_compute; reflexivity|discriminate
     |repeat constructor|apply quad_starts_outside_space, Hm].
  change ([SP] ++ rl_hop l ++ ?x) with (SP :: rl_hop l ++ x).
  rewrite word_spaces_before_space; [|reflexivity|apply quad_no_space, Hm].
  destruct (str_eqb (rl_mask l) (lit "0.0.0.0")); [|reflexivity].
  change (SP :: rl_hop l ++ ?x) with ([SP] ++ rl_hop l ++ x).
  rewrite rmatch_seq, rmatch_spaces_app;
    [|apply leads_rejects; vm_compute; reflexivity|discriminate
     |repeat constructor|apply token_starts_outside_space; assumption].
  apply rmatch_group_token; [exact Hh|exact Hns| |reflexivity].
  apply distance_token_ends, Htail.
Qed.

(** No match of the default route pattern starts inside a token that is
    not followed, after white space, by [route]. *)
Lemma default_not_in_token a b :
  a <> [] -> no_space a -> token_ends b ->
  starts_outside (lit_matches IC "r") (drop_while is_space b) ->
  rmatch IC default_route_re accept (a ++ b) [] = None.
Proof.
  intros Ha Hns Hb Hr. unfold default_route_re. cbn [Seqs].
  rewrite rmatch_seq, rmatch_word.
  destruct a as [|x [|y [|z a]]]; [congruence| | |].
  - cbn [app lit list_ascii_of_string word_at].
    destruct b as [|y b]; [rewrite andb_false_r; reflexivity|].
    simpl in Hb. rewrite (space_is_not IC "p" y) by (try exact Hb; reflexivity).
    rewrite andb_false_r. reflexivity.
  - destruct (word_at IC (lit "ip") ([x; y] ++ b)); [|reflexivity].
    change (drop (List.length (lit "ip")) ([x; y] ++ b)) with b.
    rewrite rmatch_seq. unfold spaces, greedy.
    rewrite (rmatch_plus_rejects IC Space is_space);
      [|reflexivity|apply leads_rejects; vm_compute; reflexivity].
    destruct b as [|z b]; [reflexivity|]. simpl in Hb. rewrite Hb.
    cbn [drop_while] in Hr. rewrite Hb in Hr.
    rewrite rmatch_seq, rmatch_word.
    destruct (drop_while is_space b) as [|r0 rest]; [reflexivity|].
    simpl in Hr. cbn [lit list_ascii_of_string word_at]. rewrite Hr.
    reflexivity.
  - destruct (word_at IC (lit "ip") ((x :: y :: z :: a) ++ b)); [|reflexivity].
    change (drop (List.length (lit "ip")) ((x :: y :: z :: a) ++ b))
      with (z :: a ++ b).
    apply (leads_cons IC is_space); [reflexivity|].
    inversion Hns as [|? ? _ H1]; subst. inversion H1 as [|? ? _ H2]; subst.
    inversion H2; subst. assumption.
Qed.

(** The matches of the default route pattern in one line of the text. *)
Lemma default_scan_line l tail :
  well_formed l -> next_line tail ->
  matches_from IC default_route_re 0 (line_text l ++ tail)
  = (if is_default l then [default_match_of l tail] else [])
    ++ matches_from IC default_route_re 0 tail.
Proof.
  intros Hl Htail. pose proof (default_route_at_line l tail Hl Htail) as H0.
  destruct Hl as (Hn & Hm & Hh & Hns & Hd).
  destruct (is_default l).
  - rewrite line_text_parts in *.
    assert (Hne : lit "ip route " ++ rl_network l ++ SP :: rl_mask l
                    ++ SP :: rl_hop l <> []) by discriminate.
    rewrite (matches_from_here IC default_route_re _ _ _ Hne H0).
    cbn [app]. unfold default_match_of. f_equal.
    apply (matches_from_pass_class IC _ first_is_i); [apply default_leads|].
    apply distance_chars, Hd.
  - cbn [app]. rewrite line_text_split in *.
    change (lit "ip" ++ [SP] ++ lit "route" ++ [SP] ++ ?x)
      with ("i"%char :: lit "p route " ++ x) in *.
    rewrite (matches_from_pass _ _ _ _ H0).
    rewrite (matches_from_pass_class IC _ first_is_i);
      [|apply default_leads|repeat constructor].
    rewrite (matches_from_pass_class IC _ first_is_i);
      [|apply default_leads|apply quad_chars_not_i, Hn].
    rewrite (matches_from_pass_class IC _ first_is_i);
      [|apply default_leads|repeat constructor].
    rewrite (matches_from_pass_class IC _ first_is_i);
      [|apply default_leads|apply quad_chars_not_i, Hm].
    rewrite (matches_from_pass_class IC _ first_is_i);
      [|apply default_leads|repeat constructor].
    rewrite matches_from_pass_all.
    + apply (matches_from_pass_class IC _ first_is_i); [apply default_leads|].
      apply distance_chars, Hd.
    + intros pre a E Ha. apply default_not_in_token; [exact Ha| | |].
      * rewrite E in Hns. apply Forall_app in Hns as [_ Hns]. exact Hns.
      * apply distance_token_ends, Htail.
      * apply after_hop_no_route; assumption.
Qed.

Lemma default_matches_of_lines ls :
  Forall well_formed ls ->
  map (found_of default_route_re)
      (re_finditer IC default_route_re (config_of_lines ls))
  = map (fun l => FoundText (rl_hop l)) (List.filter is_default ls).
Proof.
  unfold re_finditer. induction 1 as [|l ls Hl Hls IH].
  - cbn [config_of_lines].
    rewrite (matches_from_nil _ _ _ default_leads). reflexivity.
  - rewrite config_cons.
    rewrite (default_scan_line l _ Hl (config_next_line ls)).
    rewrite map_app. cbn [List.filter].
    assert (Hrest :
      map (found_of default_route_re)
        (matches_from IC default_route_re 0
           (match ls with [] => [] | _ => NL :: config_of_lines ls end))
      = map (fun l => FoundText (rl_hop l)) (List.filter is_default ls)).
    { destruct ls as [|l' ls'].
      - rewrite (matches_from_nil _ _ _ default_leads). reflexivity.
      - rewrite matches_from_pass
          by (apply (leads_cons IC first_is_i); reflexivity).
        exact IH. }
    rewrite Hrest. destruct (is_default l); reflexivity.
Qed.

(** *** The routes of a text of lines *)

Lemma static_routes_of_lines ls :
  Forall well_formed ls ->
  static_routes
    (map (fun l => FoundTuple [rl_network l; rl_mask l; rl_hop l;
                               default [] (rl_distance l)]) ls)
  = map static_route_of ls.
Proof.
  unfold static_routes. induction 1 as [|l ls Hl Hls IH]; [reflexivity|].
  cbn [map flat_map app]. rewrite IH. f_equal.
  unfold static_route_of. f_equal.
  destruct Hl as (_ & _ & _ & _ & Hd).
  destruct (rl_distance l) as [d|]; [|reflexivity].
  destruct Hd as [Hd _]. destruct d; [congruence|reflexivity].
Qed.

Lemma default_routes_of_lines (ls : list route_line) :
  default_routes (map (fun l => FoundText (rl_hop l)) ls)
  = map default_route_of ls.
Proof.
  unfold default_routes. induction ls as [|l ls IH]; [reflexivity|].
  cbn [map flat_map app]. rewrite IH. reflexivity.
Qed.

(** For a text of [ip route] lines, one per line, the routes of a device
    just created are: one Route of type [static] for every line, in the
    order of the lines, a default line ([0.0.0.0 0.0.0.0]) included; and
    after them one Route of type [static_default] for every default line.
    A default line so contributes two Routes, any other line one. *)
Lemma routes_of_route_lines (ls : list route_line) :
  Forall well_formed ls ->
  routes (parse_router_config (config_of_lines ls) new_Router)
  = map static_route_of ls
    ++ map default_route_of (List.filter is_default ls).
Proof.
  intros Hls. rewrite parse_router_config_routes. unfold re_findall.
  rewrite (static_matches_of_lines ls Hls), (default_matches_of_lines ls Hls).
  rewrite (static_routes_of_lines ls Hls), default_routes_of_lines.
  reflexivity.
Qed.

(** C2.  The default route line of the specification's example yields two
    Routes, not the one Route of type [static_default]: the pass over all
    [ip route] lines records it with the type [static], and the pass over
    the default routes records it once more. *)
Theorem C2_default_line_yields_two_routes :
  routes (parse_router_config (lit "ip route 0.0.0.0 0.0.0.0 10.1.1.2")
            new_Router)
  = [MkRoute (lit "0.0.0.0") (lit "0.0.0.0") static (Some (lit "10.1.1.2"))
             None None;
     MkRoute (lit "0.0.0.0") (lit "0.0.0.0") static_default
             (Some (lit "10.1.1.2")) None None].
Proof. vm_compute. reflexivity. Qed.

Lemma digits_text_lit (s : string) :
  forallb is_digit (lit s) = true -> lit s <> [] -> digits_text (lit s).
Proof.
  intros H Hne. split; [exact Hne|]. apply Forall_forall. intros x Hx.
  rewrite forallb_forall in H. apply H. apply list_elem_of_In, Hx.
Qed.

Lemma quad_text_lit (a b c d : string) :
  forallb is_digit (lit a ++ lit b ++ lit c ++ lit d) = true ->
  lit a <> [] -> lit b <> [] -> lit c <> [] -> lit d <> [] ->
  quad_text (lit a ++ "."%char :: lit b ++ "."%char :: lit c
               ++ "."%char :: lit d).
Proof.
  intros H Ha Hb Hc Hd. rewrite !forallb_app, !andb_true_iff in H.
  destruct H as (H1 & H2 & H3 & H4).
  exists (lit a), (lit b), (lit c), (lit d).
  repeat split; try assumption;
    apply Forall_forall; intros x Hx;
    match goal with
    | H : forallb is_digit ?l = true, Hx : x ∈ ?l |- _ =>
        rewrite forallb_forall in H; apply H, list_elem_of_In, Hx
    end.
Qed.

Lemma routes_of_route_lines_example :
  routes (parse_router_config
            (unlines ["ip route 0.0.0.0 0.0.0.0 10.1.1.2";
                      "ip route 10.2.0.0 255.255.0.0 Serial0/0 5"])
            new_Router)
  = [MkRoute (lit "0.0.0.0") (lit "0.0.0.0") static (Some (lit "10.1.1.2"))
             None None;
     MkRoute (lit "10.2.0.0") (lit "255.255.0.0") static
             (Some (lit "Serial0/0")) None (Some (lit "5"));
     MkRoute (lit "0.0.0.0") (lit "0.0.0.0") static_default
             (Some (lit "10.1.1.2")) None None].
Proof.
  apply (routes_of_route_lines
           [RouteLine (lit "0.0.0.0") (lit "0.0.0.0") (lit "10.1.1.2") None;
            RouteLine (lit "10.2.0.0") (lit "255.255.0.0") (lit "Serial0/0")
                      (Some (lit "5"))]).
  repeat constructor; try discriminate.
  - apply (quad_text_lit "0" "0" "0" "0"); try discriminate. reflexivity.
  - apply (quad_text_lit "0" "0" "0" "0"); try discriminate. reflexivity.
  - apply (quad_text_lit "10" "2" "0" "0"); try discriminate. reflexivity.
  - apply (quad_text_lit "255" "255" "0" "0"); try discriminate. reflexivity.
Qed.

(* ===================================================================== *)
(** ** Extraction into fresh devices *)
(* ===================================================================== *)

Lemma extract_router_run text h :
  extract_router text h
  = (List.length h, h ++ [RouterDev (parse_router_config text new_Router)]).
Proof.
  unfold extract_router, alloc, parse_router_config_at.
  rewrite list_lookup_middle by reflexivity.
  rewrite insert_app_r_alt by lia. rewrite Nat.sub_diag. reflexivity.
Qed.

Lemma extract_switch_run text h :
  extract_switch text h
  = (List.length h, h ++ [SwitchDev (parse_switch_config text new_Switch)]).
Proof.
  unfold extract_switch, alloc, parse_switch_config_at.
  rewrite list_lookup_middle by reflexivity.
  rewrite insert_app_r_alt by lia. rewrite Nat.sub_diag. reflexivity.
Qed.

(** C7.  Two extractions of one text, each into a device of its own, one
    after the other in the same store: the two devices are different
    objects, they hold the same record (every field equal), the record
    depends on the text alone, and the second run leaves the first device
    and all older objects as they were.  The same for the switch parser. *)
Theorem C7_extraction_repeatable (text : str) (h : store) :
  (let '(r1, h1) := extract_router text h in
   let '(r2, h2) := extract_router text h1 in
   r1 <> r2 /\
   h2 !! r1 = Some (RouterDev (parse_router_config text new_Router)) /\
   h2 !! r2 = h2 !! r1 /\
   (forall r, r < List.length h1 -> h2 !! r = h1 !! r)) /\
  (let '(r1, h1) := extract_switch text h in
   let '(r2, h2) := extract_switch text h1 in
   r1 <> r2 /\
   h2 !! r1 = Some (SwitchDev (parse_switch_config text new_Switch)) /\
   h2 !! r2 = h2 !! r1 /\
   (forall r, r < List.length h1 -> h2 !! r = h1 !! r)).
Proof.
  split.
  - rewrite !extract_router_run. rewrite length_app. simpl.
    assert (E1 : forall x y : Device, ((h ++ [x]) ++ [y]) !! List.length h = Some x).
    { intros x y. rewrite lookup_app_l by (rewrite length_app; simpl; lia).
      apply list_lookup_middle. reflexivity. }
    assert (E2 : forall x y : Device,
               ((h ++ [x]) ++ [y]) !! (List.length h + 1) = Some y).
    { intros x y. apply list_lookup_middle. rewrite length_app. reflexivity. }
    repeat split.
    + lia.
    + apply E1.
    + rewrite E1, E2. reflexivity.
    + intros r Hr. apply lookup_app_l. rewrite length_app. exact Hr.
  - rewrite !extract_switch_run. rewrite length_app. simpl.
    assert (E1 : forall x y : Device, ((h ++ [x]) ++ [y]) !! List.length h = Some x).
    { intros x y. rewrite lookup_app_l by (rewrite length_app; simpl; lia).
      apply list_lookup_middle. reflexivity. }
    assert (E2 : forall x y : Device,
               ((h ++ [x]) ++ [y]) !! (List.length h + 1) = Some y).
    { intros x y. apply list_lookup_middle. rewrite length_app. reflexivity. }
    repeat split.
    + lia.
    + apply E1.
    + rewrite E1, E2. reflexivity.
    + intros r Hr. apply lookup_app_l. rewrite length_app. exact Hr.
Qed.

(** The device has to be a fresh one: a second run on the device of the
    first run appends the routes once more. *)
Lemma second_run_on_same_device_differs :
  let text := lit "ip route 10.2.0.0 255.255.0.0 10.1.1.2" in
  List.length (routes (parse_router_config text new_Router)) = 1 /\
  List.length (routes (parse_router_config text
                         (parse_router_config text new_Router))) = 2.
Proof. cbv zeta. split; vm_compute; reflexivity. Qed.

Lemma C7_extraction_repeatable_witness :
  let '(r1, h1) := extract_router example_text [] in
  let '(r2, h2) := extract_router example_text h1 in
  r1 <> r2 /\ h2 !! r2 = h2 !! r1.
Proof.
  destruct (proj1 (C7_extraction_repeatable example_text [])) as (H1 & _ & H2 & _).
  split; assumption.
Defined.

(* ===================================================================== *)
(** ** The topology builder *)
(* ===================================================================== *)

(** *** The store of devices is only read *)

Lemma link_first_match_devices host1 host2 intf1 network1 intfs2 st :
  devices (link_first_match host1 host2 intf1 network1 intfs2 st) = devices st.
Proof.
  induction intfs2 as [|[intf2 props2] rest IH]; [reflexivity|].
  simpl. destruct (truthy (get_ip_address props2)); [|exact IH].
  destruct (IPv4Address _); [|exact IH].
  destruct (net_contains network1 _); [reflexivity|exact IH].
Qed.

Lemma subnet_links_of_interface_devices device_list i device1 intf1 props1 st :
  devices (subnet_links_of_interface device_list i device1 intf1 props1 st)
  = devices st.
Proof.
  unfold subnet_links_of_interface.
  destruct (truthy _ && truthy _); [|reflexivity].
  destruct (IPv4Network _); [|reflexivity].
  apply fold_left_inv. intros s [j device2].
  destruct (negb (i =? j)); [apply link_first_match_devices|reflexivity].
Qed.

Lemma subnet_pass_devices device_list st :
  devices (subnet_pass device_list st) = devices st.
Proof.
  unfold subnet_pass. apply fold_left_inv. intros s [i device1].
  apply fold_left_inv. intros s' [intf1 props1].
  apply subnet_links_of_interface_devices.
Qed.

Lemma link_first_named_devices device desc others st :
  devices (link_first_named device desc others st) = devices st.
Proof.
  induction others as [|o rest IH]; [reflexivity|].
  simpl. destruct (_ && _ && _); [reflexivity|exact IH].
Qed.

Lemma description_pass_devices device_list st :
  devices (description_pass device_list st) = devices st.
Proof.
  unfold description_pass. apply fold_left_inv. intros s device.
  apply fold_left_inv. intros s' [intf_name props].
  destruct (truthy _); [apply link_first_named_devices|reflexivity].
Qed.

Lemma add_nodes_devices device_list st :
  devices (add_nodes device_list st) = devices st.
Proof. unfold add_nodes. apply fold_left_inv. reflexivity. Qed.

(** C9.  [build_topology] leaves every device object of the store as it
    found it: the store after the call is the store before it. *)
Theorem C9_devices_untouched (device_list : list ref) (h : store) :
  devices (build_topology device_list h) = h.
Proof.
  unfold build_topology.
  rewrite description_pass_devices, subnet_pass_devices, add_nodes_devices.
  reflexivity.
Qed.

(** *** Fewer than two devices *)

Lemma subnet_pass_single r st : subnet_pass [r] st = st.
Proof.
  unfold subnet_pass, enumerate. simpl.
  apply fold_left_id. intros [intf1 props1] _.
  unfold subnet_links_of_interface.
  destruct (truthy _ && truthy _); [|reflexivity].
  destruct (IPv4Network _); reflexivity.
Qed.

Lemma description_pass_single r st : description_pass [r] st = st.
Proof.
  unfold description_pass. simpl.
  apply fold_left_id. intros [intf_name props] _.
  destruct (truthy _); [|reflexivity].
  simpl. rewrite str_eqb_refl, andb_false_r. reflexivity.
Qed.

(** C8.  For a list of fewer than two devices [build_topology] returns a
    graph without edges; the one device, if there is one, is its only
    node.  (The model is a total function: nothing is raised.) *)
Theorem C8_fewer_than_two_devices (device_list : list ref) (h : store) :
  List.length device_list < 2 ->
  edges (G (build_topology device_list h)) = [] /\
  nodes (G (build_topology device_list h))
  = map (fun r => (hostname (deref h r),
                   MkNodeAttr (Some (type_name (deref h r))) (Some r)))
        device_list.
Proof.
  intros Hlen. destruct device_list as [|r [|r' rest]]; [| |simpl in Hlen; lia].
  - split; reflexivity.
  - unfold build_topology.
    rewrite description_pass_single, subnet_pass_single.
    split; reflexivity.
Qed.

Lemma C8_fewer_than_two_devices_witness :
  edges (infer [RouterDev new_Router]) = [] /\
  nodes (infer [RouterDev new_Router])
  = [(lit "Unknown", MkNodeAttr (Some (lit "Router")) (Some 0))] /\
  edges (infer []) = [] /\ nodes (infer []) = [].
Proof.
  split; [|split; [|split]].
  - apply (C8_fewer_than_two_devices [0] [RouterDev new_Router]). simpl. lia.
  - apply (C8_fewer_than_two_devices [0] [RouterDev new_Router]). simpl. lia.
  - apply (C8_fewer_than_two_devices [] []). simpl. lia.
  - apply (C8_fewer_than_two_devices [] []). simpl. lia.
Defined.

(** *** Which edges the two passes add *)

Lemma in_combine_seq {A} (l : list A) n i x :
  In (i, x) (combine (seq n (List.length l)) l) ->
  n <= i /\ l !! (i - n) = Some x.
Proof.
  revert n. induction l as [|y l IH]; intros n; simpl; [tauto|].
  intros [[= <- <-]|H].
  - rewrite Nat.sub_diag. auto.
  - apply IH in H as [Hle Hl]. split; [lia|].
    replace (i - n) with (S (i - S n)) by lia. exact Hl.
Qed.

Lemma in_enumerate {A} (l : list A) i x :
  In (i, x) (enumerate l) -> l !! i = Some x.
Proof.
  intros H. apply in_combine_seq in H as [_ H].
  rewrite Nat.sub_0_r in H. exact H.
Qed.

Lemma enumerate_in {A} (l : list A) i x :
  l !! i = Some x -> In (i, x) (enumerate l).
Proof.
  unfold enumerate. intros H.
  assert (Hg : forall n, In (n + i, x) (combine (seq n (List.length l)) l)).
  { revert i H. induction l as [|y l IH]; intros i H n; [discriminate|].
    destruct i as [|i]; simpl in *.
    - inversion H; subst. left. rewrite Nat.add_0_r. reflexivity.
    - right. replace (n + S i) with (S n + i) by lia. apply IH, H. }
  apply (Hg 0).
Qed.

Lemma link_first_match_ind (P : Graph -> Prop) host1 host2 intf1 network1
    intfs2 st :
  P (G st) ->
  (forall attr g, full_metadata attr -> P g -> P (add_edge host1 host2 attr g)) ->
  P (G (link_first_match host1 host2 intf1 network1 intfs2 st)).
Proof.
  intros Hst Hadd. induction intfs2 as [|[intf2 props2] rest IH]; [exact Hst|].
  simpl. destruct (truthy (get_ip_address props2)); [|exact IH].
  destruct (IPv4Address _); [|exact IH].
  destruct (net_contains network1 _); [|exact IH].
  apply Hadd; [|exact Hst]. repeat split; eexists; reflexivity.
Qed.

(** Every edge of the subnet pass joins two devices at different places of
    the list and comes with the three attributes. *)
Lemma subnet_pass_ind (P : Graph -> Prop) h device_list st :
  devices st = h -> P (G st) ->
  (forall i j r1 r2 attr g,
     device_list !! i = Some r1 -> device_list !! j = Some r2 -> i <> j ->
     full_metadata attr -> P g ->
     P (add_edge (hostname (deref h r1)) (hostname (deref h r2)) attr g)) ->
  P (G (subnet_pass device_list st)).
Proof.
  intros Hh Hst Hadd.
  cut (devices (subnet_pass device_list st) = h
       /\ P (G (subnet_pass device_list st))); [tauto|].
  unfold subnet_pass.
  apply (fold_left_ind (fun s => devices s = h /\ P (G s)));
    [split; assumption|].
  intros s [i device1] Hi [Hs HP]. apply in_enumerate in Hi.
  apply (fold_left_ind (fun s => devices s = h /\ P (G s)));
    [split; assumption|].
  intros s1 [intf1 props1] _ [Hs1 HP1].
  unfold subnet_links_of_interface.
  destruct (truthy _ && truthy _); [|split; assumption].
  destruct (IPv4Network _) as [network1|]; [|split; assumption].
  apply (fold_left_ind (fun s => devices s = h /\ P (G s)));
    [split; assumption|].
  intros s2 [j device2] Hj [Hs2 HP2]. apply in_enumerate in Hj.
  destruct (Nat.eqb_spec i j) as [E|E]; simpl; [split; assumption|].
  split; [rewrite link_first_match_devices; exact Hs2|].
  apply link_first_match_ind; [exact HP2|].
  intros attr g Hattr Hg. rewrite Hs2. eapply Hadd; eassumption.
Qed.

Lemma link_first_named_ind (P : Graph -> Prop) h device desc others st :
  devices st = h -> P (G st) ->
  (forall r2 g,
     In r2 others ->
     hostname (deref h device) <> hostname (deref h r2) ->
     has_edge (hostname (deref h device)) (hostname (deref h r2)) g = false ->
     P g ->
     P (add_edge (hostname (deref h device)) (hostname (deref h r2)) no_attr g)) ->
  P (G (link_first_named device desc others st)).
Proof.
  intros Hh Hst Hadd. induction others as [|o rest IH]; [exact Hst|].
  simpl. rewrite Hh.
  assert (IH' : P (G (link_first_named device desc rest st))).
  { apply IH. intros r2 g Hin. apply Hadd. right. exact Hin. }
  destruct (contains _ desc); simpl; [|exact IH'].
  destruct (str_eqb _ _) eqn:Eq; simpl; [exact IH'|].
  destruct (has_edge _ _ (G st)) eqn:Eh; simpl; [exact IH'|].
  apply Hadd; [left; reflexivity| |exact Eh|exact Hst].
  apply str_eqb_neq in Eq. congruence.
Qed.

(** Every edge of the description pass joins two devices of the list with
    different hostnames that no edge joined before, and comes without
    attributes. *)
Lemma description_pass_ind (P : Graph -> Prop) h device_list st :
  devices st = h -> P (G st) ->
  (forall r1 r2 g,
     In r1 device_list -> In r2 device_list ->
     hostname (deref h r1) <> hostname (deref h r2) ->
     has_edge (hostname (deref h r1)) (hostname (deref h r2)) g = false ->
     P g ->
     P (add_edge (hostname (deref h r1)) (hostname (deref h r2)) no_attr g)) ->
  P (G (description_pass device_list st)).
Proof.
  intros Hh Hst Hadd.
  cut (devices (description_pass device_list st) = h
       /\ P (G (description_pass device_list st))); [tauto|].
  unfold description_pass.
  apply (fold_left_ind (fun s => devices s = h /\ P (G s)));
    [split; assumption|].
  intros s device Hdev [Hs HP].
  apply (fold_left_ind (fun s => devices s = h /\ P (G s)));
    [split; assumption|].
  intros s1 [intf_name props] _ [Hs1 HP1].
  destruct (truthy _); [|split; assumption].
  split; [rewrite link_first_named_devices; exact Hs1|].
  apply (link_first_named_ind P h); [exact Hs1|exact HP1|].
  intros r2 g Hin. apply Hadd; assumption.
Qed.

(** *** Edges of the graph *)

Lemma same_edge_spec u v a b :
  same_edge u v a b = true <-> same_pair (a, b) (u, v).
Proof.
  unfold same_edge, same_pair. simpl.
  rewrite orb_true_iff, !andb_true_iff, !str_eqb_eq. reflexivity.
Qed.

Lemma same_edge_sym u v a b : same_edge u v a b = same_edge v u a b.
Proof. unfold same_edge. apply orb_comm. Qed.

Lemma same_pair_sym k k' : same_pair k k' -> same_pair k' k.
Proof. unfold same_pair. intuition congruence. Qed.

Lemma has_edge_spec u v g :
  has_edge u v g = true <->
  exists k, In k (edge_keys g) /\ same_pair k (u, v).
Proof.
  unfold has_edge, edge_keys. rewrite existsb_exists. split.
  - intros ([[a b] m] & Hin & H). exists (a, b). split.
    + apply in_map_iff. exists (a, b, m). auto.
    + apply same_edge_spec, H.
  - intros ([a b] & Hin & H). apply in_map_iff in Hin as ([[a' b'] m] & E & Hin).
    simpl in E. inversion E; subst. exists (a, b, m). split; [exact Hin|].
    apply same_edge_spec, H.
Qed.

Lemma has_edge_sym u v g : has_edge u v g = has_edge v u g.
Proof.
  unfold has_edge. induction (edges g) as [|[[a b] m] es IH]; [reflexivity|].
  simpl. rewrite IH, same_edge_sym. reflexivity.
Qed.

Lemma has_edge_data u v g :
  has_edge u v g = true -> exists m, edge_data u v g = Some m.
Proof.
  unfold has_edge, edge_data. rewrite existsb_exists.
  intros ([[a b] m] & Hin & H).
  destruct (find _ (edges g)) as [[[a' b'] m']|] eqn:E; [eauto|].
  eapply find_none in E; [|exact Hin]. simpl in E. congruence.
Qed.

Lemma edges_update_keys u v attr es :
  map (fun e => fst e) (edges_update u v attr es) =
  if existsb (fun '(a, b, _) => same_edge u v a b) es
  then map (fun e => fst e) es
  else map (fun e => fst e) es ++ [(u, v)].
Proof.
  induction es as [|[[a b] m] es IH]; [reflexivity|].
  simpl. destruct (same_edge u v a b); [reflexivity|].
  simpl. rewrite IH. destruct (existsb _ es); reflexivity.
Qed.

Lemma edge_keys_add_edge u v attr g :
  edge_keys (add_edge u v attr g) =
  if has_edge u v g then edge_keys g else edge_keys g ++ [(u, v)].
Proof. unfold edge_keys, add_edge, has_edge. simpl. apply edges_update_keys. Qed.

(** An edge stays: [add_edge] never removes one. *)
Lemma has_edge_add_edge u v u' v' attr g :
  has_edge u v g = true -> has_edge u v (add_edge u' v' attr g) = true.
Proof.
  rewrite !has_edge_spec, edge_keys_add_edge.
  intros (k & Hin & Hk). exists k. split; [|exact Hk].
  destruct (has_edge u' v' g); [exact Hin|].
  apply in_app_iff. left. exact Hin.
Qed.

Lemma has_edge_add_edge_same u v attr g :
  has_edge u v (add_edge u v attr g) = true.
Proof.
  destruct (has_edge u v g) eqn:E.
  - apply has_edge_add_edge, E.
  - apply has_edge_spec. exists (u, v). rewrite edge_keys_add_edge, E. split.
    + apply in_app_iff. right. left. reflexivity.
    + left. split; reflexivity.
Qed.

Lemma add_edge_no_self_loop u v attr g :
  u <> v -> no_self_loop g -> no_self_loop (add_edge u v attr g).
Proof.
  intros Hne Hg a b. rewrite edge_keys_add_edge.
  destruct (has_edge u v g); [apply Hg|].
  rewrite in_app_iff. intros [H|[[= <- <-]|[]]]; [apply Hg, H|exact Hne].
Qed.

Lemma add_edge_one_per_pair u v attr g :
  one_edge_per_pair g -> one_edge_per_pair (add_edge u v attr g).
Proof.
  intros Hg i j k k'. rewrite edge_keys_add_edge.
  destruct (has_edge u v g) eqn:Eh; [apply Hg|].
  assert (Hnew : forall n k0, edge_keys g !! n = Some k0 ->
                              ~ same_pair k0 (u, v)).
  { intros n k0 Hn Hs.
    assert (has_edge u v g = true); [|congruence].
    apply has_edge_spec. exists k0. split; [|exact Hs].
    apply list_elem_of_In. eapply list_elem_of_lookup_2. exact Hn. }
  intros Hi Hj Hs.
  destruct (decide (i < List.length (edge_keys g))) as [Li|Li];
    destruct (decide (j < List.length (edge_keys g))) as [Lj|Lj].
  - rewrite lookup_app_l in Hi, Hj by assumption. eapply Hg; eassumption.
  - rewrite lookup_app_l in Hi by assumption.
    rewrite lookup_app_r in Hj by lia.
    destruct (j - List.length (edge_keys g)) as [|n]; [|destruct n; discriminate].
    inversion Hj; subst. elim (Hnew _ _ Hi Hs).
  - rewrite lookup_app_l in Hj by assumption.
    rewrite lookup_app_r in Hi by lia.
    destruct (i - List.length (edge_keys g)) as [|n]; [|destruct n; discriminate].
    inversion Hi; subst. elim (Hnew _ _ Hj (same_pair_sym _ _ Hs)).
  - rewrite lookup_app_r in Hi, Hj by lia.
    destruct (i - List.length (edge_keys g)) as [|n] eqn:Ei;
      [|destruct n; discriminate].
    destruct (j - List.length (edge_keys g)) as [|n] eqn:Ej;
      [|destruct n; discriminate].
    lia.
Qed.

Lemma attr_update_full new old :
  full_metadata new -> full_metadata (attr_update new old).
Proof.
  intros ([x1 H1] & [x2 H2] & [x3 H3]). unfold attr_update, full_metadata.
  rewrite H1, H2, H3. simpl. eauto.
Qed.

Lemma add_edge_all_full u v attr g :
  full_metadata attr -> all_full g -> all_full (add_edge u v attr g).
Proof.
  unfold all_full, add_edge. simpl. intros Hattr.
  induction (edges g) as [|[[a b] m] es IH]; intros Hg a' b' m'; simpl.
  - intros [[= <- <- <-]|[]]. apply attr_update_full, Hattr.
  - destruct (same_edge u v a b).
    + intros [[= <- <- <-]|H]; [apply attr_update_full, Hattr|].
      eapply Hg. right. exact H.
    + intros [[= <- <- <-]|H]; [eapply Hg; left; reflexivity|].
      eapply IH; [|exact H]. intros ? ? ? ?. eapply Hg. right. eassumption.
Qed.

Lemma edge_data_in u v g m :
  edge_data u v g = Some m -> exists a b, In (a, b, m) (edges g).
Proof.
  unfold edge_data. destruct (find _ (edges g)) as [[[a b] m']|] eqn:E;
    [|discriminate].
  intros [= <-]. apply find_some in E as [Hin _]. eauto.
Qed.

Lemma edges_update_fresh u v attr es :
  existsb (fun '(a, b, _) => same_edge u v a b) es = false ->
  edges_update u v attr es = es ++ [(u, v, attr_update attr no_attr)].
Proof.
  induction es as [|[[a b] m] es IH]; [reflexivity|].
  simpl. destruct (same_edge u v a b); [discriminate|].
  simpl. intros H. rewrite IH by exact H. reflexivity.
Qed.

(** An edge added between nodes no edge joined leaves the data of every
    edge there was. *)
Lemma add_edge_fresh_keeps u v attr g u' v' m :
  has_edge u v g = false ->
  edge_data u' v' g = Some m ->
  edge_data u' v' (add_edge u v attr g) = Some m.
Proof.
  unfold has_edge, edge_data, add_edge. simpl. intros Hf.
  rewrite (edges_update_fresh u v attr _ Hf).
  induction (edges g) as [|[[a b] m0] es IH]; simpl; [discriminate|].
  simpl in Hf. apply orb_false_iff in Hf as [_ Hf].
  destruct (same_edge u' v' a b); [tauto|]. exact (IH Hf).
Qed.

Lemma add_nodes_edges device_list st :
  edges (G (add_nodes device_list st)) = edges (G st).
Proof.
  unfold add_nodes.
  apply (fold_left_inv (fun s => edges (G s))). reflexivity.
Qed.

(** *** Nodes of the graph *)

Lemma key_in_dict_set {V} n k (v : V) ns :
  existsb (fun p => str_eqb (fst p) n) (dict_set k v ns) =
  str_eqb k n || existsb (fun p => str_eqb (fst p) n) ns.
Proof.
  induction ns as [|[k' v'] ns IH]; simpl; [reflexivity|].
  destruct (str_eqb k' k) eqn:E; simpl.
  - apply str_eqb_eq in E as ->. destruct (str_eqb k n); reflexivity.
  - rewrite IH. destruct (str_eqb k n), (str_eqb k' n); reflexivity.
Qed.

Lemma add_nodes_has_node h device_list st n :
  devices st = h ->
  has_node n (G (add_nodes device_list st)) =
  existsb (fun r => str_eqb (hostname (deref h r)) n) device_list
  || has_node n (G st).
Proof.
  unfold add_nodes. revert st.
  induction device_list as [|r rest IH]; intros st Hh; [reflexivity|].
  cbn [fold_left existsb]. rewrite IH by exact Hh.
  assert (has_node n
            (G (on_graph
                  (add_node (hostname (deref (devices st) r))
                     (type_name (deref (devices st) r)) r) st))
          = str_eqb (hostname (deref h r)) n || has_node n (G st)) as ->.
  { unfold has_node. cbn [on_graph G add_node nodes].
    rewrite key_in_dict_set, Hh. reflexivity. }
  destruct (str_eqb (hostname (deref h r)) n), (existsb _ rest); reflexivity.
Qed.

Lemma add_edge_nodes u v attr g :
  has_node u g = true -> has_node v g = true ->
  nodes (add_edge u v attr g) = nodes g.
Proof.
  unfold has_node, add_edge, touch_node. simpl. intros -> ->. reflexivity.
Qed.

Lemma listed_has_node h device_list r g N :
  nodes g = N ->
  (forall n, existsb (fun r => str_eqb (hostname (deref h r)) n) device_list
             = true ->
             existsb (fun p => str_eqb (fst p) n) N = true) ->
  In r device_list -> has_node (hostname (deref h r)) g = true.
Proof.
  intros Hg HN Hin. unfold has_node. rewrite Hg. apply HN.
  apply existsb_exists. exists r. split; [exact Hin|apply str_eqb_refl].
Qed.

(** Every node is a device of the list: the passes add edges between
    hostnames that are nodes already. *)
Lemma build_topology_nodes (device_list : list ref) (h : store) :
  nodes (G (build_topology device_list h))
  = nodes (G (add_nodes device_list (MkState h empty_graph))).
Proof.
  set (st0 := add_nodes device_list (MkState h empty_graph)).
  assert (Hdev : devices st0 = h) by apply add_nodes_devices.
  assert (HN : forall n,
    existsb (fun r => str_eqb (hostname (deref h r)) n) device_list = true ->
    existsb (fun p => str_eqb (fst p) n) (nodes (G st0)) = true).
  { intros n Hn. change (has_node n (G st0) = true). unfold st0.
    rewrite (add_nodes_has_node h) by reflexivity. rewrite Hn. reflexivity. }
  unfold build_topology. fold st0.
  apply (description_pass_ind (fun g => nodes g = nodes (G st0)) h).
  - rewrite subnet_pass_devices. exact Hdev.
  - apply (subnet_pass_ind (fun g => nodes g = nodes (G st0)) h);
      [exact Hdev|reflexivity|].
    intros i j r1 r2 attr g Hi Hj _ _ Hg.
    rewrite add_edge_nodes; [exact Hg| |];
      eapply listed_has_node; try eassumption;
      apply list_elem_of_In; eapply list_elem_of_lookup_2; eassumption.
  - intros r1 r2 g H1 H2 _ _ Hg.
    rewrite add_edge_nodes; [exact Hg| |];
      eapply listed_has_node; eassumption.
Qed.

(** *** Devices of distinct hostnames *)

Lemma distinct_hostnames h (device_list : list ref) i j r1 r2 :
  NoDup (map (fun r => hostname (deref h r)) device_list) ->
  device_list !! i = Some r1 -> device_list !! j = Some r2 -> i <> j ->
  hostname (deref h r1) <> hostname (deref h r2).
Proof.
  intros Hnd Hi Hj Hne E. apply Hne.
  eapply (NoDup_lookup _ i j _ Hnd).
  - change (map ?f ?l) with (f <$> l). rewrite list_lookup_fmap, Hi. reflexivity.
  - change (map ?f ?l) with (f <$> l). rewrite list_lookup_fmap, Hj. simpl.
    rewrite E. reflexivity.
Qed.

Lemma map_deref_seq {X} (f : Device -> X) (ds : list Device) :
  map (fun r => f (deref ds r)) (seq 0 (length ds)) = map f ds.
Proof.
  induction ds as [|d ds IH]; [reflexivity|].
  simpl. f_equal. rewrite <- seq_shift, map_map. exact IH.
Qed.

(** The graph [build_topology] returns for devices of pairwise distinct
    hostnames. *)
Lemma build_topology_shape (device_list : list ref) (h : store) :
  NoDup (map (fun r => hostname (deref h r)) device_list) ->
  let g1 := G (subnet_pass device_list
                 (add_nodes device_list (MkState h empty_graph))) in
  let g := G (build_topology device_list h) in
  no_self_loop g /\ one_edge_per_pair g /\
  (forall u v m, edge_data u v g1 = Some m ->
                 full_metadata m /\ edge_data u v g = Some m).
Proof.
  intros Hnd g1 g.
  assert (Hdev : devices (add_nodes device_list (MkState h empty_graph)) = h)
    by apply add_nodes_devices.
  assert (H0 : edges (G (add_nodes device_list (MkState h empty_graph))) = [])
    by apply add_nodes_edges.
  assert (L1 : no_self_loop g1).
  { apply (subnet_pass_ind no_self_loop h); [exact Hdev| |].
    - intros a b. unfold edge_keys. rewrite H0. intros [].
    - intros i j r1 r2 attr g0 Hi Hj Hne _ Hg0.
      apply add_edge_no_self_loop; [|exact Hg0].
      eapply distinct_hostnames; eassumption. }
  assert (U1 : one_edge_per_pair g1).
  { apply (subnet_pass_ind one_edge_per_pair h); [exact Hdev| |].
    - intros i j k k'. unfold edge_keys. rewrite H0. discriminate.
    - intros. apply add_edge_one_per_pair. assumption. }
  assert (F1 : all_full g1).
  { apply (subnet_pass_ind all_full h); [exact Hdev| |].
    - intros a b m. rewrite H0. intros [].
    - intros. apply add_edge_all_full; assumption. }
  subst g. unfold build_topology.
  split; [|split].
  - apply (description_pass_ind no_self_loop h);
      [rewrite subnet_pass_devices; exact Hdev|exact L1|].
    intros r1 r2 g0 _ _ Hne _ Hg0. apply add_edge_no_self_loop; assumption.
  - apply (description_pass_ind one_edge_per_pair h);
      [rewrite subnet_pass_devices; exact Hdev|exact U1|].
    intros. apply add_edge_one_per_pair. assumption.
  - intros u v m Hm. split.
    + apply edge_data_in in Hm as (a & b & Hin). eapply F1, Hin.
    + revert u v m Hm.
      apply (description_pass_ind
               (fun g0 => forall u v m, edge_data u v g1 = Some m ->
                                        edge_data u v g0 = Some m) h);
        [rewrite subnet_pass_devices; exact Hdev|tauto|].
      intros r1 r2 g0 _ _ _ Hf Hg0 u' v' m Hm.
      apply add_edge_fresh_keeps; [exact Hf|]. apply Hg0, Hm.
Qed.

(** *** A matching subnet gives an edge *)

Lemma link_first_match_keeps u v host1 host2 intf1 network1 intfs2 st :
  has_edge u v (G st) = true ->
  has_edge u v (G (link_first_match host1 host2 intf1 network1 intfs2 st))
  = true.
Proof.
  intros H. apply (link_first_match_ind (fun g => has_edge u v g = true));
    [exact H|].
  intros attr g _. apply has_edge_add_edge.
Qed.

Lemma link_first_match_hits host1 host2 intf1 network1 intfs2 st intf2 props2
    ip2 :
  In (intf2, props2) intfs2 ->
  truthy (get_ip_address props2) = true ->
  IPv4Address (default [] (get_ip_address props2)) = Some ip2 ->
  net_contains network1 ip2 = true ->
  has_edge host1 host2
    (G (link_first_match host1 host2 intf1 network1 intfs2 st)) = true.
Proof.
  intros Hin Ht Hip Hc. induction intfs2 as [|[n p] rest IH]; [destruct Hin|].
  simpl. destruct Hin as [[= -> ->]|Hin].
  - rewrite Ht, Hip, Hc. apply has_edge_add_edge_same.
  - destruct (truthy (get_ip_address p)); [|apply IH, Hin].
    destruct (IPv4Address (default [] (get_ip_address p))) as [ip|];
      [|apply IH, Hin].
    destruct (net_contains network1 ip); [|apply IH, Hin].
    apply has_edge_add_edge_same.
Qed.

Lemma subnet_links_of_interface_keeps u v device_list i device1 intf1 props1
    st :
  has_edge u v (G st) = true ->
  has_edge u v
    (G (subnet_links_of_interface device_list i device1 intf1 props1 st))
  = true.
Proof.
  intros H. unfold subnet_links_of_interface.
  destruct (truthy _ && truthy _); [|exact H].
  destruct (IPv4Network _); [|exact H].
  apply (fold_left_ind (fun s => has_edge u v (G s) = true)); [exact H|].
  intros s [j device2] _ Hs.
  destruct (negb (i =? j)); [apply link_first_match_keeps, Hs|exact Hs].
Qed.

(** Two devices at different places of the list of which the first has a
    subnet that holds an address of the second are joined after the subnet
    pass. *)
Lemma subnet_pass_links (ds : list Device) i j d1 d2 :
  ds !! i = Some d1 -> ds !! j = Some d2 -> i <> j ->
  subnet_match d1 d2 ->
  has_edge (hostname d1) (hostname d2) (after_subnet_pass ds) = true.
Proof.
  intros Hi Hj Hne
    (intf1 & props1 & network1 & intf2 & props2 & ip2 &
     Hin1 & Ht1 & Hm1 & Hnet & Hin2 & Ht2 & Hip2 & Hc).
  unfold after_subnet_pass, subnet_pass.
  set (refs := seq 0 (List.length ds)).
  assert (Hri : refs !! i = Some i).
  { unfold refs. apply lookup_seq. split; [reflexivity|].
    eapply lookup_lt_Some, Hi. }
  assert (Hrj : refs !! j = Some j).
  { unfold refs. apply lookup_seq. split; [reflexivity|].
    eapply lookup_lt_Some, Hj. }
  assert (Hd1 : deref ds i = d1) by (unfold deref; rewrite Hi; reflexivity).
  assert (Hd2 : deref ds j = d2) by (unfold deref; rewrite Hj; reflexivity).
  set (Q := fun s : state =>
              has_edge (hostname d1) (hostname d2) (G s) = true).
  set (R := fun s : state => devices s = ds).
  apply (fold_left_reach R Q _ _ (i, i)).
  - apply add_nodes_devices.
  - apply enumerate_in, Hri.
  - intros s [i' r'] Hs. unfold R.
    rewrite (fold_left_inv devices); [exact Hs|].
    intros s' [n p]. apply subnet_links_of_interface_devices.
  - intros s Hs. unfold R in Hs. rewrite Hs, Hd1.
    apply (fold_left_reach R Q _ _ (intf1, props1)); [exact Hs|exact Hin1| | |].
    + intros s' [n p] Hs'. unfold R.
      rewrite subnet_links_of_interface_devices. exact Hs'.
    + intros s' Hs'. unfold subnet_links_of_interface.
      rewrite Ht1, Hm1, Hnet. cbn [andb].
      apply (fold_left_reach R Q _ _ (j, j)); [exact Hs'| | | |].
      * apply enumerate_in, Hrj.
      * intros s2 [j' r2] Hs2. unfold R.
        destruct (negb (i =? j'));
          [rewrite link_first_match_devices|]; exact Hs2.
      * intros s2 Hs2. unfold R in Hs2.
        destruct (Nat.eqb_spec i j) as [E|_]; [contradiction|]. cbn [negb].
        rewrite Hs2, Hd1, Hd2. unfold Q.
        eapply link_first_match_hits; eassumption.
      * intros s2 [j' r2] _ Hq. unfold Q.
        destruct (negb (i =? j')); [apply link_first_match_keeps|]; exact Hq.
    + intros s' [n p] _ Hq. apply subnet_links_of_interface_keeps, Hq.
  - intros s [i' r'] _ Hq.
    apply (fold_left_ind Q); [exact Hq|].
    intros s' [n p] _ Hq'. apply subnet_links_of_interface_keeps, Hq'.
Qed.

(** C4.  For devices of pairwise distinct hostnames the graph of [infer]
    has no self-loop and no two edges between the same two hostnames; and
    an edge the subnet pass made carries its three attributes and is still
    there, with the same attributes, after the description pass.  So two
    devices linked by a matching subnet have, whatever their descriptions
    say, one edge, with the attributes of the subnet pass. *)
Theorem C4_one_edge_per_pair (ds : list Device) :
  NoDup (map hostname ds) ->
  no_self_loop (infer ds) /\ one_edge_per_pair (infer ds) /\
  (forall u v m,
     edge_data u v (after_subnet_pass ds) = Some m ->
     full_metadata m /\ edge_data u v (infer ds) = Some m) /\
  (forall i j d1 d2,
     ds !! i = Some d1 -> ds !! j = Some d2 -> i <> j ->
     subnet_match d1 d2 ->
     exists m, edge_data (hostname d1) (hostname d2) (infer ds) = Some m /\
               full_metadata m).
Proof.
  intros Hnd.
  assert (H : no_self_loop (infer ds) /\ one_edge_per_pair (infer ds) /\
    (forall u v m,
       edge_data u v (after_subnet_pass ds) = Some m ->
       full_metadata m /\ edge_data u v (infer ds) = Some m)).
  { apply build_topology_shape.
    rewrite (map_deref_seq hostname). exact Hnd. }
  destruct H as (H1 & H2 & H3). repeat split; try assumption;
    try (eapply H3; eassumption).
  intros i j d1 d2 Hi Hj Hne Hm.
  destruct (has_edge_data _ _ _ (subnet_pass_links ds i j d1 d2 Hi Hj Hne Hm))
    as [m Hdata].
  exists m. destruct (H3 _ _ _ Hdata) as [Hfull Hfinal]. split; assumption.
Qed.

(* ===================================================================== *)
(** ** Two devices on one /30 subnet *)
(* ===================================================================== *)

Lemma IPv4Network_A :
  IPv4Network (default [] (Some ip_10_0_0_1) ++ lit "/"
                 ++ default [] (Some mask_30)) = Some net_30.
Proof. vm_compute. reflexivity. Qed.

Lemma IPv4Network_B :
  IPv4Network (default [] (Some ip_10_0_0_2) ++ lit "/"
                 ++ default [] (Some mask_30)) = Some net_30.
Proof. vm_compute. reflexivity. Qed.

Lemma net_30_str : str_of_network net_30 = lit "10.0.0.0/30".
Proof. vm_compute. reflexivity. Qed.

Lemma net_30_has_A :
  IPv4Address (default [] (Some ip_10_0_0_1)) = Some 167772161%Z /\
  net_contains net_30 167772161 = true.
Proof. split; vm_compute; reflexivity. Qed.

Lemma net_30_has_B :
  IPv4Address (default [] (Some ip_10_0_0_2)) = Some 167772162%Z /\
  net_contains net_30 167772162 = true.
Proof. split; vm_compute; reflexivity. Qed.

(** *** The subnet pass on two devices *)

Lemma link_first_match_run host1 host2 intf1 network1 intfs2 st :
  link_first_match host1 host2 intf1 network1 intfs2 st
  = on_graph
      (link_all host1 host2
         (match first_in_network network1 intfs2 with
          | Some intf2 =>
              [MkEdgeAttr (Some intf1) (Some intf2)
                 (Some (str_of_network network1))]
          | None => []
          end)) st.
Proof.
  induction intfs2 as [|[intf2 props2] rest IH].
  - destruct st. reflexivity.
  - cbn [link_first_match first_in_network].
    destruct (truthy (get_ip_address props2)); [|exact IH].
    destruct (IPv4Address _) as [ip2|]; [|exact IH].
    destruct (net_contains network1 ip2); [reflexivity|exact IH].
Qed.

Lemma link_all_app u v ms ms' g :
  link_all u v (ms ++ ms') g = link_all u v ms' (link_all u v ms g).
Proof. unfold link_all. apply fold_left_app. Qed.

Lemma on_graph_on_graph f f' st :
  on_graph f' (on_graph f st) = on_graph (fun g => f' (f g)) st.
Proof. reflexivity. Qed.

Lemma first_in_network_Some network1 intfs2 intf2 props2 ip2 :
  In (intf2, props2) intfs2 ->
  truthy (get_ip_address props2) = true ->
  IPv4Address (default [] (get_ip_address props2)) = Some ip2 ->
  net_contains network1 ip2 = true ->
  is_Some (first_in_network network1 intfs2).
Proof.
  intros Hin Ht Hip Hc. induction intfs2 as [|[n p] rest IH]; [destruct Hin|].
  cbn [first_in_network]. destruct Hin as [[= -> ->]|Hin].
  - rewrite Ht, Hip, Hc. eexists. reflexivity.
  - destruct (truthy (get_ip_address p)); [|apply IH, Hin].
    destruct (IPv4Address (default [] (get_ip_address p))) as [ip|];
      [|apply IH, Hin].
    destruct (net_contains network1 ip); [eexists; reflexivity|apply IH, Hin].
Qed.

Lemma first_in_network_In network1 intfs2 intf2 :
  first_in_network network1 intfs2 = Some intf2 ->
  exists props2 ip2,
    In (intf2, props2) intfs2 /\
    truthy (get_ip_address props2) = true /\
    IPv4Address (default [] (get_ip_address props2)) = Some ip2 /\
    net_contains network1 ip2 = true.
Proof.
  induction intfs2 as [|[n p] rest IH]; [discriminate|].
  cbn [first_in_network]. intros H.
  assert (Hrest : first_in_network network1 rest = Some intf2 ->
                  exists props2 ip2,
                    In (intf2, props2) ((n, p) :: rest) /\
                    truthy (get_ip_address props2) = true /\
                    IPv4Address (default [] (get_ip_address props2))
                    = Some ip2 /\
                    net_contains network1 ip2 = true).
  { intros H'. destruct (IH H') as (props2 & ip2 & Hin & Hrest).
    exists props2, ip2. split; [right; exact Hin|exact Hrest]. }
  destruct (truthy (get_ip_address p)) eqn:Ht; [|exact (Hrest H)].
  destruct (IPv4Address (default [] (get_ip_address p))) as [ip|] eqn:Hip;
    [|exact (Hrest H)].
  destruct (net_contains network1 ip) eqn:Hc; [|exact (Hrest H)].
  injection H as <-. exists p, ip. split; [left; reflexivity|auto].
Qed.

(** Every match is a subnet link, and comes with the three attributes. *)
Lemma subnet_matches_links d1 d2 m :
  In m (subnet_matches d1 d2) -> subnet_link d1 d2 m /\ full_metadata m.
Proof.
  unfold subnet_matches. intros H.
  apply in_flat_map in H as ([intf1 props1] & Hin1 & H).
  unfold match_of in H.
  destruct (truthy (get_ip_address props1)) eqn:Ht1; [|destruct H].
  destruct (truthy (get_subnet_mask props1)) eqn:Hm1; [|destruct H].
  cbn [andb] in H.
  destruct (IPv4Network _) as [network1|] eqn:Hnet; [|destruct H].
  destruct (first_in_network network1 (interfaces d2)) as [intf2|] eqn:Hf;
    [|destruct H].
  destruct H as [<-|[]].
  apply first_in_network_In in Hf as (props2 & ip2 & Hin2 & Ht2 & Hip2 & Hc).
  split.
  - exists intf1, props1, network1, intf2, props2, ip2. auto 10.
  - repeat split; eexists; reflexivity.
Qed.

Lemma attr_update_new new old : full_metadata new -> attr_update new old = new.
Proof.
  destruct new as [a b c]. intros ([x Hx] & [y Hy] & [z Hz]).
  cbn [interface1 interface2 e_network] in Hx, Hy, Hz. subst. reflexivity.
Qed.

(** The edge list after a run of [add_edge] between the same two nodes,
    on a graph without edge and on a graph whose one edge joins them. *)
Lemma link_all_linked u v a b old ms g :
  edges g = [(a, b, old)] -> same_edge u v a b = true ->
  Forall full_metadata ms ->
  edges (link_all u v ms g) = [(a, b, default old (last ms))].
Proof.
  revert old g. induction ms as [|m ms IH]; intros old g Hg Hs Hms.
  - exact Hg.
  - inversion Hms as [|? ? Hm Hms']; subst.
    cbn [link_all fold_left]. fold (link_all u v ms (add_edge u v m g)).
    rewrite (IH m).
    + rewrite last_cons. destruct (last ms); reflexivity.
    + cbn [add_edge edges]. rewrite Hg. cbn [edges_update]. rewrite Hs.
      rewrite attr_update_new by exact Hm. reflexivity.
    + exact Hs.
    + exact Hms'.
Qed.

Lemma same_edge_refl u v : same_edge u v u v = true.
Proof. unfold same_edge. rewrite !str_eqb_refl. reflexivity. Qed.

Lemma same_edge_swap u v : same_edge u v v u = true.
Proof. unfold same_edge. rewrite !str_eqb_refl. apply orb_true_r. Qed.

Lemma link_all_fresh u v m ms g :
  edges g = [] -> Forall full_metadata (m :: ms) ->
  edges (link_all u v (m :: ms) g) = [(u, v, default m (last ms))].
Proof.
  intros Hg Hms. inversion Hms as [|? ? Hm Hms']; subst.
  cbn [link_all fold_left]. fold (link_all u v ms (add_edge u v m g)).
  apply link_all_linked; [|apply same_edge_refl|exact Hms'].
  cbn [add_edge edges]. rewrite Hg. cbn [edges_update].
  rewrite attr_update_new by exact Hm. reflexivity.
Qed.

Section TwoDevices.
Variables dA dB : Device.
Hypothesis Hne : hostname dA <> hostname dB.

Let ds : list Device := [dA; dB].
Let hA := hostname dA.
Let hB := hostname dB.

(** The subnet pass on the two devices: the matches of the first with the
    second, then those of the second with the first. *)
Lemma subnet_step_A intfs st :
  devices st = ds ->
  fold_left
    (fun st '(intf1, props1) =>
       subnet_links_of_interface [0; 1] 0 0 intf1 props1 st) intfs st
  = on_graph (link_all hA hB (flat_map (match_of dB) intfs)) st.
Proof.
  revert st. induction intfs as [|[intf1 props1] rest IH]; intros st Hd.
  - destruct st. reflexivity.
  - cbn [fold_left flat_map]. rewrite IH
      by (rewrite subnet_links_of_interface_devices; exact Hd).
    unfold subnet_links_of_interface, match_of.
    destruct (truthy (get_ip_address props1) && truthy (get_subnet_mask props1));
      [|destruct st; reflexivity].
    destruct (IPv4Network _) as [network1|]; [|destruct st; reflexivity].
    unfold enumerate. cbn [List.length seq combine fold_left Nat.eqb negb].
    rewrite Hd. unfold ds.
    cbn [deref lookup list_lookup default id]. fold hA hB.
    rewrite link_first_match_run, on_graph_on_graph.
    f_equal. 
    destruct (first_in_network network1 (interfaces dB)); reflexivity.
Qed.

Lemma subnet_step_B intfs st :
  devices st = ds ->
  fold_left
    (fun st '(intf1, props1) =>
       subnet_links_of_interface [0; 1] 1 1 intf1 props1 st) intfs st
  = on_graph (link_all hB hA (flat_map (match_of dA) intfs)) st.
Proof.
  revert st. induction intfs as [|[intf1 props1] rest IH]; intros st Hd.
  - destruct st. reflexivity.
  - cbn [fold_left flat_map]. rewrite IH
      by (rewrite subnet_links_of_interface_devices; exact Hd).
    unfold subnet_links_of_interface, match_of.
    destruct (truthy (get_ip_address props1) && truthy (get_subnet_mask props1));
      [|destruct st; reflexivity].
    destruct (IPv4Network _) as [network1|]; [|destruct st; reflexivity].
    unfold enumerate. cbn [List.length seq combine fold_left Nat.eqb negb].
    rewrite Hd. unfold ds.
    cbn [deref lookup list_lookup default id]. fold hA hB.
    rewrite link_first_match_run, on_graph_on_graph.
    f_equal.
    destruct (first_in_network network1 (interfaces dA)); reflexivity.
Qed.

Lemma subnet_pass_two st :
  devices st = ds ->
  subnet_pass [0; 1] st
  = on_graph (link_all hB hA (subnet_matches dB dA))
      (on_graph (link_all hA hB (subnet_matches dA dB)) st).
Proof.
  intros Hd. unfold subnet_pass, enumerate.
  cbn [List.length seq combine fold_left].
  assert (E0 : deref (devices st) 0 = dA) by (rewrite Hd; reflexivity).
  assert (E1 : deref (devices st) 1 = dB) by (rewrite Hd; reflexivity).
  rewrite E0, (subnet_step_A _ st Hd). cbn [on_graph devices].
  rewrite E1. apply subnet_step_B. exact Hd.
Qed.

(** With an edge between the two the description pass adds none. *)
Lemma description_pass_two st m :
  devices st = ds -> edges (G st) = [(hA, hB, m)] ->
  edges (G (description_pass [0; 1] st)) = [(hA, hB, m)].
Proof.
  intros Hd He.
  apply (description_pass_ind (fun g => edges g = [(hA, hB, m)]) ds);
    [exact Hd|exact He|].
  intros r1 r2 g H1 H2 Hh Hf Hg. exfalso.
  unfold has_edge in Hf. rewrite Hg in Hf. cbn [existsb] in Hf.
  rewrite orb_false_r in Hf.
  destruct H1 as [<-|[<-|[]]], H2 as [<-|[<-|[]]]; unfold ds in *;
    cbn [deref lookup list_lookup default id] in *; fold hA hB in Hf, Hh.
  - contradiction.
  - rewrite same_edge_refl in Hf. discriminate.
  - rewrite same_edge_swap in Hf. discriminate.
  - contradiction.
Qed.

Lemma two_devices_nodes :
  map fst (nodes (infer ds)) = [hA; hB].
Proof.
  unfold infer. rewrite build_topology_nodes.
  change (seq 0 (List.length ds)) with [0; 1].
  unfold add_nodes, ds.
  cbn [fold_left on_graph devices G deref lookup list_lookup default id
       add_node nodes empty_graph dict_set].
  fold hA hB. apply str_eqb_neq in Hne. fold hA hB in Hne. rewrite Hne.
  reflexivity.
Qed.

(** One match of the first device with the second is enough for the one
    edge; its attributes are those of the last match of the pass. *)
Lemma two_devices_edges :
  subnet_matches dA dB <> [] ->
  exists m,
    edges (infer ds) = [(hA, hB, m)] /\
    last (subnet_matches dA dB ++ subnet_matches dB dA) = Some m.
Proof.
  intros HA. unfold infer, build_topology.
  change (seq 0 (List.length ds)) with [0; 1].
  set (st0 := add_nodes [0; 1] (MkState ds empty_graph)).
  assert (Hd0 : devices st0 = ds) by apply add_nodes_devices.
  assert (He0 : edges (G st0) = []) by apply add_nodes_edges.
  assert (HfA : Forall full_metadata (subnet_matches dA dB)).
  { apply List.Forall_forall. intros m Hm.
    apply (subnet_matches_links dA dB m Hm). }
  assert (HfB : Forall full_metadata (subnet_matches dB dA)).
  { apply List.Forall_forall. intros m Hm.
    apply (subnet_matches_links dB dA m Hm). }
  rewrite (subnet_pass_two st0 Hd0).
  destruct (subnet_matches dA dB) as [|mA msA] eqn:EA; [contradiction|].
  set (m1 := default mA (last msA)).
  set (m2 := default m1 (last (subnet_matches dB dA))).
  exists m2. split.
  - apply description_pass_two; [exact Hd0|].
    cbn [on_graph G]. apply link_all_linked; [|apply same_edge_swap|exact HfB].
    apply link_all_fresh; assumption.
  - unfold m2, m1. rewrite last_app.
    destruct (last (subnet_matches dB dA)); [reflexivity|].
    cbn [default]. rewrite last_cons. destruct (last msA); reflexivity.
Qed.

End TwoDevices.

(** C3.  Device A has an interface with address 10.0.0.1 and mask
    255.255.255.252, device B, of another hostname, an interface with
    address 10.0.0.2.  The graph of [infer [A; B]] has the two hostnames as
    nodes and exactly one edge, between them.  Every match of the subnet
    pass sets the attributes of the edge anew, so they are those of the
    last match, the matches of A with B taken first and those of B with A
    after them; a match is a subnet link between the two devices, and the
    interface of A gives one with the network 10.0.0.0/30.  When the two
    interfaces are the only ones of the devices and that of B has no mask,
    or the same mask, the attributes of the edge are the network
    10.0.0.0/30 and the two interface names. *)
Theorem C3_subnet_inference (dA dB : Device) (iA iB : str)
    (pA pB : Interface) :
  hostname dA <> hostname dB ->
  In (iA, pA) (interfaces dA) ->
  get_ip_address pA = Some ip_10_0_0_1 ->
  get_subnet_mask pA = Some mask_30 ->
  In (iB, pB) (interfaces dB) ->
  get_ip_address pB = Some ip_10_0_0_2 ->
  let g := infer [dA; dB] in
  map fst (nodes g) = [hostname dA; hostname dB] /\
  (exists iB',
     In (MkEdgeAttr (Some iA) (Some iB') (Some (lit "10.0.0.0/30")))
        (subnet_matches dA dB)) /\
  exists m,
    edges g = [(hostname dA, hostname dB, m)] /\
    last (subnet_matches dA dB ++ subnet_matches dB dA) = Some m /\
    (subnet_link dA dB m \/ subnet_link dB dA m) /\
    (interfaces dA = [(iA, pA)] -> interfaces dB = [(iB, pB)] ->
     get_subnet_mask pB = None \/ get_subnet_mask pB = Some mask_30 ->
     e_network m = Some (lit "10.0.0.0/30") /\
     ((interface1 m = Some iA /\ interface2 m = Some iB) \/
      (interface1 m = Some iB /\ interface2 m = Some iA))).
Proof.
  intros Hne HinA HipA HmA HinB HipB g.
  assert (HA : exists iB',
    In (MkEdgeAttr (Some iA) (Some iB') (Some (lit "10.0.0.0/30")))
       (subnet_matches dA dB)).
  { destruct (first_in_network_Some net_30 (interfaces dB) iB pB 167772162%Z
                HinB) as [iB' HiB'].
    - rewrite HipB. reflexivity.
    - rewrite HipB. apply net_30_has_B.
    - apply net_30_has_B.
    - exists iB'. unfold subnet_matches. apply in_flat_map.
      exists (iA, pA). split; [exact HinA|].
      unfold match_of. rewrite HipA, HmA.
      change (truthy (Some ip_10_0_0_1) && truthy (Some mask_30)) with true.
      cbv iota. rewrite IPv4Network_A, HiB', net_30_str. left. reflexivity. }
  split; [apply two_devices_nodes; exact Hne|]. split; [exact HA|].
  destruct (two_devices_edges dA dB) as (m & Hm & Hlast).
  { destruct HA as [iB' HA]. intros E. rewrite E in HA. destruct HA. }
  exists m. split; [exact Hm|]. split; [exact Hlast|]. split.
  - apply last_Some_elem_of, list_elem_of_In, in_app_or in Hlast.
    destruct Hlast as [H|H]; [left|right];
      eapply subnet_matches_links, H.
  - intros HiA HiB HmB. revert Hlast. unfold subnet_matches.
    rewrite HiA, HiB. cbn [flat_map match_of].
    rewrite HiA, HiB. cbn [first_in_network].
    rewrite HipA, HmA, HipB, !app_nil_r.
    change (truthy (Some ip_10_0_0_1)) with true.
    change (truthy (Some ip_10_0_0_2)) with true.
    change (truthy (Some mask_30)) with true. cbn [andb].
    rewrite IPv4Network_A, (proj1 net_30_has_B), (proj2 net_30_has_B),
      net_30_str.
    destruct HmB as [HmB|HmB]; rewrite HmB.
    + cbn [truthy app last]. intros [= <-]. split; [reflexivity|].
      left. split; reflexivity.
    + change (truthy (Some mask_30)) with true. cbv iota.
      rewrite IPv4Network_B, (proj1 net_30_has_A), (proj2 net_30_has_A),
        net_30_str.
      cbn [app last]. intros [= <-]. split; [reflexivity|].
      right. split; reflexivity.
Qed.

(** The claim as the specification words it fails once another match
    follows that of the interface of A: with the mask 255.255.255.0 on the
    interface of B, and with a second interface 10.0.0.9/255.255.255.0 on
    A, the edge has the network 10.0.0.0/24. *)
Lemma C3_later_match_sets_network :
  let a := one_interface_router (lit "A") (lit "Gi0/0") ip_10_0_0_1
             (Some mask_30) None in
  let b_24 := one_interface_router (lit "B") (lit "Gi0/1") ip_10_0_0_2
                (Some (lit "255.255.255.0")) None in
  let a_two :=
    RouterDev (router_with (lit "A")
      [(lit "Gi0/0", interface_with ip_10_0_0_1 (Some mask_30) None);
       (lit "Gi0/1", interface_with (lit "10.0.0.9")
                       (Some (lit "255.255.255.0")) None)]) in
  let b := one_interface_router (lit "B") (lit "Gi0/1") ip_10_0_0_2
             None None in
  edges (infer [a; b_24])
  = [(lit "A", lit "B",
      MkEdgeAttr (Some (lit "Gi0/1")) (Some (lit "Gi0/0"))
                 (Some (lit "10.0.0.0/24")))] /\
  edges (infer [a_two; b])
  = [(lit "A", lit "B",
      MkEdgeAttr (Some (lit "Gi0/1")) (Some (lit "Gi0/1"))
                 (Some (lit "10.0.0.0/24")))].
Proof. cbv zeta. split; vm_compute; reflexivity. Qed.

Lemma C3_subnet_inference_witness :
  let g := infer [one_interface_router (lit "A") (lit "Gi0/0") ip_10_0_0_1
                    (Some mask_30) None;
                  one_interface_router (lit "B") (lit "Gi0/1") ip_10_0_0_2
                    None None] in
  map fst (nodes g) = [lit "A"; lit "B"] /\
  exists m,
    edges g = [(lit "A", lit "B", m)] /\
    last (subnet_matches
            (one_interface_router (lit "A") (lit "Gi0/0") ip_10_0_0_1
               (Some mask_30) None)
            (one_interface_router (lit "B") (lit "Gi0/1") ip_10_0_0_2
               None None)
          ++ subnet_matches
               (one_interface_router (lit "B") (lit "Gi0/1") ip_10_0_0_2
                  None None)
               (one_interface_router (lit "A") (lit "Gi0/0") ip_10_0_0_1
                  (Some mask_30) None)) = Some m /\
    e_network m = Some (lit "10.0.0.0/30") /\
    ((interface1 m = Some (lit "Gi0/0") /\ interface2 m = Some (lit "Gi0/1")) \/
     (interface1 m = Some (lit "Gi0/1") /\ interface2 m = Some (lit "Gi0/0"))).
Proof.
  cbv zeta.
  destruct (C3_subnet_inference
              (one_interface_router (lit "A") (lit "Gi0/0") ip_10_0_0_1
                 (Some mask_30) None)
              (one_interface_router (lit "B") (lit "Gi0/1") ip_10_0_0_2
                 None None)
              (lit "Gi0/0") (lit "Gi0/1")
              (RouterIntf (interface_with ip_10_0_0_1 (Some mask_30) None))
              (RouterIntf (interface_with ip_10_0_0_2 None None)))
    as (Hn & _ & m & He & Hl & _ & Hm);
    [discriminate|left; reflexivity|reflexivity|reflexivity
    |left; reflexivity|reflexivity|].
  split; [exact Hn|]. exists m. split; [exact He|]. split; [exact Hl|].
  apply Hm; [reflexivity|reflexivity|left; reflexivity].
Defined.

(** Two routers that face each other on 10.0.0.0/30 and name each other in
    their descriptions. *)
Lemma linked_twice_one_edge :
  let ds := [one_interface_router (lit "R1") (lit "Gi0/0") ip_10_0_0_1
               (Some mask_30) (Some (lit "to R2"));
             one_interface_router (lit "R2") (lit "Gi0/1") ip_10_0_0_2
               (Some mask_30) (Some (lit "to R1"))] in
  edges (after_subnet_pass ds) = edges (infer ds) /\
  edges (infer ds)
  = [(lit "R1", lit "R2",
      MkEdgeAttr (Some (lit "Gi0/1")) (Some (lit "Gi0/0"))
                 (Some (lit "10.0.0.0/30")))].
Proof. cbv zeta. split; vm_compute; reflexivity. Qed.

Lemma C4_one_edge_per_pair_witness :
  let ds := [one_interface_router (lit "R1") (lit "Gi0/0") ip_10_0_0_1
               (Some mask_30) (Some (lit "to R2"));
             one_interface_router (lit "R2") (lit "Gi0/1") ip_10_0_0_2
               (Some mask_30) (Some (lit "to R1"))] in
  NoDup (map hostname ds) /\ no_self_loop (infer ds)
  /\ one_edge_per_pair (infer ds).
Proof.
  cbv zeta.
  assert (Hnd : NoDup (map hostname
    [one_interface_router (lit "R1") (lit "Gi0/0") ip_10_0_0_1
       (Some mask_30) (Some (lit "to R2"));
     one_interface_router (lit "R2") (lit "Gi0/1") ip_10_0_0_2
       (Some mask_30) (Some (lit "to R1"))])).
  { apply NoDup_cons. split; [|apply NoDup_singleton].
    apply not_elem_of_cons. split; [discriminate|apply not_elem_of_nil]. }
  split; [exact Hnd|].
  destruct (C4_one_edge_per_pair _ Hnd) as (H1 & H2 & _). split; assumption.
Defined.

(* ===================================================================== *)
(** ** More on dictionaries and loops *)
(* ===================================================================== *)

(** *** Keys of a dictionary *)

Lemma dict_get_None {V} k (d : list (str * V)) :
  dict_get k d = None <-> ~ In k (map fst d).
Proof.
  induction d as [|[k' v] d IH]; simpl; [tauto|].
  destruct (str_eqb k' k) eqn:E.
  - apply str_eqb_eq in E. split; [discriminate|]. intros H. destruct H. tauto.
  - apply str_eqb_neq in E. rewrite IH. tauto.
Qed.

Lemma dict_get_In {V} k (v : V) d : dict_get k d = Some v -> In (k, v) d.
Proof.
  induction d as [|[k' v'] d IH]; simpl; [discriminate|].
  destruct (str_eqb k' k) eqn:E.
  - apply str_eqb_eq in E as ->. intros [= ->]. left. reflexivity.
  - intros H. right. apply IH, H.
Qed.

Lemma In_dict_get {V} k (v : V) d :
  NoDup (map fst d) -> In (k, v) d -> dict_get k d = Some v.
Proof.
  induction d as [|[k' v'] d IH]; simpl; [tauto|].
  intros Hnd [H|H].
  - injection H as -> ->. rewrite str_eqb_refl. reflexivity.
  - apply NoDup_cons in Hnd as [Hk Hnd].
    destruct (str_eqb k' k) eqn:E.
    + apply str_eqb_eq in E as ->. destruct Hk.
      apply list_elem_of_In. apply (in_map fst) in H. exact H.
    + apply IH; assumption.
Qed.

Lemma dict_set_fresh {V} k (v : V) d :
  ~ In k (map fst d) -> dict_set k v d = d ++ [(k, v)].
Proof.
  induction d as [|[k' v'] d IH]; simpl; [reflexivity|].
  intros H. destruct (str_eqb k' k) eqn:E.
  - apply str_eqb_eq in E. tauto.
  - rewrite IH by tauto. reflexivity.
Qed.

Lemma dict_set_keys {V} k (v : V) d :
  map fst (dict_set k v d)
  = if dict_has k d then map fst d else map fst d ++ [k].
Proof.
  unfold dict_has. induction d as [|[k' v'] d IH]; [reflexivity|].
  cbn [dict_set dict_get]. destruct (str_eqb k' k) eqn:E.
  - apply str_eqb_eq in E as ->.
    rewrite bool_decide_eq_true_2 by eauto. reflexivity.
  - cbn [map fst]. rewrite IH.
    destruct (bool_decide (is_Some (dict_get k d))); reflexivity.
Qed.

Lemma dict_set_keys_NoDup {V} k (v : V) d :
  NoDup (map fst d) -> NoDup (map fst (dict_set k v d)).
Proof.
  intros H. rewrite dict_set_keys. unfold dict_has.
  destruct (bool_decide (is_Some (dict_get k d))) eqn:E; [exact H|].
  apply bool_decide_eq_false in E.
  apply NoDup_app. repeat split; [exact H| |apply NoDup_singleton].
  intros x Hx Hk. apply list_elem_of_singleton in Hk as ->. apply E.
  destruct (dict_get k d) eqn:Eg; [eauto|].
  apply dict_get_None in Eg. destruct Eg. apply list_elem_of_In, Hx.
Qed.

Lemma Forall_dict_set {V} (P : str * V -> Prop) k v d :
  Forall P d -> P (k, v) -> Forall P (dict_set k v d).
Proof.
  intros Hd Hkv. induction d as [|[k' v'] d IH]; simpl.
  - constructor; [exact Hkv|constructor].
  - apply Forall_cons in Hd as [Hh Ht]. destruct (str_eqb k' k).
    + constructor; assumption.
    + constructor; [exact Hh|apply IH, Ht].
Qed.

Lemma is_Some_dict_get {V} k (d : list (str * V)) :
  is_Some (dict_get k d) <-> In k (map fst d).
Proof.
  induction d as [|[k' v] d IH]; simpl.
  - split; [intros [? ?]; discriminate|tauto].
  - destruct (str_eqb k' k) eqn:E.
    + apply str_eqb_eq in E. split; [tauto|eauto].
    + apply str_eqb_neq in E. rewrite IH. tauto.
Qed.

Lemma dict_alter_set {V} (g : V -> V) k v (d : list (str * V)) :
  dict_alter g k (dict_set k v d) = dict_set k (g v) d.
Proof.
  induction d as [|[k' v'] d IH]; simpl.
  - rewrite str_eqb_refl. reflexivity.
  - destruct (str_eqb k' k) eqn:E; simpl.
    + rewrite str_eqb_refl. reflexivity.
    + rewrite E, IH. reflexivity.
Qed.


(** *** Loops *)

Lemma fold_left_filter {A S} (p : A -> bool) (f : S -> A -> S) l s :
  (forall s a, p a = false -> f s a = s) ->
  fold_left f (List.filter p l) s = fold_left f l s.
Proof.
  intros H. revert s. induction l as [|a l IH]; intros s; [reflexivity|].
  simpl. destruct (p a) eqn:E; simpl; [apply IH|].
  rewrite (H s a E). apply IH.
Qed.

Lemma Forall_snoc {A} (P : A -> Prop) l x :
  Forall P l -> P x -> Forall P (l ++ [x]).
Proof. intros Hl Hx. apply Forall_app. split; [exact Hl|]. constructor; [exact Hx|constructor]. Qed.


Lemma existsb_map {A B} (p : B -> bool) (g : A -> B) l :
  existsb p (map g l) = existsb (fun x => p (g x)) l.
Proof.
  induction l as [|a l IH]; [reflexivity|]. simpl. rewrite IH. reflexivity.
Qed.

(** *** Characters of a text *)

Lemma not_in_text c s :
  forallb (fun x => negb (ascii_eqb c x)) s = true -> ~ In c s.
Proof.
  rewrite forallb_forall. intros H Hin. specialize (H c Hin).
  rewrite (proj2 (ascii_eqb_eq c c) eq_refl) in H. discriminate.
Qed.

Lemma occurs_in_some_case p s :
  contains p (lower s) = true -> occurs_any_case p s.
Proof. intros H. apply occurs_lower, contains_spec, H. Qed.

Lemma occurs_in_no_case p s :
  contains p (lower s) = false -> ~ occurs_any_case p s.
Proof. intros H. rewrite <- occurs_lower. apply contains_false, H. Qed.

(* ===================================================================== *)
(** ** What a match is made of *)
(* ===================================================================== *)

Lemma cap_get_cons n m t cs :
  cap_get n ((m, t) :: cs) = if m =? n then Some t else cap_get n cs.
Proof. unfold cap_get. cbn [find fst]. destruct (m =? n); reflexivity. Qed.

Lemma cap_get_in n cs t : cap_get n cs = Some t -> In (n, t) cs.
Proof.
  induction cs as [|[m t'] cs IH]; [discriminate|].
  rewrite cap_get_cons. destruct (Nat.eqb_spec m n) as [->|_].
  - intros [= ->]. left. reflexivity.
  - intros H. right. apply IH, H.
Qed.

(** The text a match takes, the groups it captures and the characters it
    needs. *)
Lemma rmatch_sound f qs r k s cs res :
  groups_in f qs r = true -> caps_in qs cs ->
  rmatch f r k s cs = Some res ->
  exists pre s' cs',
    s = pre ++ s' /\ k s' cs' = Some res /\ caps_in qs cs' /\
    (forall q, chars_in f q r = true -> Forall (fun x => q x = true) pre) /\
    (forall q, needs f q r = true -> Exists (fun x => q x = true) pre) /\
    (leads f any_char r = true -> pre <> []) /\
    (forall n, binds n r = true \/ is_Some (cap_get n cs) ->
               is_Some (cap_get n cs')).
Proof.
  revert k s cs res.
  induction r as [ | ch | | | | | | a IHa b IHb | a IHa b IHb | g a IHa
                 | n a IHa | a IHa ];
    intros k s cs res Hg Hcs H;
    try (destruct s as [|x s]; simpl in H; [discriminate|];
         match type of H with
         | (if ?b then _ else _) = _ => destruct b eqn:Eb; [|discriminate]
         end;
         exists [x], s, cs; repeat split;
         [exact H|exact Hcs
         |intros q Hq; constructor; [|constructor];
          eapply class_sub_spec; [exact Hq|exact Eb]
         |intros q Hq; constructor;
          eapply class_sub_spec; [exact Hq|exact Eb]
         |discriminate
         |intros m [Hm|Hm]; [discriminate|exact Hm]]).
  - (* Eps *)
    exists [], s, cs. repeat split; try assumption; try discriminate;
      try (intros; constructor).
    intros m [Hm|Hm]; [discriminate|exact Hm].
  - (* Dollar *)
    simpl in H. destruct (at_dollar f s); [|discriminate].
    exists [], s, cs. repeat split; try assumption; try discriminate;
      try (intros; constructor).
    intros m [Hm|Hm]; [discriminate|exact Hm].
  - (* Seq *)
    simpl in Hg. apply andb_true_iff in Hg as [Hga Hgb]. simpl in H.
    apply IHa in H as (p1 & s1 & c1 & -> & H & Hc1 & Hch1 & Hn1 & Hl1 & Hb1);
      [|assumption..].
    apply IHb in H as (p2 & s2 & c2 & -> & H & Hc2 & Hch2 & Hn2 & Hl2 & Hb2);
      [|assumption..].
    exists (p1 ++ p2), s2, c2. rewrite <- app_assoc.
    repeat split; try assumption.
    + intros q Hq. simpl in Hq. apply andb_true_iff in Hq as [Hqa Hqb].
      apply Forall_app. split; auto.
    + intros q Hq. simpl in Hq. apply orb_true_iff in Hq as [Hq|Hq].
      * apply Exists_app. left. auto.
      * apply Exists_app. right. auto.
    + intros Hl. simpl in Hl. specialize (Hl1 Hl).
      destruct p1; [congruence|discriminate].
    + intros m [Hm|Hm].
      * simpl in Hm. apply orb_true_iff in Hm as [Hm|Hm]; auto.
      * auto.
  - (* Alt *)
    simpl in Hg. apply andb_true_iff in Hg as [Hga Hgb]. simpl in H.
    destruct (rmatch f a k s cs) eqn:E; simpl in H.
    + rewrite <- H in *.
      apply IHa in E as (p1 & s1 & c1 & -> & E & Hc1 & Hch1 & Hn1 & Hl1 & Hb1);
        [|assumption..].
      exists p1, s1, c1. repeat split; try assumption.
      * intros q Hq. simpl in Hq. apply andb_true_iff in Hq as [Hqa _]. auto.
      * intros q Hq. simpl in Hq. apply andb_true_iff in Hq as [Hqa _]. auto.
      * intros Hl. simpl in Hl. apply andb_true_iff in Hl as [Hl _]. auto.
      * intros m [Hm|Hm]; [|auto].
        simpl in Hm. apply andb_true_iff in Hm as [Hm _]. auto.
    + apply IHb in H as (p1 & s1 & c1 & -> & H & Hc1 & Hch1 & Hn1 & Hl1 & Hb1);
        [|assumption..].
      exists p1, s1, c1. repeat split; try assumption.
      * intros q Hq. simpl in Hq. apply andb_true_iff in Hq as [_ Hqb]. auto.
      * intros q Hq. simpl in Hq. apply andb_true_iff in Hq as [_ Hqb]. auto.
      * intros Hl. simpl in Hl. apply andb_true_iff in Hl as [_ Hl]. auto.
      * intros m [Hm|Hm]; [|auto].
        simpl in Hm. apply andb_true_iff in Hm as [_ Hm]. auto.
  - (* Star *)
    simpl in Hg. simpl in H. revert Hcs H.
    generalize (List.length s) at 1 as n. intros n.
    revert s cs. induction n as [|n IHn]; intros s cs Hcs H.
    + assert (Hk : k s cs = Some res).
      { destruct g; simpl in H; [exact H|].
        destruct (k s cs); simpl in H; [exact H|discriminate]. }
      exists [], s, cs. repeat split; try assumption; try discriminate;
        try (intros; constructor).
      intros m [Hm|Hm]; [discriminate|exact Hm].
    + destruct g.
      * match type of H with
        | or_else ?x _ = _ => destruct x eqn:E
        end; simpl in H.
        -- rewrite <- H in *.
           apply IHa in E
             as (p1 & s1 & c1 & -> & E & Hc1 & Hch1 & _ & _ & Hb1);
             [|assumption..].
           destruct (List.length s1 <? List.length (p1 ++ s1));
             [|discriminate].
           apply IHn in E
             as (p2 & s2 & c2 & -> & E & Hc2 & Hch2 & _ & _ & Hb2);
             [|assumption].
           exists (p1 ++ p2), s2, c2. rewrite <- app_assoc.
           repeat split; try assumption; try discriminate.
           ++ intros q Hq. apply Forall_app. split; auto.
           ++ intros m [Hm|Hm]; [discriminate|]. apply Hb2. right.
              apply Hb1. right. exact Hm.
        -- exists [], s, cs. repeat split; try assumption; try discriminate;
             try (intros; constructor).
           intros m [Hm|Hm]; [discriminate|exact Hm].
      * destruct (k s cs) eqn:Ek; simpl in H.
        -- rewrite <- H in *.
           exists [], s, cs. repeat split; try assumption; try discriminate;
             try (intros; constructor).
           intros m [Hm|Hm]; [discriminate|exact Hm].
        -- apply IHa in H
             as (p1 & s1 & c1 & -> & H & Hc1 & Hch1 & _ & _ & Hb1);
             [|assumption..].
           destruct (List.length s1 <? List.length (p1 ++ s1));
             [|discriminate].
           apply IHn in H
             as (p2 & s2 & c2 & -> & H & Hc2 & Hch2 & _ & _ & Hb2);
             [|assumption].
           exists (p1 ++ p2), s2, c2. rewrite <- app_assoc.
           repeat split; try assumption; try discriminate.
           ++ intros q Hq. apply Forall_app. split; auto.
           ++ intros m [Hm|Hm]; [discriminate|]. apply Hb2. right.
              apply Hb1. right. exact Hm.
  - (* Group *)
    simpl in Hg. apply andb_true_iff in Hg as [Hg Hga].
    apply andb_true_iff in Hg as [Hch Hl]. simpl in H.
    apply IHa in H as (p1 & s1 & c1 & -> & H & Hc1 & Hch1 & Hn1 & Hl1 & Hb1);
      [|assumption..].
    rewrite take_length_diff in H.
    exists p1, s1, ((n, p1) :: c1). repeat split; try assumption.
    + constructor; [|exact Hc1]. split; simpl; auto.
    + intros m Hm. rewrite cap_get_cons.
      destruct (Nat.eqb_spec n m) as [->|Hne]; [eauto|].
      apply Hb1. destruct Hm as [Hm|Hm]; [|right; exact Hm].
      simpl in Hm. apply orb_true_iff in Hm as [Hm|Hm]; [|left; exact Hm].
      apply Nat.eqb_eq in Hm. congruence.
  - (* Lookahead *)
    simpl in Hg. simpl in H.
    destruct (rmatch f a (fun s' c' => Some (s', c')) s cs) as [[s1 c1]|] eqn:E;
      [|discriminate].
    apply IHa in E as (p1 & s2 & c2 & _ & E & Hc1 & _ & _ & _ & Hb1);
      [|assumption..].
    injection E as -> ->.
    exists [], s, c1. repeat split; try assumption; try discriminate;
      try (intros; constructor).
    intros m [Hm|Hm]; [discriminate|]. apply Hb1. right. exact Hm.
Qed.

Lemma match_at_sound f qs r s m :
  groups_in f qs r = true -> match_at f r s = Some m ->
  s = m_text m ++ m_rest m /\ caps_in qs (m_caps m) /\
  (forall q, chars_in f q r = true ->
             Forall (fun x => q x = true) (m_text m)) /\
  (forall q, needs f q r = true ->
             Exists (fun x => q x = true) (m_text m)) /\
  (forall n, binds n r = true -> is_Some (cap_get n (m_caps m))).
Proof.
  intros Hg H. unfold match_at in H.
  destruct (rmatch f r accept s []) as [[rest c]|] eqn:E; [|discriminate].
  injection H as <-.
  apply (rmatch_sound f qs) in E
    as (pre & s' & cs' & -> & E & Hc & Hch & Hn & _ & Hb);
    [|exact Hg|constructor].
  injection E as -> ->. cbn [m_text m_rest m_caps].
  rewrite take_length_diff. repeat split; auto.
Qed.

(** The text of a group that took part in the match. *)
Lemma group_text_of qs m n :
  caps_in qs (m_caps m) -> is_Some (cap_get (S n) (m_caps m)) ->
  text_of (qs (S n)) (group_text m (S n)).
Proof.
  intros Hc [t Ht]. unfold group_text, group. rewrite Ht. cbn [default].
  apply cap_get_in in Ht. unfold caps_in in Hc.
  rewrite List.Forall_forall in Hc. apply (Hc _ Ht).
Qed.

(** The text of a group that may have taken no part. *)
Lemma group_text_opt qs m n :
  caps_in qs (m_caps m) ->
  group_text m (S n) = [] \/ text_of (qs (S n)) (group_text m (S n)).
Proof.
  intros Hc. destruct (cap_get (S n) (m_caps m)) as [t|] eqn:Ht.
  - right. apply group_text_of; [exact Hc|]. rewrite Ht. eauto.
  - left. unfold group_text, group. rewrite Ht. reflexivity.
Qed.

Lemma re_search_sound f qs r s m :
  groups_in f qs r = true -> re_search f r s = Some m ->
  (exists pre, s = pre ++ m_text m ++ m_rest m) /\ caps_in qs (m_caps m) /\
  (forall n, binds n r = true -> is_Some (cap_get n (m_caps m))).
Proof.
  intros Hg H. apply re_search_Some in H as (pre & t & -> & H & _).
  apply (match_at_sound f qs) in H as (-> & Hc & _ & _ & Hb); [|exact Hg].
  eauto.
Qed.

Lemma matches_from_at f r n s m :
  In m (matches_from f r n s) ->
  exists pre t, s = pre ++ t /\ match_at f r t = Some m.
Proof.
  revert n. induction s as [|x s IH]; intros n.
  - destruct n; cbn [matches_from]; [|intros []].
    destruct (match_at f r []) eqn:E; [|intros []].
    intros [<-|[]]. exists [], []. auto.
  - assert (Hs : forall n, In m (matches_from f r n s) ->
                 exists pre t, x :: s = pre ++ t /\ match_at f r t = Some m).
    { intros n' H. apply IH in H as (pre & t & -> & H).
      exists (x :: pre), t. auto. }
    destruct n; cbn [matches_from]; [|apply Hs].
    destruct (match_at f r (x :: s)) eqn:E; [|apply Hs].
    intros [<-|H]; [|eapply Hs, H]. exists [], (x :: s). auto.
Qed.

Lemma finditer_sound f qs r s m :
  groups_in f qs r = true -> In m (re_finditer f r s) ->
  caps_in qs (m_caps m) /\
  (exists pre, s = pre ++ m_text m ++ m_rest m) /\
  (forall q, needs f q r = true ->
             Exists (fun x => q x = true) (m_text m)) /\
  (forall n, binds n r = true -> is_Some (cap_get n (m_caps m))).
Proof.
  intros Hg H. apply matches_from_at in H as (pre & t & -> & H).
  apply (match_at_sound f qs) in H as (-> & Hc & _ & Hn & Hb); [|exact Hg].
  eauto 6.
Qed.

(** *** Texts of a class *)

Lemma text_of_no_space t : text_of not_space t -> t <> [] /\ no_space t.
Proof.
  intros [Hne H]. split; [exact Hne|].
  unfold no_space. eapply Forall_impl; [exact H|].
  intros x Hx. unfold not_space in Hx. apply negb_true_iff in Hx. exact Hx.
Qed.

Lemma text_of_sub (p q : ascii -> bool) t :
  (forall x, p x = true -> q x = true) -> text_of p t -> text_of q t.
Proof.
  intros Hpq [Hne H]. split; [exact Hne|].
  eapply Forall_impl; [exact H|]. exact Hpq.
Qed.

(** *** A more permissive continuation *)

(** A pattern that matches before a continuation matches before any
    continuation that accepts at least as much. *)
Lemma rmatch_mono f r k k' s cs res :
  (forall s' cs' res', k s' cs' = Some res' -> is_Some (k' s' cs')) ->
  rmatch f r k s cs = Some res -> is_Some (rmatch f r k' s cs).
Proof.
  revert k k' s cs res.
  induction r as [ | ch | | | | | | a IHa b IHb | a IHa b IHb | g a IHa
                 | n a IHa | a IHa ];
    intros k k' s cs res Hk H;
    try (destruct s as [|x s]; simpl in *; [discriminate|];
         match type of H with
         | (if ?b then _ else _) = _ => destruct b; [|discriminate]
         end; eapply Hk, H).
  - eapply Hk, H.
  - simpl in *. destruct (at_dollar f s); [|discriminate]. eapply Hk, H.
  - simpl in *. eapply IHa; [|exact H].
    intros s' cs' res' H'. eapply IHb; [|exact H']. exact Hk.
  - simpl in *. destruct (rmatch f a k s cs) eqn:E; simpl in H.
    + destruct (IHa k k' s cs _ Hk E) as [x ->]. simpl. eauto.
    + destruct (rmatch f a k' s cs); simpl; [eauto|].
      eapply IHb; [|exact H]. exact Hk.
  - simpl in *. revert H. generalize (List.length s) as n. intros n.
    revert s cs res. induction n as [|n IHn]; intros s cs res H.
    + destruct g; simpl in *; [eapply Hk, H|].
      destruct (k s cs) eqn:E; simpl in H; [|discriminate].
      destruct (Hk _ _ _ E) as [x ->]. simpl. eauto.
    + destruct g.
      * match type of H with
        | or_else ?x _ = _ => destruct x eqn:E
        end; simpl in H.
        -- match goal with
           | |- is_Some (or_else ?y _) => assert (Hy : is_Some y)
           end.
           { eapply IHa; [|exact E]. intros s' cs' res' H'. cbv beta in H' |- *.
             destruct (List.length s' <? List.length s); [|discriminate].
             eapply IHn, H'. }
           destruct Hy as [y ->]. simpl. eauto.
        -- match goal with
           | |- is_Some (or_else ?y _) => destruct y
           end; simpl; [eauto|]. eapply Hk, H.
      * destruct (k s cs) eqn:Ek; simpl in H.
        -- destruct (Hk _ _ _ Ek) as [x ->]. simpl. eauto.
        -- destruct (k' s cs); simpl; [eauto|].
           eapply IHa; [|exact H]. intros s' cs' res' H'. cbv beta in H' |- *.
           destruct (List.length s' <? List.length s); [|discriminate].
           eapply IHn, H'.
  - simpl in *. eapply IHa; [|exact H].
    intros s' cs' res' H'. eapply Hk, H'.
  - simpl in *.
    destruct (rmatch f a (fun s' c' => Some (s', c')) s cs) as [[s1 c1]|];
      [|discriminate].
    eapply Hk, H.
Qed.

(* ===================================================================== *)
(** ** The interfaces a parser records *)
(* ===================================================================== *)

(** *** One entry for a stanza *)

Lemma when_found_alter_set f r text name
    (g : rematch -> RouterInterface -> RouterInterface) v ifs d :
  when_found f r text (fun m => alter name (g m))
    (set_interfaces (dict_set name v ifs) d)
  = set_interfaces (dict_set name (when_found f r text g v) ifs) d.
Proof.
  unfold when_found. destruct (re_search f r text); [|reflexivity].
  unfold alter. cbn [r_interfaces set_interfaces]. rewrite dict_alter_set.
  reflexivity.
Qed.

(** A stanza with a name sets the entry of that name, whatever the entry
    was. *)
Lemma router_block_sets block d m :
  re_search IC intf_name_re block = Some m ->
  router_block block d
  = set_interfaces
      (dict_set (group_text m 1) (router_entry block) (r_interfaces d)) d.
Proof.
  intros H. unfold router_block, router_entry. rewrite H. cbv zeta.
  rewrite (when_found_alter_set IC shutdown_re block (group_text m 1)
             (fun _ => with_shutdown)).
  rewrite (when_found_alter_set DOTALL_IC desc_re block (group_text m 1)
             (fun m => with_description (strip (group_text m 1)))).
  rewrite (when_found_alter_set IC ip_re block (group_text m 1)
             (fun m => with_ip (group_text m 1) (group_text m 2))).
  rewrite (when_found_alter_set IC sec_ip_re block (group_text m 1)
             (fun m => with_secondary (group_text m 1) (group_text m 2))).
  rewrite (when_found_alter_set IC bw_re block (group_text m 1)
             (fun m => with_bandwidth (group_text m 1))).
  rewrite (when_found_alter_set IC duplex_re block (group_text m 1)
             (fun m => with_duplex (group_text m 1))).
  rewrite (when_found_alter_set IC speed_re block (group_text m 1)
             (fun m => with_speed (group_text m 1))).
  reflexivity.
Qed.

Lemma switch_block_sets block d m :
  re_search no_flags sw_intf_name_re block = Some m ->
  switch_block block d
  = MkSwitch (s_hostname d) (s_vendor d)
      (dict_set (group_text m 1) (switch_entry block) (s_interfaces d))
      (s_model d) (switch_vlan block ∪ vlans d) (stp_mode d).
Proof.
  intros H. unfold switch_block, switch_entry, switch_vlan, when_found.
  rewrite H. cbv zeta.
  destruct (re_search _ sw_desc_re block), (re_search _ sw_mode_re block),
    (re_search _ sw_vlan_re block);
    unfold sw_add_vlan, sw_alter, sw_set_interfaces;
    cbn [s_hostname s_vendor s_interfaces s_model vlans stp_mode];
    rewrite ?dict_alter_set; f_equal;
    try (rewrite (left_id_L ∅ (∪)); reflexivity); reflexivity.
Qed.

(** *** The fields of an entry *)

Lemma router_entry_fields block :
  let e := router_entry block in
  ip_address e = (fun m => group_text m 1) <$> re_search IC ip_re block /\
  subnet_mask e = (fun m => group_text m 2) <$> re_search IC ip_re block /\
  secondary_ips e
  = (fun m => [(group_text m 1, group_text m 2)])
      <$> re_search IC sec_ip_re block /\
  bandwidth e = (fun m => group_text m 1) <$> re_search IC bw_re block /\
  duplex e = (fun m => group_text m 1) <$> re_search IC duplex_re block /\
  speed e = (fun m => group_text m 1) <$> re_search IC speed_re block /\
  encapsulation e = None /\ vrf e = None.
Proof.
  unfold router_entry, when_found.
  destruct (re_search IC shutdown_re block), (re_search DOTALL_IC desc_re block),
    (re_search IC ip_re block), (re_search IC sec_ip_re block),
    (re_search IC bw_re block), (re_search IC duplex_re block),
    (re_search IC speed_re block); repeat split.
Qed.

Lemma switch_entry_fields block :
  let e := switch_entry block in
  sw_mode e = (fun m => group_text m 1) <$> re_search no_flags sw_mode_re block /\
  sw_access_vlan e
  = (fun m => group_text m 1) <$> re_search no_flags sw_vlan_re block.
Proof.
  unfold switch_entry, when_found.
  destruct (re_search _ sw_desc_re block), (re_search _ sw_mode_re block),
    (re_search _ sw_vlan_re block); repeat split.
Qed.

(** *** What the patterns capture *)

Lemma token_patterns :
  Forall (fun r => groups_in IC (fun _ => not_space) r = true
                   /\ binds 1 r = true)
    [hostname_re; intf_name_re; duplex_re] /\
  Forall (fun r => groups_in no_flags (fun _ => not_space) r = true
                   /\ binds 1 r = true)
    [sw_hostname_re; sw_intf_name_re; sw_mode_re; sw_vlan_re].
Proof. split; repeat constructor. Qed.

Lemma number_patterns :
  Forall (fun r => groups_in IC (fun _ => is_digit) r = true
                   /\ binds 1 r = true)
    [bw_re; speed_re; model_re].
Proof. repeat constructor. Qed.

Lemma address_patterns :
  Forall (fun r => groups_in IC (fun _ => digit_or_dot) r = true
                   /\ binds 1 r = true /\ binds 2 r = true)
    [ip_re; sec_ip_re].
Proof. repeat constructor. Qed.

(** The text of the first group of a search with a pattern whose groups
    hold texts of a class. *)
Lemma search_group f q r text m n :
  groups_in f (fun _ => q) r = true -> binds (S n) r = true ->
  re_search f r text = Some m -> text_of q (group_text m (S n)).
Proof.
  intros Hg Hb H.
  apply (re_search_sound f (fun _ => q)) in H as (_ & Hc & Hbound);
    [|exact Hg].
  apply (group_text_of (fun _ => q)); [exact Hc|]. apply Hbound, Hb.
Qed.

(** A stanza with a secondary address has an address. *)
Lemma secondary_has_primary block :
  is_Some (re_search IC sec_ip_re block) ->
  is_Some (re_search IC ip_re block).
Proof.
  rewrite !re_search_is_Some. intros (pre & t & -> & [m Hm]).
  exists pre, t. split; [reflexivity|].
  unfold match_at in *.
  destruct (rmatch IC sec_ip_re accept t []) as [res|] eqn:E; [|discriminate].
  assert (H : is_Some (rmatch IC ip_re accept t [])).
  { revert E. unfold sec_ip_re, ip_re. cbn [Seqs]. rewrite !rmatch_seq.
    intros E.
    eapply rmatch_mono; [|exact E]. intros s1 c1 r1 E1. rewrite rmatch_seq in *.
    eapply rmatch_mono; [|exact E1]. intros s2 c2 r2 E2. rewrite rmatch_seq in *.
    eapply rmatch_mono; [|exact E2]. intros s3 c3 r3 E3. rewrite rmatch_seq in *.
    eapply rmatch_mono; [|exact E3]. intros s4 c4 r4 E4. rewrite rmatch_seq in *.
    eapply rmatch_mono; [|exact E4]. intros s5 c5 r5 E5. rewrite rmatch_seq in *.
    eapply rmatch_mono; [|exact E5]. intros s6 c6 r6 E6. rewrite rmatch_seq in E6.
    eapply rmatch_mono; [|exact E6]. intros s7 c7 r7 E7.
    unfold accept. eauto. }
  destruct H as [[rest c] ->]. eauto.
Qed.

(* ===================================================================== *)
(** ** The shape of what the parsers record *)
(* ===================================================================== *)

(** *** Interfaces of a router *)

Lemma router_entry_shape name block :
  text_of not_space name -> router_interface_shape name (router_entry block).
Proof.
  intros Hname.
  destruct (router_entry_fields block)
    as (Hip & Hmask & Hsec & Hbw & Hdup & Hsp & Henc & Hvrf).
  unfold router_interface_shape. rewrite Hip, Hmask, Hsec, Henc, Hvrf.
  split; [exact Hname|]. split; [|split; [|split; [|split; [|split; [|split]]]]];
    try reflexivity.
  - destruct (re_search IC ip_re block) as [m|] eqn:E; simpl; [|exact I].
    split; eapply (search_group IC digit_or_dot ip_re); try exact E;
      reflexivity.
  - destruct (re_search IC sec_ip_re block) as [m|] eqn:E; simpl; [|exact I].
    exists (group_text m 1), (group_text m 2). split; [reflexivity|].
    split.
    + split; eapply (search_group IC digit_or_dot sec_ip_re); try exact E;
        reflexivity.
    + destruct (secondary_has_primary block) as [m' ->]; [eauto|].
      simpl. eauto.
  - intros v Hv. rewrite Hbw in Hv.
    destruct (re_search IC bw_re block) as [m|] eqn:E; [|discriminate].
    injection Hv as <-.
    eapply (search_group IC is_digit bw_re); try exact E; reflexivity.
  - intros v Hv. rewrite Hdup in Hv.
    destruct (re_search IC duplex_re block) as [m|] eqn:E; [|discriminate].
    injection Hv as <-.
    eapply (search_group IC not_space duplex_re); try exact E; reflexivity.
  - intros v Hv. rewrite Hsp in Hv.
    destruct (re_search IC speed_re block) as [m|] eqn:E; [|discriminate].
    injection Hv as <-.
    eapply (search_group IC is_digit speed_re); try exact E; reflexivity.
Qed.

(** The interfaces after a parse: those of the device, with the entry of
    every stanza that has a name set in the order of the stanzas. *)
Lemma router_interfaces_ind (P : list (str * RouterInterface) -> Prop) text d :
  P (r_interfaces d) ->
  (forall block m ifs,
     In (FoundText block) (re_findall DOTALL_IC interface_block_re text) ->
     re_search IC intf_name_re block = Some m ->
     P ifs -> P (dict_set (group_text m 1) (router_entry block) ifs)) ->
  P (r_interfaces (parse_router_config text d)).
Proof.
  intros Hd Hstep. unfold parse_router_config.
  rewrite (for_texts_inv r_interfaces) by reflexivity.
  rewrite (for_tuples_inv r_interfaces) by apply static_route_step_interfaces.
  rewrite (for_texts_inv r_interfaces) by apply bgp_block_step_interfaces.
  rewrite (for_texts_inv r_interfaces) by apply ospf_block_step_interfaces.
  apply (for_texts_ind (fun d' => P (r_interfaces d'))).
  - rewrite !(when_found_inv r_interfaces) by reflexivity. exact Hd.
  - intros block d' Hin IH.
    destruct (re_search IC intf_name_re block) as [m|] eqn:Hm.
    + rewrite (router_block_sets block d' m Hm). cbn [r_interfaces set_interfaces].
      eapply Hstep; eassumption.
    + rewrite (router_block_skip block d' Hm). exact IH.
Qed.

(** X1.  Every interface the router parser records on a device just created
    has a name that is not empty and free of white space.  Its address and
    mask are set together, and are texts of digits and dots; so are a
    bandwidth and a speed texts of digits and a duplex a text free of
    white space.  It has at most one secondary address, and then an
    address as well.  Its encapsulation and VRF are never set. *)
Theorem X1_router_interfaces_shape (text name : str) (i : RouterInterface) :
  In (name, i) (r_interfaces (parse_router_config text new_Router)) ->
  router_interface_shape name i.
Proof.
  revert name i.
  cut (Forall (fun p => router_interface_shape (fst p) (snd p))
         (r_interfaces (parse_router_config text new_Router))).
  { intros H name i Hin. rewrite List.Forall_forall in H. apply (H _ Hin). }
  apply router_interfaces_ind; [constructor|].
  intros block m ifs _ Hm IH. apply Forall_dict_set; [exact IH|].
  apply router_entry_shape.
  eapply (search_group IC not_space intf_name_re); try exact Hm; reflexivity.
Qed.

(** *** Interfaces of a switch *)

Lemma switch_entry_shape vs name block :
  text_of not_space name ->
  switch_interface_shape (switch_vlan block ∪ vs) name (switch_entry block).
Proof.
  intros Hname. destruct (switch_entry_fields block) as (Hmode & Hvlan).
  unfold switch_interface_shape, switch_vlan. rewrite Hmode, Hvlan.
  split; [exact Hname|]. split.
  - intros v Hv.
    destruct (re_search no_flags sw_mode_re block) as [m|] eqn:E;
      [|discriminate].
    injection Hv as <-.
    eapply (search_group no_flags not_space sw_mode_re); try exact E;
      reflexivity.
  - intros v Hv.
    destruct (re_search no_flags sw_vlan_re block) as [m|] eqn:E;
      [|discriminate].
    injection Hv as <-. split; [|set_solver].
    eapply (search_group no_flags not_space sw_vlan_re); try exact E;
      reflexivity.
Qed.

Lemma switch_interface_shape_mono vs vs' name i :
  vs ⊆ vs' -> switch_interface_shape vs name i ->
  switch_interface_shape vs' name i.
Proof.
  intros Hsub (Hn & Hm & Hv). split; [exact Hn|]. split; [exact Hm|].
  intros v H. destruct (Hv v H) as [Ht Hin]. split; [exact Ht|].
  apply Hsub, Hin.
Qed.

(** X4.  Every interface the switch parser records on a device just created
    has a name that is not empty and free of white space, and so are its
    mode and its access VLAN when set.  The access VLAN of every interface
    is among the VLANs of the switch, and every VLAN of the switch is a
    text without white space that is not empty. *)
Theorem X4_switch_interfaces_shape (text : str) :
  let d := parse_switch_config text new_Switch in
  (forall name i, In (name, i) (s_interfaces d) ->
                  switch_interface_shape (vlans d) name i) /\
  (forall v, v ∈ vlans d -> text_of not_space v).
Proof.
  cbv zeta.
  cut (Forall (fun p => switch_interface_shape
                          (vlans (parse_switch_config text new_Switch))
                          (fst p) (snd p))
         (s_interfaces (parse_switch_config text new_Switch))
       /\ (forall v, v ∈ vlans (parse_switch_config text new_Switch) ->
                     text_of not_space v)).
  { intros [H Hv]. split; [|exact Hv]. intros name i Hin.
    rewrite List.Forall_forall in H. apply (H _ Hin). }
  unfold parse_switch_config.
  apply (for_texts_ind
           (fun d => Forall (fun p => switch_interface_shape (vlans d)
                                        (fst p) (snd p)) (s_interfaces d)
                     /\ (forall v, v ∈ vlans d -> text_of not_space v))).
  - destruct (re_search no_flags sw_hostname_re text); simpl;
      (split; [constructor|set_solver]).
  - intros block d _ [IH IHv].
    destruct (re_search no_flags sw_intf_name_re block) as [m|] eqn:Hm;
      [|rewrite (switch_block_skip block d Hm); split; assumption].
    rewrite (switch_block_sets block d m Hm). cbn [s_interfaces vlans]. split.
    + apply Forall_dict_set.
      * eapply Forall_impl; [exact IH|]. intros [n i].
        apply switch_interface_shape_mono. set_solver.
      * apply (switch_entry_shape (vlans d)).
        eapply (search_group no_flags not_space sw_intf_name_re);
          try exact Hm; reflexivity.
    + intros v Hv. apply elem_of_union in Hv as [Hv|Hv]; [|apply IHv, Hv].
      unfold switch_vlan in Hv.
      destruct (re_search no_flags sw_vlan_re block) as [mv|] eqn:E;
        [|set_solver].
      apply elem_of_singleton in Hv as ->.
      eapply (search_group no_flags not_space sw_vlan_re); try exact E;
        reflexivity.
Qed.

(** *** Routes *)

Lemma static_route_item text item :
  In item (re_findall IC static_route_re text) ->
  exists m,
    item = FoundTuple [group_text m 1; group_text m 2; group_text m 3;
                       group_text m 4] /\
    text_of digit_or_dot (group_text m 1) /\
    text_of digit_or_dot (group_text m 2) /\
    text_of not_space (group_text m 3) /\
    (group_text m 4 = [] \/ text_of is_digit (group_text m 4)).
Proof.
  unfold re_findall. intros H. apply in_map_iff in H as (m & <- & Hm).
  apply (finditer_sound IC static_route_classes) in Hm as (Hc & _ & _ & Hb);
    [|reflexivity].
  exists m. split; [reflexivity|].
  split; [apply (group_text_of static_route_classes m 0 Hc), Hb; reflexivity|].
  split; [apply (group_text_of static_route_classes m 1 Hc), Hb; reflexivity|].
  split; [apply (group_text_of static_route_classes m 2 Hc), Hb; reflexivity|].
  apply (group_text_opt static_route_classes m 3 Hc).
Qed.

Lemma default_route_item text item :
  In item (re_findall IC default_route_re text) ->
  exists hop, item = FoundText hop /\ text_of not_space hop.
Proof.
  unfold re_findall. intros H. apply in_map_iff in H as (m & <- & Hm).
  apply (finditer_sound IC (fun _ => not_space)) in Hm as (Hc & _ & _ & Hb);
    [|reflexivity].
  exists (group_text m 1). split; [reflexivity|].
  apply (group_text_of (fun _ => not_space) m 0 Hc), Hb. reflexivity.
Qed.

Lemma Forall_flat_map {A B} (P : B -> Prop) (g : A -> list B) l :
  (forall x, In x l -> Forall P (g x)) -> Forall P (flat_map g l).
Proof.
  induction l as [|x l IH]; intros H; simpl; [constructor|].
  apply Forall_app. split; [apply H; left; reflexivity|].
  apply IH. intros y Hy. apply H. right. exact Hy.
Qed.

Lemma zero_address : text_of digit_or_dot (lit "0.0.0.0").
Proof. split; [discriminate|]. repeat constructor. Qed.

(** X2.  The routes of a device just created, after the parse: first the
    routes of type [static], then those of type [static_default]; none of
    type [ospf].  Network and mask of a route are texts of digits and
    dots, its next hop is a text free of white space, none of them empty;
    an admin distance is a text of digits; a route of type
    [static_default] has network and mask [0.0.0.0] and no admin
    distance. *)
Theorem X2_routes_shape (text : str) :
  exists statics defaults,
    routes (parse_router_config text new_Router) = statics ++ defaults /\
    Forall (fun r => rtype r = static /\ route_shape r) statics /\
    Forall (fun r => rtype r = static_default /\ route_shape r) defaults.
Proof.
  exists (static_routes (re_findall IC static_route_re text)),
         (default_routes (re_findall IC default_route_re text)).
  split; [apply parse_router_config_routes|]. split.
  - apply Forall_flat_map. intros item Hin.
    apply static_route_item in Hin as (m & -> & H1 & H2 & H3 & H4).
    constructor; [|constructor]. split; [reflexivity|].
    unfold route_shape. cbn [network mask next_hop area rtype admin_distance].
    split; [exact H1|]. split; [exact H2|]. split; [eauto|].
    split; [reflexivity|]. intros v Hv.
    destruct (group_text m 4) as [|x t] eqn:E; [discriminate|].
    injection Hv as <-. destruct H4 as [H4|H4]; [discriminate|exact H4].
  - apply Forall_flat_map. intros item Hin.
    apply default_route_item in Hin as (hop & -> & Hhop).
    constructor; [|constructor]. split; [reflexivity|].
    unfold route_shape. cbn [network mask next_hop area rtype admin_distance].
    split; [apply zero_address|]. split; [apply zero_address|].
    split; [eauto|]. repeat split.
Qed.

(** *** Hostnames *)

Lemma unknown_is_token : text_of not_space (lit "Unknown").
Proof. split; [discriminate|]. repeat constructor. Qed.

Lemma router_hostname_token text :
  text_of not_space (r_hostname (parse_router_config text new_Router)).
Proof.
  rewrite parse_router_config_hostname.
  destruct (re_search IC hostname_re text) as [m|] eqn:E;
    [|apply unknown_is_token].
  assert (H : text_of not_space (group_text m 1)).
  { eapply (search_group IC not_space hostname_re); try exact E; reflexivity. }
  rewrite strip_no_space; [exact H|]. apply text_of_no_space, H.
Qed.

Lemma switch_hostname_token text :
  text_of not_space (s_hostname (parse_switch_config text new_Switch)).
Proof.
  rewrite parse_switch_config_hostname.
  destruct (re_search no_flags sw_hostname_re text) as [m|] eqn:E;
    [|apply unknown_is_token].
  eapply (search_group no_flags not_space sw_hostname_re); try exact E;
    reflexivity.
Qed.

(** *** The model *)

Lemma model_group text m :
  re_search IC model_re text = Some m ->
  exists a b c d,
    group_text m 1 = [a; b; c; d] /\
    Forall (fun x => is_digit x = true) [a; b; c; d].
Proof.
  intros H. apply re_search_Some in H as (pre & t & _ & H & _).
  unfold match_at in H.
  destruct (rmatch IC model_re accept t []) as [[rest cs]|] eqn:E;
    [|discriminate].
  injection H as <-. unfold model_re in E. cbn [Seqs] in E.
  rewrite rmatch_seq, rmatch_group in E.
  rewrite !rmatch_seq in E.
  destruct t as [|a t]; [discriminate|]. cbn [rmatch one_char] in E.
  destruct (is_digit a) eqn:Ea; [|discriminate].
  destruct t as [|b t]; [discriminate|]. cbn [rmatch one_char] in E.
  destruct (is_digit b) eqn:Eb; [|discriminate].
  destruct t as [|c t]; [discriminate|]. cbn [rmatch one_char] in E.
  destruct (is_digit c) eqn:Ec; [|discriminate].
  destruct t as [|d t]; [discriminate|]. cbn [rmatch one_char] in E.
  destruct (is_digit d) eqn:Ed; [|discriminate].
  change (a :: b :: c :: d :: t) with ([a; b; c; d] ++ t) in E.
  rewrite take_length_diff in E.
  apply rmatch_groupless in E as [s' E];
    [|cbn [count_groups spaces Plus]; reflexivity].
  change (rmatch IC (Alt (Word (lit "router")) (Word (lit "series"))) accept
            s' [(1, [a; b; c; d])] = Some (rest, cs)) in E.
  apply rmatch_groupless in E as [s2 E];
    [|cbn [count_groups]; rewrite !word_groupless; reflexivity].
  unfold accept in E. injection E as _ <-.
  exists a, b, c, d. split; [reflexivity|].
  repeat constructor; assumption.
Qed.

Lemma switch_block_model block d :
  s_model (switch_block block d) = s_model d /\
  s_vendor (switch_block block d) = s_vendor d.
Proof.
  destruct (re_search no_flags sw_intf_name_re block) as [m|] eqn:Hm.
  - rewrite (switch_block_sets block d m Hm). split; reflexivity.
  - rewrite (switch_block_skip block d Hm). split; reflexivity.
Qed.

Lemma X1_router_interfaces_shape_witness :
  router_interface_shape (lit "Serial0/0")
    (MkRouterInterface None (Some (lit "10.1.1.1"))
       (Some (lit "255.255.255.252")) false None None None None None None).
Proof.
  apply (X1_router_interfaces_shape example_text).
  vm_compute. left. reflexivity.
Defined.

(* ===================================================================== *)
(** ** Stanzas that are not read, and a second parse *)
(* ===================================================================== *)

(** *** A switch stanza ends with [!] *)

Lemma finditer_needs f q r text :
  groups_in f (fun _ => any_char) r = true -> needs f q r = true ->
  Forall (fun x => q x = false) text -> re_finditer f r text = [].
Proof.
  intros Hg Hn Htext. destruct (re_finditer f r text) as [|m ms] eqn:E;
    [reflexivity|].
  assert (Hm : In m (re_finditer f r text)) by (rewrite E; left; reflexivity).
  apply (finditer_sound f (fun _ => any_char)) in Hm
    as (_ & (pre & ->) & Hneeds & _); [|exact Hg].
  apply Hneeds in Hn. apply Exists_exists in Hn as (x & Hx & Hq).
  rewrite List.Forall_forall in Htext.
  assert (Hin : In x (pre ++ m_text m ++ m_rest m)).
  { rewrite !in_app_iff. right. left.
    first [exact Hx|apply list_elem_of_In, Hx]. }
  rewrite (Htext x Hin) in Hq. discriminate.
Qed.

(** X5.  The switch parser reads an interface stanza only up to a [!]: from a
    text without [!] it records no interface and no VLAN. *)
Theorem X5_switch_stanza_needs_bang (text : str) (d : Switch) :
  ~ In "!"%char text ->
  s_interfaces (parse_switch_config text d) = s_interfaces d /\
  vlans (parse_switch_config text d) = vlans d.
Proof.
  intros Hbang. unfold parse_switch_config, re_findall.
  rewrite (finditer_needs no_flags (ascii_eqb "!")); [| reflexivity..|].
  - destruct (re_search no_flags sw_hostname_re text); split; reflexivity.
  - apply List.Forall_forall. intros x Hx.
    destruct (ascii_eqb "!" x) eqn:E; [|reflexivity].
    apply ascii_eqb_eq in E as <-. contradiction.
Qed.

(** *** The interfaces after a parse *)

Lemma parse_router_config_interfaces text d :
  r_interfaces (parse_router_config text d)
  = set_all (router_entries text) (r_interfaces d).
Proof.
  unfold parse_router_config.
  rewrite (for_texts_inv r_interfaces) by reflexivity.
  rewrite (for_tuples_inv r_interfaces) by apply static_route_step_interfaces.
  rewrite (for_texts_inv r_interfaces) by apply bgp_block_step_interfaces.
  rewrite (for_texts_inv r_interfaces) by apply ospf_block_step_interfaces.
  unfold router_entries, for_texts, set_all.
  assert (H0 : r_interfaces
                 (when_found IC model_re text
                    (fun m => set_model (lit "Cisco " ++ group_text m 1))
                    (when_found IC hostname_re text
                       (fun m => set_hostname (strip (group_text m 1))) d))
               = r_interfaces d).
  { rewrite !(when_found_inv r_interfaces) by reflexivity. reflexivity. }
  revert H0. generalize (r_interfaces d) as ifs.
  generalize (when_found IC model_re text
                (fun m => set_model (lit "Cisco " ++ group_text m 1))
                (when_found IC hostname_re text
                   (fun m => set_hostname (strip (group_text m 1))) d)) as d0.
  induction (re_findall DOTALL_IC interface_block_re text) as [|item items IH];
    intros d0 ifs H0; [exact H0|].
  cbn [fold_left flat_map]. rewrite fold_left_app.
  destruct item as [block|gs]; [|apply IH, H0].
  destruct (re_search IC intf_name_re block) as [m|] eqn:Hm.
  - apply IH. rewrite (router_block_sets block d0 m Hm).
    cbn [r_interfaces set_interfaces fold_left fst snd]. rewrite H0.
    reflexivity.
  - apply IH. rewrite (router_block_skip block d0 Hm). exact H0.
Qed.

(** *** Assigning twice *)

Lemma set_all_cons {V} k (v : V) kvs d :
  set_all ((k, v) :: kvs) d = set_all kvs (dict_set k v d).
Proof. reflexivity. Qed.

Lemma dict_get_app {V} k (a b : list (str * V)) :
  dict_get k (a ++ b)
  = match dict_get k a with Some v => Some v | None => dict_get k b end.
Proof.
  induction a as [|[k' v'] a IH]; simpl; [reflexivity|].
  destruct (str_eqb k' k); [reflexivity|exact IH].
Qed.

(** The value of a key after the assignments: that of the last assignment
    to the key, or else the value it had. *)
Lemma dict_get_set_all {V} k (kvs : list (str * V)) d :
  dict_get k (set_all kvs d)
  = match dict_get k (rev kvs) with
    | Some v => Some v
    | None => dict_get k d
    end.
Proof.
  revert d. induction kvs as [|[k0 v0] kvs IH]; intros d; [reflexivity|].
  rewrite set_all_cons, IH. cbn [rev]. rewrite dict_get_app.
  destruct (dict_get k (rev kvs)); [reflexivity|].
  cbn [dict_get]. destruct (str_eqb k0 k) eqn:E.
  - apply str_eqb_eq in E as ->. apply dict_get_set_eq.
  - apply dict_get_set_ne. apply str_eqb_neq, E.
Qed.

Lemma set_all_keys_NoDup {V} (kvs : list (str * V)) d :
  NoDup (map fst d) -> NoDup (map fst (set_all kvs d)).
Proof.
  revert d. induction kvs as [|[k v] kvs IH]; intros d H; [exact H|].
  rewrite set_all_cons. apply IH, dict_set_keys_NoDup, H.
Qed.

Lemma set_all_keeps_keys {V} (kvs : list (str * V)) d :
  (forall k, In k (map fst kvs) -> In k (map fst d)) ->
  map fst (set_all kvs d) = map fst d.
Proof.
  revert d. induction kvs as [|[k v] kvs IH]; intros d H; [reflexivity|].
  rewrite set_all_cons.
  assert (Hk : map fst (dict_set k v d) = map fst d).
  { rewrite dict_set_keys. unfold dict_has.
    rewrite bool_decide_eq_true_2; [reflexivity|].
    apply is_Some_dict_get, H. left. reflexivity. }
  rewrite IH; [exact Hk|].
  intros k' Hk'. rewrite Hk. apply H. right. exact Hk'.
Qed.

Lemma set_all_has_keys {V} (kvs : list (str * V)) d k :
  In k (map fst kvs) -> In k (map fst (set_all kvs d)).
Proof.
  intros Hin. apply is_Some_dict_get. rewrite dict_get_set_all.
  destruct (dict_get k (rev kvs)) eqn:E; [eauto|].
  apply dict_get_None in E. destruct E.
  rewrite map_rev. apply in_rev. rewrite rev_involutive. exact Hin.
Qed.

(** Two dictionaries with the same keys in the same order and the same
    value under every key are equal. *)
Lemma dict_ext {V} (a b : list (str * V)) :
  NoDup (map fst a) -> map fst a = map fst b ->
  (forall k, dict_get k a = dict_get k b) -> a = b.
Proof.
  revert b. induction a as [|[k v] a IH]; intros b Hnd Hk Hget.
  - destruct b; [reflexivity|discriminate].
  - destruct b as [|[k' v'] b]; [discriminate|].
    cbn [map fst] in Hk. injection Hk as <- Hk.
    apply NoDup_cons in Hnd as [Hnotin Hnd].
    pose proof (Hget k) as Hv. cbn [dict_get] in Hv.
    rewrite str_eqb_refl in Hv. injection Hv as <-.
    f_equal. apply IH; [exact Hnd|exact Hk|].
    intros k0. specialize (Hget k0). cbn [dict_get] in Hget.
    destruct (str_eqb k k0) eqn:E; [|exact Hget].
    apply str_eqb_eq in E as <-.
    assert (Ha : dict_get k a = None).
    { apply dict_get_None. intros H. apply Hnotin, list_elem_of_In, H. }
    assert (Hb : dict_get k b = None).
    { apply dict_get_None. rewrite <- Hk. intros H.
      apply Hnotin, list_elem_of_In, H. }
    congruence.
Qed.

Lemma set_all_twice {V} (kvs : list (str * V)) d :
  NoDup (map fst d) -> set_all kvs (set_all kvs d) = set_all kvs d.
Proof.
  intros Hnd. apply dict_ext.
  - apply set_all_keys_NoDup, set_all_keys_NoDup, Hnd.
  - apply set_all_keeps_keys. intros k. apply set_all_has_keys.
  - intros k. rewrite (dict_get_set_all k kvs (set_all kvs d)).
    rewrite (dict_get_set_all k kvs d).
    destruct (dict_get k (rev kvs)); reflexivity.
Qed.

(** *** The other fields after a parse *)

Lemma parse_router_config_model text d :
  r_model (parse_router_config text d)
  = match re_search IC model_re text with
    | Some m => lit "Cisco " ++ group_text m 1
    | None => r_model d
    end.
Proof.
  unfold parse_router_config.
  rewrite (for_texts_inv r_model) by reflexivity.
  rewrite (for_tuples_inv r_model)
    by (intros gs d'; destruct gs as [|? [|? [|? [|? [|]]]]]; reflexivity).
  rewrite (for_texts_inv r_model)
    by (intros b d'; unfold bgp_block_step; destruct re_search; reflexivity).
  rewrite (for_texts_inv r_model).
  2:{ intros b d'. unfold ospf_block_step. destruct re_search; [|reflexivity].
      rewrite (for_tuples_inv r_model); [reflexivity|].
      intros gs d''. destruct gs as [|? [|? [|? [|]]]]; reflexivity. }
  rewrite (for_texts_inv r_model).
  2:{ intros b d'. unfold router_block. destruct re_search; [|reflexivity].
      rewrite !(when_found_inv r_model) by reflexivity. reflexivity. }
  unfold when_found at 1. destruct (re_search IC model_re text); [reflexivity|].
  rewrite (when_found_inv r_model) by reflexivity. reflexivity.
Qed.

Lemma parse_router_config_vendor text d :
  r_vendor (parse_router_config text d) = r_vendor d.
Proof.
  unfold parse_router_config.
  rewrite (for_texts_inv r_vendor) by reflexivity.
  rewrite (for_tuples_inv r_vendor)
    by (intros gs d'; destruct gs as [|? [|? [|? [|? [|]]]]]; reflexivity).
  rewrite (for_texts_inv r_vendor)
    by (intros b d'; unfold bgp_block_step; destruct re_search; reflexivity).
  rewrite (for_texts_inv r_vendor).
  2:{ intros b d'. unfold ospf_block_step. destruct re_search; [|reflexivity].
      rewrite (for_tuples_inv r_vendor); [reflexivity|].
      intros gs d''. destruct gs as [|? [|? [|? [|]]]]; reflexivity. }
  rewrite (for_texts_inv r_vendor).
  2:{ intros b d'. unfold router_block. destruct re_search; [|reflexivity].
      rewrite !(when_found_inv r_vendor) by reflexivity. reflexivity. }
  rewrite !(when_found_inv r_vendor) by reflexivity. reflexivity.
Qed.

Lemma router_eq (a b : Router) :
  r_hostname a = r_hostname b -> r_vendor a = r_vendor b ->
  r_interfaces a = r_interfaces b -> r_model a = r_model b ->
  routing_protocols a = routing_protocols b -> routes a = routes b ->
  bgp_asn a = bgp_asn b -> ospf_process_id a = ospf_process_id b -> a = b.
Proof. destruct a, b. simpl. congruence. Qed.

(** X3.  Parsing a text a second time into the same device changes nothing on
    it but the routes: the routes the text gives are appended again, after
    those of the first parse.  The interfaces, the hostname and every
    other field stay as the first parse left them. *)
Theorem X3_second_parse_appends_routes (text : str) (d : Router) :
  NoDup (map fst (r_interfaces d)) ->
  let d1 := parse_router_config text d in
  routes d1 = routes d ++ routes_of_text text /\
  parse_router_config text d1
  = MkRouter (r_hostname d1) (r_vendor d1) (r_interfaces d1) (r_model d1)
      (routing_protocols d1) (routes d1 ++ routes_of_text text)
      (bgp_asn d1) (ospf_process_id d1).
Proof.
  intros Hnd d1. split; [apply parse_router_config_routes|].
  destruct (routing_blocks_never_recorded text d1) as (Hp & Ho & Hb).
  apply router_eq; cbn [r_hostname r_vendor r_interfaces r_model
                          routing_protocols routes bgp_asn ospf_process_id];
    try assumption.
  - unfold d1. rewrite !parse_router_config_hostname.
    destruct (re_search IC hostname_re text); reflexivity.
  - apply parse_router_config_vendor.
  - unfold d1. rewrite !parse_router_config_interfaces.
    apply set_all_twice, Hnd.
  - unfold d1. rewrite !parse_router_config_model.
    destruct (re_search IC model_re text); reflexivity.
  - rewrite parse_router_config_routes. unfold routes_of_text.
    reflexivity.
Qed.

(** *** The fields of a device after a parse *)

Lemma parse_switch_config_stp_mode text d :
  stp_mode (parse_switch_config text d) = stp_mode d.
Proof.
  unfold parse_switch_config. rewrite (for_texts_inv stp_mode).
  - destruct (re_search no_flags sw_hostname_re text); reflexivity.
  - intros block d'.
    destruct (re_search no_flags sw_intf_name_re block) as [m|] eqn:Hm.
    + rewrite (switch_block_sets block d' m Hm). reflexivity.
    + rewrite (switch_block_skip block d' Hm). reflexivity.
Qed.

Lemma parse_switch_config_model text d :
  s_model (parse_switch_config text d) = s_model d /\
  s_vendor (parse_switch_config text d) = s_vendor d.
Proof.
  unfold parse_switch_config.
  rewrite (for_texts_inv s_model), (for_texts_inv s_vendor);
    try (intros block d'; apply switch_block_model).
  destruct (re_search no_flags sw_hostname_re text); split; reflexivity.
Qed.

(** X6.  The fields of a device just parsed, whatever the text.  The vendor is
    [Cisco]; the hostname is not empty and has no white space in it.  The
    model of a router is [Unknown], or [Cisco] and four digits; it has no
    routing protocol, no BGP ASN and no OSPF process id.  The model of a
    switch is [Unknown] and its spanning tree mode is not set. *)
Theorem X6_parsed_device_fields (text : str) :
  let r := parse_router_config text new_Router in
  let s := parse_switch_config text new_Switch in
  (r_vendor r = lit "Cisco" /\ text_of not_space (r_hostname r) /\
   (r_model r = lit "Unknown" \/ model_shape (r_model r)) /\
   routing_protocols r = [] /\ bgp_asn r = None /\ ospf_process_id r = None)
  /\
  (s_vendor s = lit "Cisco" /\ text_of not_space (s_hostname s) /\
   s_model s = lit "Unknown" /\ stp_mode s = None).
Proof.
  cbv zeta. split.
  - destruct (routing_blocks_never_recorded text new_Router) as (Hp & Ho & Hb).
    split; [apply parse_router_config_vendor|].
    split; [apply router_hostname_token|].
    split; [|auto].
    rewrite parse_router_config_model.
    destruct (re_search IC model_re text) as [m|] eqn:E; [|left; reflexivity].
    right. apply model_group in E as (a & b & c & d & -> & H).
    exists a, b, c, d. split; [reflexivity|exact H].
  - destruct (parse_switch_config_model text new_Switch) as [Hm Hv].
    split; [exact Hv|]. split; [apply switch_hostname_token|].
    split; [exact Hm|apply parse_switch_config_stp_mode].
Qed.

Lemma X5_switch_stanza_needs_bang_witness :
  let text := unlines ["interface Gi0/1"; " switchport access vlan 10"] in
  s_interfaces (parse_switch_config text new_Switch) = [] /\
  vlans (parse_switch_config text new_Switch) = ∅.
Proof.
  apply (X5_switch_stanza_needs_bang
           (unlines ["interface Gi0/1"; " switchport access vlan 10"])
           new_Switch).
  apply not_in_text. reflexivity.
Defined.

Lemma X3_second_parse_appends_routes_witness :
  let text := lit "ip route 0.0.0.0 0.0.0.0 10.1.1.2" in
  let d1 := parse_router_config text new_Router in
  routes d1 = routes new_Router ++ routes_of_text text /\
  parse_router_config text d1
  = MkRouter (r_hostname d1) (r_vendor d1) (r_interfaces d1) (r_model d1)
      (routing_protocols d1) (routes d1 ++ routes_of_text text)
      (bgp_asn d1) (ospf_process_id d1).
Proof.
  apply (X3_second_parse_appends_routes
           (lit "ip route 0.0.0.0 0.0.0.0 10.1.1.2") new_Router).
  constructor.
Defined.

(* ===================================================================== *)
(** ** The classifier on a tie *)
(* ===================================================================== *)

Lemma occurs_inside p w s : occurs p w -> occurs w s -> occurs p s.
Proof.
  intros (a & b & ->) (pre & post & ->). exists (pre ++ a), (b ++ post).
  repeat rewrite <- app_assoc. reflexivity.
Qed.

(** X7.  On a tie of the two scores the word [description] counts as the
    routing protocol [rip], which it contains: a text with [description]
    in it, in whatever letter case, and with neither [vlan] nor
    [switchport] is classified [router]. *)
Theorem X7_description_counts_as_rip (text : str) :
  score switch_indicators (lower text) = score router_indicators (lower text) ->
  occurs_any_case (lit "description") text ->
  ~ occurs_any_case (lit "vlan") text ->
  ~ occurs_any_case (lit "switchport") text ->
  detect_device_type text = router.
Proof.
  intros Htie Hdesc Hvlan Hsw. unfold detect_device_type. cbv zeta.
  rewrite Htie, Nat.ltb_irrefl.
  assert (Hrip : contains (lit "rip") (lower text) = true).
  { apply contains_spec. apply (occurs_inside _ (lit "description")).
    - exists (lit "desc"), (lit "tion"). reflexivity.
    - apply occurs_lower, Hdesc. }
  assert (Hr : any_in ["ospf"; "bgp"; "eigrp"; "rip"] (lower text) = true).
  { unfold any_in. cbn [existsb]. rewrite Hrip, !orb_true_r. reflexivity. }
  assert (Hs : any_in ["vlan"; "switchport"] (lower text) = false).
  { unfold any_in. cbn [existsb].
    assert (contains (lit "vlan") (lower text) = false) as ->.
    { apply contains_false. rewrite occurs_lower. exact Hvlan. }
    assert (contains (lit "switchport") (lower text) = false) as ->.
    { apply contains_false. rewrite occurs_lower. exact Hsw. }
    reflexivity. }
  rewrite Hr, Hs. reflexivity.
Qed.

Lemma X7_description_counts_as_rip_witness :
  detect_device_type
    (unlines ["hostname SW1"; "interface Gi0/1"; " description Uplink to core"])
  = router.
Proof.
  apply X7_description_counts_as_rip.
  - reflexivity.
  - apply occurs_in_some_case. reflexivity.
  - apply occurs_in_no_case. reflexivity.
  - apply occurs_in_no_case. reflexivity.
Defined.

(* ===================================================================== *)
(** ** The findings of the validator *)
(* ===================================================================== *)

Lemma finding_shape types ty message component :
  In (lit ty) types -> finding_of_types types (finding ty message component).
Proof. intros H. split; [reflexivity|]. exists (lit ty). split; [reflexivity|exact H]. Qed.

Lemma validate_switch_interface_types h n props fs :
  Forall (finding_of_types (map lit ["WARNING"; "INFO"])) fs ->
  Forall (finding_of_types (map lit ["WARNING"; "INFO"]))
    (validate_switch_interface h n props fs).
Proof.
  intros H. unfold validate_switch_interface.
  repeat match goal with
  | |- context [if ?b then _ else _] => destruct b
  end;
  repeat (apply Forall_snoc; [|apply finding_shape; simpl; tauto]); exact H.
Qed.

Lemma validate_router_interface_types h n props fs :
  Forall (finding_of_types (map lit ["INFO"; "RECOMMENDATION"])) fs ->
  Forall (finding_of_types (map lit ["INFO"; "RECOMMENDATION"]))
    (validate_router_interface h n props fs).
Proof.
  intros H. unfold validate_router_interface.
  repeat match goal with
  | |- context [if ?b then _ else _] => destruct b
  end;
  repeat (apply Forall_snoc; [|apply finding_shape; simpl; tauto]); exact H.
Qed.

Lemma validate_config_types device :
  Forall (finding_of_types (finding_types device)) (validate_config device).
Proof.
  destruct device as [d|d]; unfold validate_config, finding_types.
  - apply fold_left_ind; [constructor|].
    intros fs [n props] _ H. apply validate_switch_interface_types, H.
  - assert (H : Forall (finding_of_types (map lit ["INFO"; "RECOMMENDATION"]))
                  (fold_left
                     (fun findings '(intf_name, props) =>
                        validate_router_interface (r_hostname d) intf_name
                          props findings) (r_interfaces d) [])).
    { apply fold_left_ind; [constructor|].
      intros fs [n props] _ H. apply validate_router_interface_types, H. }
    repeat match goal with
    | |- context [if ?b then _ else _] => destruct b
    end;
    repeat (apply Forall_snoc; [|apply finding_shape; simpl; tauto]); exact H.
Qed.

(** X16.  Every finding of [validate_config] is a dictionary with exactly the
    keys [type], [message] and [component]; its type is WARNING or INFO
    for a switch, INFO or RECOMMENDATION for a router, and so never
    ERROR. *)
Theorem X16_validate_config_finding_types (device : Device) (f : dict) :
  In f (validate_config device) ->
  map fst f = map lit ["type"; "message"; "component"] /\
  exists ty,
    dict_get (lit "type") f = Some ty /\ In ty (finding_types device) /\
    ty <> lit "ERROR".
Proof.
  intros Hin.
  pose proof (validate_config_types device) as H.
  rewrite List.Forall_forall in H. destruct (H f Hin) as (Hk & ty & Hty & Ht).
  split; [exact Hk|]. exists ty. repeat split; try assumption.
  intros ->. destruct device; simpl in Ht;
    repeat destruct Ht as [Ht|Ht]; try discriminate; exact Ht.
Qed.

(** X17.  An interface of a router that is shut down gives no finding: the
    findings are those of the device without its interfaces that are shut
    down. *)
Theorem X17_validate_config_skips_shutdown (d : Router) :
  validate_config (RouterDev d)
  = validate_config
      (RouterDev (set_interfaces (List.filter active (r_interfaces d)) d)).
Proof.
  unfold validate_config. cbn [r_interfaces r_hostname routing_protocols routes set_interfaces].
  rewrite fold_left_filter; [reflexivity|].
  intros fs [n props]. unfold active, validate_router_interface. simpl.
  intros H. apply negb_false_iff in H. rewrite H. simpl.
  rewrite andb_false_r. reflexivity.
Qed.

(* ===================================================================== *)
(** ** The validator on parsed devices *)
(* ===================================================================== *)

(** *** Recommendations *)

(** X19.  A switch gets a recommendation only for the spanning tree mode
    [pvst], and the switch parser never sets the mode: a switch just
    parsed gets none, whatever its text. *)
Theorem X19_parsed_switch_gets_no_recommendation (text : str) :
  generate_recommendations (SwitchDev (parse_switch_config text new_Switch))
  = [].
Proof.
  unfold generate_recommendations. rewrite parse_switch_config_stp_mode.
  reflexivity.
Qed.

(** X20.  The recommendations for a router just parsed depend on the number of
    its routes alone, since the parser records no routing protocol: above
    10 routes it is advised to implement OSPF, above 50 also BGP, whatever
    the text configures. *)
Theorem X20_parsed_router_recommendations (text : str) :
  let d := parse_router_config text new_Router in
  generate_recommendations (RouterDev d)
  = (if 10 <? List.length (routes d) then [ospf_advice (r_hostname d)]
     else [])
    ++ (if 50 <? List.length (routes d) then [bgp_advice (r_hostname d)]
        else []).
Proof.
  cbv zeta. unfold generate_recommendations.
  destruct (routing_blocks_never_recorded text new_Router) as (-> & _ & _).
  cbn [routing_protocols new_Router any_proto_has existsb negb].
  rewrite !andb_true_r.
  destruct (10 <? _), (50 <? _); reflexivity.
Qed.

(** *** The default route *)

Lemma routes_of_lines ls :
  Forall well_formed ls ->
  routes (parse_router_config (config_of_lines ls) new_Router)
  = map static_route_of ls
    ++ map default_route_of (List.filter is_default ls).
Proof.
  intros Hls. rewrite parse_router_config_routes. unfold re_findall.
  rewrite (static_matches_of_lines ls Hls), (default_matches_of_lines ls Hls).
  rewrite (static_routes_of_lines ls Hls), default_routes_of_lines.
  reflexivity.
Qed.

Lemma has_default_route_of_lines ls :
  has_default_route
    (map static_route_of ls
     ++ map default_route_of (List.filter is_default ls))
  = existsb (fun l => str_eqb (rl_network l) (lit "0.0.0.0")) ls.
Proof.
  unfold has_default_route. rewrite existsb_app, !existsb_map.
  cbn [static_route_of default_route_of network].
  destruct (existsb (fun l => str_eqb (rl_network l) (lit "0.0.0.0")) ls)
    eqn:E; [reflexivity|].
  cbn [orb]. induction ls as [|l ls IH]; [reflexivity|].
  cbn [existsb] in E. apply orb_false_iff in E as [El E].
  cbn [List.filter]. unfold is_default at 1. rewrite El. cbn [andb].
  apply IH, E.
Qed.

Lemma interface_findings_components h ifs :
  Forall (fun f => dict_get (lit "component") f <> Some (lit "Routing"))
    (fold_left
       (fun findings '(intf_name, props) =>
          validate_router_interface h intf_name props findings) ifs []).
Proof.
  apply fold_left_ind; [constructor|].
  intros fs [n props] _ H. unfold validate_router_interface.
  repeat match goal with
  | |- context [if ?b then _ else _] => destruct b
  end;
  repeat (apply Forall_snoc; [|discriminate]); exact H.
Qed.

(** X18.  A router parsed from a text of [ip route] lines is told that it has
    no default route exactly when no line has the network [0.0.0.0]; the
    mask of the line plays no part. *)
Theorem X18_default_route_finding_of_lines (ls : list route_line) :
  Forall well_formed ls ->
  let d := parse_router_config (config_of_lines ls) new_Router in
  In (no_default_route_finding (r_hostname d)) (validate_config (RouterDev d))
  <-> Forall (fun l => rl_network l <> lit "0.0.0.0") ls.
Proof.
  intros Hls d. unfold validate_config.
  assert (Hd : has_default_route (routes d)
               = existsb (fun l => str_eqb (rl_network l) (lit "0.0.0.0")) ls).
  { unfold d. rewrite (routes_of_lines ls Hls).
    apply has_default_route_of_lines. }
  rewrite Hd.
  pose proof (interface_findings_components (r_hostname d) (r_interfaces d))
    as Hifs.
  set (F := fold_left _ (r_interfaces d) []) in *.
  destruct (existsb (fun l => str_eqb (rl_network l) (lit "0.0.0.0")) ls)
    eqn:E; cbn [negb].
  - split.
    + intros Hin. exfalso.
      assert (Hin' : In (no_default_route_finding (r_hostname d)) F).
      { destruct (bool_decide (routing_protocols d = []) && _);
          [|exact Hin].
        apply in_app_iff in Hin as [Hin|[Hin|[]]]; [exact Hin|].
        discriminate. }
      rewrite List.Forall_forall in Hifs. apply (Hifs _ Hin'). reflexivity.
    + intros Hall. exfalso. apply existsb_exists in E as (l & Hl & El).
      apply str_eqb_eq in El. rewrite List.Forall_forall in Hall.
      apply (Hall l Hl El).
  - split.
    + intros _. apply List.Forall_forall. intros l Hl El.
      assert (existsb (fun l => str_eqb (rl_network l) (lit "0.0.0.0")) ls
              = true); [|congruence].
      apply existsb_exists. exists l. split; [exact Hl|].
      apply str_eqb_eq, El.
    + intros _. apply in_app_iff. right. left. reflexivity.
Qed.

Lemma X16_validate_config_finding_types_witness :
  let f := no_default_route_finding (lit "Unknown") in
  map fst f = map lit ["type"; "message"; "component"] /\
  exists ty,
    dict_get (lit "type") f = Some ty /\
    In ty (finding_types (RouterDev new_Router)) /\ ty <> lit "ERROR".
Proof.
  apply (X16_validate_config_finding_types (RouterDev new_Router)
           (no_default_route_finding (lit "Unknown"))).
  left. reflexivity.
Defined.

Lemma X18_default_route_finding_of_lines_witness :
  let ls := [RouteLine (lit "10.2.0.0") (lit "255.255.0.0") (lit "Serial0/0")
               (Some (lit "5"))] in
  let d := parse_router_config (config_of_lines ls) new_Router in
  In (no_default_route_finding (r_hostname d)) (validate_config (RouterDev d))
  <-> Forall (fun l => rl_network l <> lit "0.0.0.0") ls.
Proof.
  apply (X18_default_route_finding_of_lines
           [RouteLine (lit "10.2.0.0") (lit "255.255.0.0") (lit "Serial0/0")
              (Some (lit "5"))]).
  repeat constructor; try discriminate.
  - apply (quad_text_lit "10" "2" "0" "0"); try discriminate. reflexivity.
  - apply (quad_text_lit "255" "255" "0" "0"); try discriminate. reflexivity.
Defined.

(* ===================================================================== *)
(** ** Reading a configuration file *)
(* ===================================================================== *)

Lemma new_router_parsed text (h : store) :
  parse_router_config_at text (List.length h) (h ++ [RouterDev new_Router])
  = h ++ [RouterDev (parse_router_config text new_Router)].
Proof.
  unfold parse_router_config_at.
  rewrite list_lookup_middle by reflexivity.
  rewrite insert_app_r_alt by lia. rewrite Nat.sub_diag. reflexivity.
Qed.

Lemma new_switch_parsed text (h : store) :
  parse_switch_config_at text (List.length h) (h ++ [SwitchDev new_Switch])
  = h ++ [SwitchDev (parse_switch_config text new_Switch)].
Proof.
  unfold parse_switch_config_at.
  rewrite list_lookup_middle by reflexivity.
  rewrite insert_app_r_alt by lia. rewrite Nat.sub_diag. reflexivity.
Qed.

Lemma deref_new (h : store) d : deref (h ++ [d]) (List.length h) = d.
Proof. unfold deref. rewrite list_lookup_middle by reflexivity. reflexivity. Qed.

(** X15.  The hostname of a device that [parse_any_config] returns is not empty
    and has no white space in it: it is the token the parser read after
    [hostname], or [Unknown]. *)
Theorem X15_parse_any_config_hostname (fs : files) (file_path : str)
    (h h' : store) (r : ref) :
  parse_any_config fs file_path h = Return (Some r, h') ->
  text_of not_space (hostname (deref h' r)).
Proof.
  unfold parse_any_config.
  destruct (fs file_path) as [text|]; [|discriminate].
  destruct (strip text); [discriminate|].
  destruct (detect_device_type text); cbn [alloc];
    rewrite ?new_router_parsed, ?new_switch_parsed; try discriminate;
    intros [= <- <-]; rewrite deref_new; cbn [hostname].
  - apply router_hostname_token.
  - apply switch_hostname_token.
Qed.

Lemma X15_parse_any_config_hostname_witness :
  let text := unlines ["hostname R1"; "router ospf 1"] in
  text_of not_space
    (hostname (deref [RouterDev (parse_router_config text new_Router)] 0)).
Proof.
  apply (X15_parse_any_config_hostname
           (fun _ => Some (unlines ["hostname R1"; "router ospf 1"]))
           (lit "r1.cfg") []).
  vm_compute. reflexivity.
Defined.

(* ===================================================================== *)
(** ** The health score and the improvement plan *)
(* ===================================================================== *)

(** *** The health score *)

Lemma health_step_value f score sev :
  severity_of f = Some sev ->
  health_step f score
  = Return (score
            - 20 * count_severity "CRITICAL" [f]
            - 10 * count_severity "HIGH" [f]
            - 5 * count_severity "MEDIUM" [f])%Z.
Proof.
  intros H. unfold health_step, subscript, count_severity. cbn [List.filter].
  unfold severity_of in *. rewrite H. cbn [bind].
  destruct (str_eqb sev (lit "CRITICAL")) eqn:E1.
  { apply str_eqb_eq in E1 as ->. simpl. f_equal. lia. }
  destruct (str_eqb sev (lit "HIGH")) eqn:E2.
  { apply str_eqb_eq in E2 as ->. simpl. f_equal. lia. }
  destruct (str_eqb sev (lit "MEDIUM")) eqn:E3.
  { apply str_eqb_eq in E3 as ->. simpl. f_equal. lia. }
  simpl. f_equal. lia.
Qed.

Lemma count_severity_cons sev f fs :
  count_severity sev (f :: fs)
  = (count_severity sev [f] + count_severity sev fs)%Z.
Proof.
  unfold count_severity. cbn [List.filter].
  destruct (match severity_of f with Some s => str_eqb s (lit sev) | None => false end);
    cbn [List.length]; lia.
Qed.

Lemma count_severity_nonneg sev fs : (0 <= count_severity sev fs)%Z.
Proof. unfold count_severity. lia. Qed.

Lemma health_loop fs score :
  Forall has_severity fs ->
  for_each fs health_step score
  = Return (score
            - 20 * count_severity "CRITICAL" fs
            - 10 * count_severity "HIGH" fs
            - 5 * count_severity "MEDIUM" fs)%Z.
Proof.
  intros H. revert score. induction H as [|f fs [sev Hf] _ IH]; intros score.
  - simpl. f_equal. unfold count_severity. simpl. lia.
  - cbn [for_each]. rewrite (health_step_value f score sev Hf). cbn [bind].
    rewrite IH. f_equal.
    rewrite (count_severity_cons "CRITICAL" f fs),
      (count_severity_cons "HIGH" f fs), (count_severity_cons "MEDIUM" f fs).
    lia.
Qed.

Lemma health_loop_returns fs score s :
  for_each fs health_step score = Return s -> Forall has_severity fs.
Proof.
  revert score. induction fs as [|f fs IH]; intros score H; [constructor|].
  cbn [for_each] in H. unfold health_step at 1, subscript in H.
  destruct (dict_get (lit "severity") f) as [sev|] eqn:E; [|discriminate].
  constructor; [exists sev; exact E|].
  cbn [bind] in H.
  destruct (str_eqb sev (lit "CRITICAL"));
    [|destruct (str_eqb sev (lit "HIGH"));
      [|destruct (str_eqb sev (lit "MEDIUM"))]];
    cbn [bind] in H; eapply IH; exact H.
Qed.

Lemma health_loop_raises fs score :
  ~ Forall has_severity fs ->
  for_each fs health_step score = Raise (KeyError (lit "severity")).
Proof.
  revert score. induction fs as [|f fs IH]; intros score H.
  - destruct H. constructor.
  - cbn [for_each]. unfold health_step at 1, subscript.
    destruct (dict_get (lit "severity") f) as [sev|] eqn:E; [|reflexivity].
    assert (Hfs : ~ Forall has_severity fs).
    { intros Hfs. apply H. constructor; [exists sev; exact E|exact Hfs]. }
    cbn [bind].
    destruct (str_eqb sev (lit "CRITICAL"));
      [|destruct (str_eqb sev (lit "HIGH"));
        [|destruct (str_eqb sev (lit "MEDIUM"))]];
      cbn [bind]; apply IH, Hfs.
Qed.

(** X21.  [generate_health_score] returns exactly when every finding has a
    severity, and raises [KeyError] otherwise.  The score is 100 less 20
    for a CRITICAL, 10 for a HIGH and 5 for a MEDIUM finding, and 0 when
    that falls below 0: it lies between 0 and 100. *)
Theorem X21_health_score_value (data : network_data) (fs : list dict) :
  dict_get (lit "findings") data = Some fs ->
  (Forall has_severity fs ->
   generate_health_score data
   = Return (Z.max 0 (100 - 20 * count_severity "CRITICAL" fs
                          - 10 * count_severity "HIGH" fs
                          - 5 * count_severity "MEDIUM" fs))) /\
  (~ Forall has_severity fs ->
   generate_health_score data = Raise (KeyError (lit "severity"))) /\
  (forall s, generate_health_score data = Return s ->
             Forall has_severity fs /\ (0 <= s <= 100)%Z).
Proof.
  intros Hd. unfold generate_health_score, subscript. rewrite Hd. cbn [bind].
  split; [|split].
  - intros H. rewrite (health_loop fs _ H). reflexivity.
  - intros H. rewrite (health_loop_raises fs _ H). reflexivity.
  - intros s H.
    destruct (for_each fs health_step 100%Z) as [s0|e] eqn:E; [|discriminate].
    apply health_loop_returns in E as Hfs. split; [exact Hfs|].
    rewrite (health_loop fs _ Hfs) in E. cbn [bind] in H.
    injection H as <-. injection E as <-.
    pose proof (count_severity_nonneg "CRITICAL" fs).
    pose proof (count_severity_nonneg "HIGH" fs).
    pose proof (count_severity_nonneg "MEDIUM" fs).
    lia.
Qed.

(** *** The improvement plan *)

Lemma of_severity_cons k f fs :
  of_severity k (f :: fs) = of_severity k [f] ++ of_severity k fs.
Proof.
  unfold of_severity. cbn [List.filter].
  destruct (match severity_of f with Some s => str_eqb (lower s) k | None => false end);
    reflexivity.
Qed.

Lemma plan_step_plannable f c h m l :
  plannable f ->
  plan_step f (plan4 c h m l)
  = Return (plan4 (c ++ map entry_of (of_severity (lit "critical") [f]))
                  (h ++ map entry_of (of_severity (lit "high") [f]))
                  (m ++ map entry_of (of_severity (lit "medium") [f]))
                  (l ++ map entry_of (of_severity (lit "low") [f]))).
Proof.
  intros (sev & Hsev & Hin & [desc Hdesc]).
  unfold plan_step, subscript, of_severity, entry_of. cbn [List.filter].
  unfold severity_of in *. rewrite Hsev, Hdesc. cbn [bind default].
  unfold plan_keys in Hin. cbn [map In] in Hin.
  destruct Hin as [E|[E|[E|[E|[]]]]]; rewrite <- E; simpl in *;
    rewrite ?Hsev, ?Hdesc; simpl; rewrite ?app_nil_r; reflexivity.
Qed.

Lemma plan_loop fs c h m l :
  Forall plannable fs ->
  for_each fs plan_step (plan4 c h m l)
  = Return (plan4 (c ++ map entry_of (of_severity (lit "critical") fs))
                  (h ++ map entry_of (of_severity (lit "high") fs))
                  (m ++ map entry_of (of_severity (lit "medium") fs))
                  (l ++ map entry_of (of_severity (lit "low") fs))).
Proof.
  intros H. revert c h m l. induction H as [|f fs Hf _ IH]; intros c h m l.
  - simpl. rewrite !app_nil_r. reflexivity.
  - cbn [for_each]. rewrite (plan_step_plannable f c h m l Hf). cbn [bind].
    rewrite IH.
    rewrite (of_severity_cons (lit "critical") f fs),
      (of_severity_cons (lit "high") f fs),
      (of_severity_cons (lit "medium") f fs),
      (of_severity_cons (lit "low") f fs).
    rewrite !map_app, !app_assoc. reflexivity.
Qed.

Lemma plan_step_returns f c h m l p :
  plan_step f (plan4 c h m l) = Return p -> plannable f.
Proof.
  unfold plan_step, subscript, plannable, severity_of.
  destruct (dict_get (lit "severity") f) as [sev|]; [|discriminate].
  cbn [bind]. intros H. exists sev. split; [reflexivity|].
  destruct (dict_get (lower sev) (plan4 c h m l)) as [b|] eqn:Eb;
    [|discriminate].
  cbn [bind] in H.
  destruct (dict_get (lit "description") f) as [desc|]; [|discriminate].
  split; [|eauto].
  unfold plan4 in Eb. cbn [dict_get] in Eb. unfold plan_keys. cbn [map In].
  destruct (str_eqb (lit "critical") (lower sev)) eqn:E1;
    [apply str_eqb_eq in E1; tauto|].
  destruct (str_eqb (lit "high") (lower sev)) eqn:E2;
    [apply str_eqb_eq in E2; tauto|].
  destruct (str_eqb (lit "medium") (lower sev)) eqn:E3;
    [apply str_eqb_eq in E3; tauto|].
  destruct (str_eqb (lit "low") (lower sev)) eqn:E4;
    [apply str_eqb_eq in E4; tauto|].
  discriminate.
Qed.

Lemma plan_loop_returns fs c h m l p :
  for_each fs plan_step (plan4 c h m l) = Return p -> Forall plannable fs.
Proof.
  revert c h m l. induction fs as [|f fs IH]; intros c h m l H; [constructor|].
  cbn [for_each] in H.
  destruct (plan_step f (plan4 c h m l)) as [p1|e] eqn:E; [|discriminate].
  pose proof (plan_step_returns f c h m l p1 E) as Hf.
  rewrite (plan_step_plannable f c h m l Hf) in E. injection E as <-.
  cbn [bind] in H. constructor; [exact Hf|]. eapply IH, H.
Qed.

(** X22.  [generate_improvement_plan] returns exactly when every finding has a
    description and a severity that in lower case is one of [critical],
    [high], [medium] and [low].  The plan then holds one entry for every
    finding, under its severity and in the order of the findings. *)
Theorem X22_improvement_plan_sorts (data : network_data) (fs : list dict) :
  dict_get (lit "findings") data = Some fs ->
  (Forall plannable fs ->
   generate_improvement_plan data = Return (plan_of fs)) /\
  (forall p, generate_improvement_plan data = Return p ->
             Forall plannable fs).
Proof.
  intros Hd. unfold generate_improvement_plan, subscript. rewrite Hd.
  cbn [bind]. change empty_plan with (plan4 [] [] [] []). split.
  - intros H. rewrite (plan_loop fs _ _ _ _ H). reflexivity.
  - intros p H. eapply plan_loop_returns, H.
Qed.

(** *** The findings of the validator *)

(** X23.  The findings of [validate_config] have no severity: both methods
    raise [KeyError] on any list of them that is not empty. *)
Theorem X23_validator_findings_have_no_severity
    (devices : list Device) (data : network_data) :
  dict_get (lit "findings") data = Some (flat_map validate_config devices) ->
  flat_map validate_config devices <> [] ->
  generate_health_score data = Raise (KeyError (lit "severity")) /\
  generate_improvement_plan data = Raise (KeyError (lit "severity")).
Proof.
  intros Hd Hne.
  assert (Hall : Forall (fun f => severity_of f = None)
                   (flat_map validate_config devices)).
  { apply List.Forall_forall. intros f Hf.
    apply in_flat_map in Hf as (device & _ & Hf).
    pose proof (validate_config_types device) as H.
    rewrite List.Forall_forall in H. destruct (H f Hf) as [Hk _].
    unfold severity_of.
    destruct f as [|[k1 v1] [|[k2 v2] [|[k3 v3] [|]]]]; try discriminate.
    injection Hk as -> -> ->. reflexivity. }
  unfold generate_health_score, generate_improvement_plan, subscript.
  rewrite Hd. cbn [bind].
  destruct (flat_map validate_config devices) as [|f fs]; [congruence|].
  inversion Hall as [|? ? Hf _]; subst.
  unfold severity_of in Hf.
  cbn [for_each]. unfold health_step at 1, plan_step at 1, subscript.
  rewrite Hf. split; reflexivity.
Qed.

Lemma X21_health_score_value_witness :
  generate_health_score
    [(lit "findings",
      [[(lit "severity", lit "HIGH")]; [(lit "severity", lit "CRITICAL")];
       [(lit "severity", lit "LOW")]])]
  = Return 70%Z.
Proof.
  refine (proj1 (X21_health_score_value
                   [(lit "findings",
                     [[(lit "severity", lit "HIGH")];
                      [(lit "severity", lit "CRITICAL")];
                      [(lit "severity", lit "LOW")]])] _ eq_refl) _).
  repeat constructor; eexists; reflexivity.
Defined.

Lemma X22_improvement_plan_sorts_witness :
  let fs := [[(lit "severity", lit "High"); (lit "description", lit "x")];
             [(lit "severity", lit "LOW"); (lit "description", lit "y");
              (lit "fix", lit "z")]] in
  generate_improvement_plan [(lit "findings", fs)] = Return (plan_of fs).
Proof.
  refine (proj1 (X22_improvement_plan_sorts
                   [(lit "findings",
                     [[(lit "severity", lit "High");
                       (lit "description", lit "x")];
                      [(lit "severity", lit "LOW");
                       (lit "description", lit "y"); (lit "fix", lit "z")]])]
                   _ eq_refl) _).
  repeat constructor;
    eexists; (split; [reflexivity|]); (split; [|eexists; reflexivity]);
    vm_compute; tauto.
Defined.

Lemma X23_validator_findings_have_no_severity_witness :
  let data := [(lit "findings", validate_config (RouterDev new_Router))] in
  generate_health_score data = Raise (KeyError (lit "severity")) /\
  generate_improvement_plan data = Raise (KeyError (lit "severity")).
Proof.
  apply (X23_validator_findings_have_no_severity [RouterDev new_Router]
           [(lit "findings", validate_config (RouterDev new_Router))]).
  - reflexivity.
  - discriminate.
Defined.

(* ===================================================================== *)
(** ** The layouts of the drawing *)
(* ===================================================================== *)

(** *** Grouping the nodes by type *)

Lemma of_type_cons ty p ns :
  of_type ty (p :: ns) = of_type ty [p] ++ of_type ty ns.
Proof.
  unfold of_type. cbn [List.filter].
  destruct (str_eqb (node_type (snd p)) ty); reflexivity.
Qed.

Lemma group_node_known n attr r s o :
  In (node_type attr) layer_names ->
  group_node (n, attr) (by_type3 r s o)
  = Return (by_type3 (r ++ of_type (lit "Router") [(n, attr)])
                     (s ++ of_type (lit "Switch") [(n, attr)])
                     (o ++ of_type (lit "Other") [(n, attr)])).
Proof.
  intros Hin. unfold group_node, of_type. cbn [List.filter snd].
  change (default (lit "Other") (n_type attr)) with (node_type attr).
  unfold layer_names in Hin. cbn [map In] in Hin.
  destruct Hin as [E|[E|[E|[]]]]; rewrite <- E; simpl;
    rewrite ?app_nil_r; reflexivity.
Qed.

Lemma group_node_unknown n attr r s o :
  ~ In (node_type attr) layer_names ->
  group_node (n, attr) (by_type3 r s o) = Raise (KeyError (node_type attr)).
Proof.
  intros Hin. unfold group_node, subscript.
  change (default (lit "Other") (n_type attr)) with (node_type attr).
  assert (dict_get (node_type attr) (by_type3 r s o) = None) as ->;
    [|reflexivity].
  apply dict_get_None. exact Hin.
Qed.

Lemma group_loop ns r s o :
  Forall (fun p => In (node_type (snd p)) layer_names) ns ->
  for_each ns group_node (by_type3 r s o)
  = Return (by_type3 (r ++ of_type (lit "Router") ns)
                     (s ++ of_type (lit "Switch") ns)
                     (o ++ of_type (lit "Other") ns)).
Proof.
  intros H. revert r s o.
  induction H as [|[n attr] ns Hp _ IH]; intros r s o.
  - simpl. rewrite !app_nil_r. reflexivity.
  - cbn [for_each]. rewrite (group_node_known n attr r s o Hp). cbn [bind].
    rewrite IH.
    rewrite (of_type_cons (lit "Router") (n, attr) ns),
      (of_type_cons (lit "Switch") (n, attr) ns),
      (of_type_cons (lit "Other") (n, attr) ns).
    rewrite !app_assoc. reflexivity.
Qed.

Lemma group_loop_raises before n attr after r s o :
  Forall (fun p => In (node_type (snd p)) layer_names) before ->
  ~ In (node_type attr) layer_names ->
  for_each (before ++ (n, attr) :: after) group_node (by_type3 r s o)
  = Raise (KeyError (node_type attr)).
Proof.
  intros H Hn. revert r s o.
  induction H as [|[n0 attr0] ns Hp _ IH]; intros r s o.
  - cbn [app for_each]. rewrite (group_node_unknown n attr r s o Hn).
    reflexivity.
  - cbn [app for_each]. rewrite (group_node_known n0 attr0 r s o Hp).
    cbn [bind]. apply IH.
Qed.

(** *** Placing a layer *)

Lemma place_from (step y : Z) (names : list str) a (pos : layout) :
  NoDup names -> (forall n, In n names -> ~ In n (map fst pos)) ->
  fold_left
    (fun pos '(i, node) => dict_set node ((Z.of_nat i * step)%Z, y) pos)
    (combine (seq a (List.length names)) names) pos
  = pos ++ map (fun '(i, n) => (n, ((Z.of_nat i * step)%Z, y)))
             (combine (seq a (List.length names)) names).
Proof.
  revert a pos. induction names as [|n names IH]; intros a pos Hnd Hfresh.
  - simpl. rewrite app_nil_r. reflexivity.
  - apply NoDup_cons in Hnd as [Hn Hnd].
    cbn [List.length seq combine fold_left map].
    rewrite dict_set_fresh by (apply Hfresh; left; reflexivity).
    rewrite IH; [rewrite <- app_assoc; reflexivity|exact Hnd|].
    intros n' Hin. rewrite map_app, in_app_iff. simpl.
    intros [H|[H|[]]].
    + apply (Hfresh n'); [right; exact Hin|exact H].
    + subst n'. apply Hn, list_elem_of_In, Hin.
Qed.

Lemma place_layer_fresh (step y : Z) (names : list str) (pos : layout) :
  NoDup names -> (forall n, In n names -> ~ In n (map fst pos)) ->
  place_layer step y names pos = pos ++ layer step y names.
Proof. apply place_from. Qed.

Lemma layer_keys (step y : Z) (names : list str) : map fst (layer step y names) = names.
Proof.
  unfold layer, enumerate. generalize 0 as a.
  induction names as [|n names IH]; intros a; [reflexivity|].
  cbn [List.length seq combine map fst]. f_equal. apply IH.
Qed.

Lemma in_layer (step y : Z) (names : list str) n p :
  In (n, p) (layer step y names) ->
  exists i, names !! i = Some n /\ p = ((Z.of_nat i * step)%Z, y).
Proof.
  unfold layer. intros H. apply in_map_iff in H as ([i n'] & E & Hin).
  injection E as -> <-. apply in_enumerate in Hin. eauto.
Qed.

(** *** Nodes of a type *)

Lemma in_of_type ty ns n :
  In n (of_type ty ns) <-> exists attr, In (n, attr) ns /\ node_type attr = ty.
Proof.
  unfold of_type. rewrite in_map_iff. split.
  - intros ([n' attr] & <- & H). apply filter_In in H as [Hin E].
    apply str_eqb_eq in E. eauto.
  - intros (attr & Hin & E). exists (n, attr). split; [reflexivity|].
    apply filter_In. split; [exact Hin|]. apply str_eqb_eq. exact E.
Qed.

Lemma of_type_NoDup ty ns : NoDup (map fst ns) -> NoDup (of_type ty ns).
Proof.
  unfold of_type. induction ns as [|[n attr] ns IH]; simpl; [constructor|].
  intros H. apply NoDup_cons in H as [Hn H].
  destruct (str_eqb (node_type attr) ty); [|apply IH, H].
  simpl. apply NoDup_cons. split; [|apply IH, H].
  intros Hin. apply Hn. apply list_elem_of_In in Hin. apply list_elem_of_In.
  apply in_map_iff in Hin as (p & <- & Hp). apply filter_In in Hp as [Hp _].
  apply in_map, Hp.
Qed.

Lemma one_type ns n ty ty' :
  NoDup (map fst ns) -> In n (of_type ty ns) -> In n (of_type ty' ns) ->
  ty = ty'.
Proof.
  intros Hnd H H'. apply in_of_type in H as (attr & Hin & <-).
  apply in_of_type in H' as (attr' & Hin' & <-).
  apply (In_dict_get _ _ _ Hnd) in Hin, Hin'. congruence.
Qed.

Lemma by_type3_get r s o :
  subscript (by_type3 r s o) (lit "Router") = Return r /\
  subscript (by_type3 r s o) (lit "Switch") = Return s /\
  subscript (by_type3 r s o) (lit "Other") = Return o.
Proof. repeat split. Qed.

(** The layout of a graph whose nodes are routers, switches and others:
    the routers in a row, then the switches, then the others. *)
Lemma create_intelligent_layout_layers g :
  NoDup (node_names g) ->
  Forall (fun p => In (node_type (snd p)) layer_names) (nodes g) ->
  create_intelligent_layout g
  = Return (layer 4 6 (of_type (lit "Router") (nodes g))
            ++ layer 3 4 (of_type (lit "Switch") (nodes g))
            ++ layer 2 2 (of_type (lit "Other") (nodes g))).
Proof.
  intros Hnd Hty. unfold create_intelligent_layout.
  change [(lit "Router", []); (lit "Switch", []); (lit "Other", [])]
    with (by_type3 [] [] []).
  rewrite (group_loop _ _ _ _ Hty). cbn [bind app].
  destruct (by_type3_get (of_type (lit "Router") (nodes g))
              (of_type (lit "Switch") (nodes g))
              (of_type (lit "Other") (nodes g))) as (-> & -> & ->).
  cbn [bind].
  rewrite (place_layer_fresh 4 6 _ []);
    [|apply of_type_NoDup, Hnd|intros n _ H; exact H].
  cbn [app]. change (6 - 2)%Z with 4%Z. change (6 - 4)%Z with 2%Z.
  rewrite (place_layer_fresh 3 4); [|apply of_type_NoDup, Hnd|].
  2:{ intros n H. rewrite layer_keys. intros H'.
      pose proof (one_type _ _ _ _ Hnd H H'). discriminate. }
  rewrite (place_layer_fresh 2 2); [|apply of_type_NoDup, Hnd|].
  2:{ intros n H. rewrite map_app, !layer_keys, in_app_iff. intros [H'|H'];
        pose proof (one_type _ _ _ _ Hnd H H'); discriminate. }
  rewrite <- app_assoc. reflexivity.
Qed.

Lemma layers_keys_NoDup ns :
  NoDup (map fst ns) ->
  NoDup (map fst (layer 4 6 (of_type (lit "Router") ns)
                  ++ layer 3 4 (of_type (lit "Switch") ns)
                  ++ layer 2 2 (of_type (lit "Other") ns))).
Proof.
  intros Hnd. rewrite !map_app, !layer_keys.
  apply NoDup_app. repeat split; [apply of_type_NoDup, Hnd| |].
  - intros n H H'. apply list_elem_of_In in H.
    apply elem_of_app in H' as [H'|H']; apply list_elem_of_In in H';
      pose proof (one_type _ _ _ _ Hnd H H'); discriminate.
  - apply NoDup_app. repeat split; try apply of_type_NoDup, Hnd.
    intros n H H'. apply list_elem_of_In in H, H'.
    pose proof (one_type _ _ _ _ Hnd H H'). discriminate.
Qed.

Lemma in_layer_unique (step y : Z) (names : list str) n n' p :
  (0 < step)%Z ->
  In (n, p) (layer step y names) -> In (n', p) (layer step y names) -> n = n'.
Proof.
  intros Hs H H'. apply in_layer in H as (i & Hi & ->).
  apply in_layer in H' as (i' & Hi' & E). injection E as E.
  assert (i = i') as -> by nia. congruence.
Qed.

(** No two nodes of the layers share a position. *)
Lemma layers_injective ns n n' p :
  let pos := layer 4 6 (of_type (lit "Router") ns)
             ++ layer 3 4 (of_type (lit "Switch") ns)
             ++ layer 2 2 (of_type (lit "Other") ns) in
  In (n, p) pos -> In (n', p) pos -> n = n'.
Proof.
  intros pos H H'. unfold pos in *. rewrite !in_app_iff in H, H'.
  destruct H as [H|[H|H]], H' as [H'|[H'|H']];
    try (eapply in_layer_unique; [|exact H|exact H']; lia);
    apply in_layer in H as (i & _ & ->);
    apply in_layer in H' as (i' & _ & E); discriminate.
Qed.

(** *** The graph of [build_topology] *)

Lemma add_nodes_device_nodes device_list st :
  NoDup (node_names (G st)) /\ Forall device_node (nodes (G st)) ->
  NoDup (node_names (G (add_nodes device_list st))) /\
  Forall device_node (nodes (G (add_nodes device_list st))).
Proof.
  intros H. unfold add_nodes.
  apply (fold_left_ind
           (fun s => NoDup (node_names (G s)) /\
                     Forall device_node (nodes (G s)))); [exact H|].
  intros s r _ [Hnd Hty]. unfold node_names, on_graph, add_node.
  cbn [G nodes]. split; [apply dict_set_keys_NoDup, Hnd|].
  apply Forall_dict_set; [exact Hty|].
  unfold device_node. cbn [snd n_type].
  destruct (deref (devices s) r); [right|left]; reflexivity.
Qed.

Lemma build_topology_device_nodes device_list h :
  NoDup (node_names (G (build_topology device_list h))) /\
  Forall device_node (nodes (G (build_topology device_list h))).
Proof.
  unfold node_names. rewrite build_topology_nodes.
  apply add_nodes_device_nodes. split; constructor.
Qed.

Lemma device_node_known p :
  device_node p -> In (node_type (snd p)) layer_names.
Proof.
  unfold device_node, node_type, layer_names.
  intros [-> | ->]; simpl; tauto.
Qed.

(** X11.  The drawing of a graph of [build_topology] gets a generated layout
    without fail: [create_intelligent_layout] returns a layout that has a
    position for exactly the nodes of the graph, no two nodes at the same
    position, the routers at height 6 and the switches at height 4. *)
Theorem X11_layout_of_built_graph (device_list : list ref) (h : store) :
  let g := G (build_topology device_list h) in
  exists pos,
    create_intelligent_layout g = Return pos /\
    (forall n, In n (node_names g) <-> is_Some (dict_get n pos)) /\
    (forall n n' p,
       dict_get n pos = Some p -> dict_get n' pos = Some p -> n = n') /\
    (forall n attr x y,
       In (n, attr) (nodes g) -> dict_get n pos = Some (x, y) ->
       (n_type attr = Some (lit "Router") /\ y = 6%Z) \/
       (n_type attr = Some (lit "Switch") /\ y = 4%Z)).
Proof.
  intros g. destruct (build_topology_device_nodes device_list h) as [Hnd Hdev].
  fold g in Hnd, Hdev.
  assert (Hty : Forall (fun p => In (node_type (snd p)) layer_names) (nodes g)).
  { eapply Forall_impl; [exact Hdev|]. intros p. apply device_node_known. }
  eexists. split; [apply create_intelligent_layout_layers; assumption|].
  rewrite List.Forall_forall in Hdev, Hty.
  split; [|split].
  - intros n. rewrite is_Some_dict_get, !map_app, !layer_keys, !in_app_iff.
    rewrite !in_of_type. unfold node_names. rewrite in_map_iff. split.
    + intros ([n' attr] & <- & Hin). pose proof (Hty _ Hin) as Ht.
      unfold layer_names in Ht. cbn [snd map In] in Ht.
      destruct Ht as [E|[E|[E|[]]]]; eauto 6.
    + intros [H|[H|H]]; destruct H as (attr & Hin & _);
        exists (n, attr); split; auto.
  - intros n n' p H H'. apply dict_get_In in H, H'.
    eapply layers_injective; eassumption.
  - intros n attr x y Hin H. apply dict_get_In in H.
    pose proof (Hdev _ Hin) as Ht. unfold device_node in Ht. cbn [snd] in Ht.
    rewrite !in_app_iff in H.
    assert (Hone : forall ty l, In (n, (x, y)) l ->
                     map fst l = of_type ty (nodes g) -> node_type attr = ty).
    { intros ty l Hl Hk. apply (in_map fst) in Hl. rewrite Hk in Hl.
      apply in_of_type in Hl as (attr' & Hin' & <-).
      apply (In_dict_get _ _ _ Hnd) in Hin, Hin'. cbn [fst] in Hin'.
      congruence. }
    destruct H as [H|[H|H]].
    + pose proof (Hone _ _ H (layer_keys _ _ _)) as E.
      apply in_layer in H as (i & _ & [= _ ->]).
      left. split; [|reflexivity].
      unfold node_type in E. destruct Ht as [Ht|Ht]; rewrite Ht in E |- *;
        [reflexivity|discriminate].
    + pose proof (Hone _ _ H (layer_keys _ _ _)) as E.
      apply in_layer in H as (i & _ & [= _ ->]).
      right. split; [|reflexivity].
      unfold node_type in E. destruct Ht as [Ht|Ht]; rewrite Ht in E |- *;
        [discriminate|reflexivity].
    + pose proof (Hone _ _ H (layer_keys _ _ _)) as E.
      unfold node_type in E. destruct Ht as [Ht|Ht]; rewrite Ht in E;
        discriminate.
Qed.

(** X12.  A node whose type is none of [Router], [Switch] and [Other] makes
    [create_intelligent_layout] raise [KeyError] with that type, when the
    nodes before it have types of the three; a node without a type counts
    as [Other]. *)
Theorem X12_layout_of_unknown_type (g : Graph) before n attr after :
  nodes g = before ++ (n, attr) :: after ->
  Forall (fun p => In (node_type (snd p)) layer_names) before ->
  ~ In (node_type attr) layer_names ->
  create_intelligent_layout g = Raise (KeyError (node_type attr)).
Proof.
  intros Hg Hb Hn. unfold create_intelligent_layout. rewrite Hg.
  change [(lit "Router", []); (lit "Switch", []); (lit "Other", [])]
    with (by_type3 [] [] []).
  rewrite (group_loop_raises _ _ _ _ _ _ _ Hb Hn). reflexivity.
Qed.

(** *** The custom layouts *)

Lemma forallb_false_ex {A} (p : A -> bool) l :
  forallb p l = false -> exists x, In x l /\ p x = false.
Proof.
  induction l as [|a l IH]; simpl; [discriminate|].
  destruct (p a) eqn:E; simpl.
  - intros H. destruct (IH H) as (x & Hx & Hp). eauto.
  - intros _. eauto.
Qed.

(** X13.  A custom layout that [try_load_custom_layout] returns has a position
    for every node of the graph.  It is the layout of core, distribution
    and access whenever that one has them all; the layout of hub and spoke
    is returned only for a graph with a node [R3]. *)
Theorem X13_custom_layout_choice (g : Graph) (pos : layout) :
  try_load_custom_layout g = Some pos ->
  (forall n, In n (node_names g) -> is_Some (dict_get n pos)) /\
  (pos = core_distribution_access \/
   (pos = hub_spoke /\ In (lit "R3") (node_names g))).
Proof.
  unfold try_load_custom_layout, custom_layouts. cbn [find].
  destruct (forallb (fun node => dict_has node core_distribution_access)
              (node_names g)) eqn:E1.
  - intros [= <-]. split; [|left; reflexivity].
    rewrite forallb_forall in E1. intros n Hn.
    pose proof (E1 n Hn) as H. apply bool_decide_eq_true in H. exact H.
  - destruct (forallb (fun node => dict_has node hub_spoke) (node_names g))
      eqn:E2; [|discriminate].
    intros [= <-]. rewrite forallb_forall in E2. split.
    + intros n Hn.
      pose proof (E2 n Hn) as H. apply bool_decide_eq_true in H. exact H.
    + right. split; [reflexivity|].
      apply forallb_false_ex in E1 as (n & Hn & Hc).
      pose proof (E2 n Hn) as Hh. apply bool_decide_eq_true in Hh.
      apply is_Some_dict_get in Hh. cbn [hub_spoke position map fst In] in Hh.
      destruct Hh as [<-|[<-|[<-|[<-|[]]]]];
        try (vm_compute in Hc; discriminate).
      exact Hn.
Qed.

Lemma X12_layout_of_unknown_type_witness :
  create_intelligent_layout
    (MkGraph [(lit "FW1", MkNodeAttr (Some (lit "Firewall")) None)] [])
  = Raise (KeyError (lit "Firewall")).
Proof.
  apply (X12_layout_of_unknown_type
           (MkGraph [(lit "FW1", MkNodeAttr (Some (lit "Firewall")) None)] [])
           [] (lit "FW1") (MkNodeAttr (Some (lit "Firewall")) None) []).
  - reflexivity.
  - constructor.
  - intros [H|[H|[H|[]]]]; discriminate H.
Defined.

Lemma X13_custom_layout_choice_witness :
  let g := MkGraph [(lit "R3", MkNodeAttr (Some (lit "Router")) None)] [] in
  (forall n, In n (node_names g) -> is_Some (dict_get n hub_spoke)) /\
  (hub_spoke = core_distribution_access \/
   (hub_spoke = hub_spoke /\ In (lit "R3") (node_names g))).
Proof.
  apply (X13_custom_layout_choice
           (MkGraph [(lit "R3", MkNodeAttr (Some (lit "Router")) None)] [])
           hub_spoke).
  reflexivity.
Defined.

(* ===================================================================== *)
(** ** More on the graph of [build_topology] *)
(* ===================================================================== *)

(** *** The nodes *)

Lemma add_nodes_set_all h device_list st :
  devices st = h ->
  nodes (G (add_nodes device_list st))
  = set_all (map (node_of h) device_list) (nodes (G st)).
Proof.
  unfold add_nodes. revert st.
  induction device_list as [|r rest IH]; intros st Hh; [reflexivity|].
  cbn [fold_left map]. unfold set_all in *. cbn [fold_left].
  rewrite IH by exact Hh.
  unfold on_graph, add_node, node_of. cbn [G nodes fst snd]. rewrite Hh.
  reflexivity.
Qed.

Lemma dict_get_map_fresh {V} (g : ref -> str * V) n l :
  (forall r, In r l -> fst (g r) <> n) -> dict_get n (map g l) = None.
Proof.
  intros H. apply dict_get_None. rewrite map_map. intros Hin.
  apply in_map_iff in Hin as (r & E & Hr). exact (H r Hr E).
Qed.

(** *** Where the edges come from *)

Lemma link_first_match_hit (P : Graph -> Prop) host1 host2 intf1 network1
    intfs2 st :
  P (G st) ->
  (forall intf2 props2 ip2,
     In (intf2, props2) intfs2 ->
     truthy (get_ip_address props2) = true ->
     IPv4Address (default [] (get_ip_address props2)) = Some ip2 ->
     net_contains network1 ip2 = true ->
     P (add_edge host1 host2
          (MkEdgeAttr (Some intf1) (Some intf2)
             (Some (str_of_network network1))) (G st))) ->
  P (G (link_first_match host1 host2 intf1 network1 intfs2 st)).
Proof.
  intros Hst Hadd. induction intfs2 as [|[intf2 props2] rest IH]; [exact Hst|].
  assert (IH' : P (G (link_first_match host1 host2 intf1 network1 rest st))).
  { apply IH. intros intf2' props2' ip2 Hin. apply Hadd. right. exact Hin. }
  simpl. destruct (truthy (get_ip_address props2)) eqn:Et; [|exact IH'].
  destruct (IPv4Address _) as [ip2|] eqn:Ei; [|exact IH'].
  destruct (net_contains network1 ip2) eqn:En; [|exact IH'].
  eapply Hadd; [left; reflexivity|eassumption..].
Qed.

(** Every edge of the subnet pass joins two devices at different places of
    the list, and its attributes name an interface of each and the
    network of the first that holds the address of the second. *)
Lemma subnet_pass_links_ind (P : Graph -> Prop) h device_list st :
  devices st = h -> P (G st) ->
  (forall i j r1 r2 m g,
     device_list !! i = Some r1 -> device_list !! j = Some r2 -> i <> j ->
     subnet_link (deref h r1) (deref h r2) m -> P g ->
     P (add_edge (hostname (deref h r1)) (hostname (deref h r2)) m g)) ->
  P (G (subnet_pass device_list st)).
Proof.
  intros Hh Hst Hadd.
  cut (devices (subnet_pass device_list st) = h
       /\ P (G (subnet_pass device_list st))); [tauto|].
  unfold subnet_pass.
  apply (fold_left_ind (fun s => devices s = h /\ P (G s)));
    [split; assumption|].
  intros s [i device1] Hi [Hs HP]. apply in_enumerate in Hi.
  rewrite Hs.
  apply (fold_left_ind (fun s => devices s = h /\ P (G s)));
    [split; assumption|].
  intros s1 [intf1 props1] Hin1 [Hs1 HP1].
  unfold subnet_links_of_interface.
  destruct (truthy (get_ip_address props1)) eqn:Ea;
    [|split; assumption].
  destruct (truthy (get_subnet_mask props1)) eqn:Em;
    [|split; assumption].
  cbn [andb].
  destruct (IPv4Network _) as [network1|] eqn:En; [|split; assumption].
  apply (fold_left_ind (fun s => devices s = h /\ P (G s)));
    [split; assumption|].
  intros s2 [j device2] Hj [Hs2 HP2]. apply in_enumerate in Hj.
  destruct (Nat.eqb_spec i j) as [E|E]; simpl; [split; assumption|].
  split; [rewrite link_first_match_devices; exact Hs2|].
  apply link_first_match_hit; [exact HP2|].
  intros intf2 props2 ip2 Hin2 Ht Hip Hc. rewrite Hs2 in *.
  eapply Hadd; try eassumption.
  exists intf1, props1, network1, intf2, props2, ip2. repeat split; assumption.
Qed.

Lemma link_first_named_mention (P : Graph -> Prop) h device desc others st :
  devices st = h -> P (G st) ->
  (forall r2,
     In r2 others ->
     names_device desc (deref h r2) = true ->
     hostname (deref h device) <> hostname (deref h r2) ->
     has_edge (hostname (deref h device)) (hostname (deref h r2)) (G st)
     = false ->
     P (add_edge (hostname (deref h device)) (hostname (deref h r2)) no_attr
          (G st))) ->
  P (G (link_first_named device (lower desc) others st)).
Proof.
  intros Hh Hst Hadd. induction others as [|o rest IH]; [exact Hst|].
  simpl. rewrite Hh.
  assert (IH' : P (G (link_first_named device (lower desc) rest st))).
  { apply IH. intros r2 Hin. apply Hadd. right. exact Hin. }
  destruct (contains _ (lower desc)) eqn:Ec; simpl; [|exact IH'].
  destruct (str_eqb _ _) eqn:Eq; simpl; [exact IH'|].
  destruct (has_edge _ _ (G st)) eqn:Eh; simpl; [exact IH'|].
  apply Hadd; [left; reflexivity|exact Ec| |exact Eh].
  apply str_eqb_neq in Eq. congruence.
Qed.

(** Every edge of the description pass joins two devices of the list with
    different hostnames that no edge joined before, the first with an
    interface whose description names the second. *)
Lemma description_pass_mentions_ind (P : Graph -> Prop) h device_list st :
  devices st = h -> P (G st) ->
  (forall r1 r2 g,
     In r1 device_list -> In r2 device_list ->
     hostname (deref h r1) <> hostname (deref h r2) ->
     mentions (deref h r1) (deref h r2) ->
     has_edge (hostname (deref h r1)) (hostname (deref h r2)) g = false ->
     P g ->
     P (add_edge (hostname (deref h r1)) (hostname (deref h r2)) no_attr g)) ->
  P (G (description_pass device_list st)).
Proof.
  intros Hh Hst Hadd.
  cut (devices (description_pass device_list st) = h
       /\ P (G (description_pass device_list st))); [tauto|].
  unfold description_pass.
  apply (fold_left_ind (fun s => devices s = h /\ P (G s)));
    [split; assumption|].
  intros s device Hdev [Hs HP]. rewrite Hs.
  apply (fold_left_ind (fun s => devices s = h /\ P (G s)));
    [split; assumption|].
  intros s1 [intf_name props] Hin [Hs1 HP1].
  destruct (truthy (get_description props)) eqn:Et; [|split; assumption].
  split; [rewrite link_first_named_devices; exact Hs1|].
  apply (link_first_named_mention P h); [exact Hs1|exact HP1|].
  intros r2 Hin2 Hn Hne Hf. apply Hadd; try assumption.
  exists intf_name, props. repeat split; assumption.
Qed.

Lemma Forall_edges_update (Q : str * str * EdgeAttr -> Prop) u v m es :
  Forall Q es ->
  (forall a b old, same_edge u v a b = true -> Q (a, b, attr_update m old)) ->
  Forall Q (edges_update u v m es).
Proof.
  intros Hes Hnew. induction es as [|[[a b] old] es IH]; simpl.
  - constructor; [|constructor]. apply Hnew.
    unfold same_edge. rewrite !str_eqb_refl. reflexivity.
  - apply Forall_cons in Hes as [Hh Ht].
    destruct (same_edge u v a b) eqn:E.
    + constructor; [apply Hnew, E|exact Ht].
    + constructor; [exact Hh|apply IH, Ht].
Qed.

Lemma subnet_link_attr d1 d2 m old :
  subnet_link d1 d2 m -> attr_update m old = m.
Proof.
  intros (? & ? & ? & ? & ? & ? & _ & _ & _ & _ & _ & _ & _ & _ & ->).
  reflexivity.
Qed.

Lemma differ_at_lookup {A} (l : list A) (x y : A) :
  In x l -> In y l -> x <> y ->
  exists i j, l !! i = Some x /\ l !! j = Some y /\ i <> j.
Proof.
  intros Hx Hy Hne. apply list_elem_of_In in Hx, Hy.
  apply list_elem_of_lookup_1 in Hx as [i Hi].
  apply list_elem_of_lookup_1 in Hy as [j Hj].
  exists i, j. repeat split; try assumption. intros ->. congruence.
Qed.

Lemma edges_justified (device_list : list ref) (h : store) :
  Forall (edge_justified h device_list)
    (edges (G (build_topology device_list h))).
Proof.
  assert (Hdev : devices (add_nodes device_list (MkState h empty_graph)) = h)
    by apply add_nodes_devices.
  unfold build_topology.
  apply (description_pass_mentions_ind
           (fun g => Forall (edge_justified h device_list) (edges g)) h).
  - rewrite subnet_pass_devices. exact Hdev.
  - apply (subnet_pass_links_ind
             (fun g => Forall (edge_justified h device_list) (edges g)) h);
      [exact Hdev| |].
    + rewrite add_nodes_edges. constructor.
    + intros i j r1 r2 m g Hi Hj Hne Hlink Hg. cbn [add_edge edges].
      apply Forall_edges_update; [exact Hg|].
      intros a b old Hsame. rewrite (subnet_link_attr _ _ _ _ Hlink).
      exists i, j, r1, r2. repeat split; try assumption.
      right. split; [|exact Hlink]. apply same_edge_spec, Hsame.
  - intros r1 r2 g H1 H2 Hne Hm Hf Hg. cbn [add_edge edges].
    unfold has_edge in Hf. rewrite (edges_update_fresh _ _ _ _ Hf).
    apply Forall_app. split; [exact Hg|]. constructor; [|constructor].
    assert (Hr : r1 <> r2) by congruence.
    destruct (differ_at_lookup _ _ _ H1 H2 Hr) as (i & j & Hi & Hj & Hij).
    exists i, j, r1, r2. repeat split; try assumption.
    left. repeat split; assumption.
Qed.


(** X9.  No edge is invented.  Every edge of the graph joins two devices at
    different places of the list.  Either it has no attribute, the
    hostnames of the two differ and the description of an interface of the
    first names the second; or its attributes are those of a subnet link
    between the two: an interface of one with its network, and an
    interface of the other with an address in that network. *)
Theorem X9_every_edge_is_justified (device_list : list ref) (h : store)
    (e : str * str * EdgeAttr) :
  In e (edges (G (build_topology device_list h))) ->
  edge_justified h device_list e.
Proof.
  intros He. pose proof (edges_justified device_list h) as H.
  rewrite List.Forall_forall in H. apply H, He.
Qed.

(** *** The device a description names first *)





(** *** The nodes and the edges *)

(** X8.  The nodes of the graph are the hostnames of the devices, each once.
    Devices that share a hostname share a node, and the node has the type
    and the object of the last of them in the list.  Every edge joins two
    nodes of the graph. *)
Theorem X8_topology_nodes (device_list : list ref) (h : store) :
  let g := G (build_topology device_list h) in
  NoDup (node_names g) /\
  (forall n, In n (node_names g) <->
             exists r, In r device_list /\ hostname (deref h r) = n) /\
  (forall i r,
     device_list !! i = Some r ->
     (forall j r', i < j -> device_list !! j = Some r' ->
                   hostname (deref h r') <> hostname (deref h r)) ->
     dict_get (hostname (deref h r)) (nodes g)
     = Some (MkNodeAttr (Some (type_name (deref h r))) (Some r))) /\
  (forall a b m, In (a, b, m) (edges g) ->
                 In a (node_names g) /\ In b (node_names g)).
Proof.
  intros g.
  assert (Hg : nodes g = set_all (map (node_of h) device_list) []).
  { unfold g. rewrite build_topology_nodes.
    apply (add_nodes_set_all h device_list (MkState h empty_graph)).
    reflexivity. }
  assert (Hnames : forall n,
    In n (map fst (set_all (map (node_of h) device_list) [])) <->
    exists r, In r device_list /\ hostname (deref h r) = n).
  { intros n. rewrite <- is_Some_dict_get, dict_get_set_all.
    assert (E : is_Some (dict_get n (rev (map (node_of h) device_list)))
                <-> exists r, In r device_list /\ hostname (deref h r) = n).
    { rewrite is_Some_dict_get, <- map_rev, map_map, in_map_iff.
      split; intros (r & H1 & H2).
      - exists r. split; [apply in_rev, H2|exact H1].
      - exists r. split; [exact H2|apply in_rev in H1; exact H1]. }
    rewrite <- E.
    destruct (dict_get n (rev (map (node_of h) device_list)));
      [split; eauto|].
    split; intros [? ?]; discriminate. }
  unfold node_names. rewrite Hg. split; [|split; [|split]].
  - apply set_all_keys_NoDup. constructor.
  - exact Hnames.
  - intros i r Hi Hlast. rewrite dict_get_set_all.
    apply list_elem_of_split_length in Hi as (l1 & l2 & -> & ->).
    rewrite map_app, rev_app_distr. cbn [map rev]. rewrite <- !app_assoc.
    rewrite dict_get_app.
    assert (dict_get (hostname (deref h r)) (rev (map (node_of h) l2)) = None)
      as ->.
    { rewrite <- map_rev. apply dict_get_map_fresh. intros r' Hr'.
      apply in_rev in Hr'. apply list_elem_of_In in Hr'.
      apply list_elem_of_lookup_1 in Hr' as [j Hj].
      apply (Hlast (S (List.length l1 + j)) r'); [lia|].
      rewrite lookup_app_r by lia.
      replace (S (List.length l1 + j) - List.length l1) with (S j) by lia.
      exact Hj. }
    cbn [app dict_get node_of fst]. rewrite str_eqb_refl. reflexivity.
  - intros a b m Hin.
    pose proof (edges_justified device_list h) as Hj.
    rewrite List.Forall_forall in Hj.
    destruct (Hj _ Hin) as (i & j & r1 & r2 & Hi & Hj' & _ & Hcase).
    assert (H1 : In r1 device_list)
      by (apply list_elem_of_In; eapply list_elem_of_lookup_2, Hi).
    assert (H2 : In r2 device_list)
      by (apply list_elem_of_In; eapply list_elem_of_lookup_2, Hj').
    cbn [fst snd] in Hcase.
    destruct Hcase as [(Ea & Eb & _)|[[[Ea Eb]|[Ea Eb]] _]];
      cbn [fst snd] in Ea, Eb; subst a b;
      split; apply Hnames; eauto.
Qed.


Lemma X9_every_edge_is_justified_witness :
  let a := MkRouterInterface None (Some (lit "10.0.0.1"))
             (Some (lit "255.255.255.252")) false None None None None None
             None in
  let b := MkRouterInterface None (Some (lit "10.0.0.2")) None false None None
             None None None None in
  let h := [RouterDev (MkRouter (lit "A") (lit "Cisco") [(lit "Gi0/0", a)]
                         (lit "Unknown") [] [] None None);
            RouterDev (MkRouter (lit "B") (lit "Cisco") [(lit "Gi0/1", b)]
                         (lit "Unknown") [] [] None None)] in
  edge_justified h [0; 1]
    (lit "A", lit "B",
     MkEdgeAttr (Some (lit "Gi0/0")) (Some (lit "Gi0/1"))
       (Some (lit "10.0.0.0/30"))).
Proof.
  cbv zeta. apply X9_every_edge_is_justified.
  vm_compute. left. reflexivity.
Defined.


(* ===================================================================== *)
(** ** The summary of a reply *)
(* ===================================================================== *)

(** *** Stripping *)

Lemma lstrip_split s :
  exists sp, s = sp ++ lstrip s /\ Forall (fun x => is_space x = true) sp.
Proof.
  induction s as [|x s (sp & E & Hsp)]; [exists []; split; [reflexivity|constructor]|].
  simpl. destruct (is_space x) eqn:Ex.
  - exists (x :: sp). split; [simpl; f_equal; exact E|].
    constructor; assumption.
  - exists []. split; [reflexivity|constructor].
Qed.

Lemma lstrip_head s :
  match lstrip s with
  | [] => True
  | x :: _ => is_space x = false
  end.
Proof.
  induction s as [|x s IH]; [exact I|].
  simpl. destruct (is_space x) eqn:Ex; [exact IH|exact Ex].
Qed.

Lemma lstrip_id s :
  match s with [] => True | x :: _ => is_space x = false end -> lstrip s = s.
Proof. destruct s as [|x s]; [reflexivity|]. simpl. intros ->. reflexivity. Qed.

Lemma lstrip_lstrip s : lstrip (lstrip s) = lstrip s.
Proof. apply lstrip_id, lstrip_head. Qed.

Lemma rstrip_split s :
  exists sp, s = rstrip s ++ sp /\ Forall (fun x => is_space x = true) sp.
Proof.
  unfold rstrip. destruct (lstrip_split (rev s)) as (sp & E & Hsp).
  exists (rev sp). split; [|apply Forall_rev, Hsp].
  rewrite <- rev_app_distr, <- E, rev_involutive. reflexivity.
Qed.

Lemma rstrip_rstrip s : rstrip (rstrip s) = rstrip s.
Proof. unfold rstrip. rewrite rev_involutive, lstrip_lstrip. reflexivity. Qed.

Lemma strip_strip s : strip (strip s) = strip s.
Proof.
  unfold strip.
  assert (H : lstrip (rstrip (lstrip s)) = rstrip (lstrip s)).
  { apply lstrip_id. pose proof (lstrip_head s) as Hh.
    destruct (rstrip_split (lstrip s)) as (sp & E & _).
    destruct (rstrip (lstrip s)) as [|x r]; [exact I|].
    rewrite E in Hh. exact Hh. }
  rewrite H. apply rstrip_rstrip.
Qed.

Lemma in_lstrip x s : In x (lstrip s) -> In x s.
Proof.
  destruct (lstrip_split s) as (sp & E & _). intros H. rewrite E.
  apply in_app_iff. right. exact H.
Qed.

Lemma in_strip x s : In x (strip s) -> In x s.
Proof.
  unfold strip. intros H. apply in_lstrip.
  destruct (rstrip_split (lstrip s)) as (sp & E & _). rewrite E.
  apply in_app_iff. left. exact H.
Qed.

(** *** Lines *)

Lemma split_on_pieces sep s :
  Forall (fun l => ~ In sep l) (split_on sep s).
Proof.
  induction s as [|c s IH]; simpl.
  - constructor; [intros []|constructor].
  - destruct (ascii_eqb c sep) eqn:E.
    + constructor; [intros []|exact IH].
    + destruct (split_on sep s) as [|w ws]; [constructor; [|constructor]|].
      * intros [->|[]]. rewrite (proj2 (ascii_eqb_eq sep sep) eq_refl) in E.
        discriminate.
      * apply Forall_cons in IH as [Hw Hws]. constructor; [|exact Hws].
        intros [->|H]; [|exact (Hw H)].
        rewrite (proj2 (ascii_eqb_eq sep sep) eq_refl) in E. discriminate.
Qed.

Lemma split_on_no_sep sep l :
  ~ In sep l -> split_on sep l = [l].
Proof.
  induction l as [|c l IH]; intros H; [reflexivity|].
  simpl. destruct (ascii_eqb c sep) eqn:E.
  - apply ascii_eqb_eq in E as ->. destruct H. left. reflexivity.
  - rewrite IH; [reflexivity|]. intros Hin. apply H. right. exact Hin.
Qed.

Lemma split_on_app sep l rest :
  ~ In sep l ->
  split_on sep (l ++ sep :: rest) = l :: split_on sep rest.
Proof.
  induction l as [|c l IH]; intros H.
  - simpl. rewrite (proj2 (ascii_eqb_eq sep sep) eq_refl). reflexivity.
  - simpl. destruct (ascii_eqb c sep) eqn:E.
    + apply ascii_eqb_eq in E as ->. destruct H. left. reflexivity.
    + rewrite IH; [reflexivity|]. intros Hin. apply H. right. exact Hin.
Qed.

Lemma split_on_join ls :
  ls <> [] -> Forall (fun l => ~ In NL l) ls ->
  split_on NL (join [NL] ls) = ls.
Proof.
  intros Hne H. induction H as [|l ls Hl Hls IH]; [congruence|].
  destruct ls as [|l' ls'].
  - simpl. apply split_on_no_sep, Hl.
  - change (join [NL] (l :: l' :: ls')) with (l ++ NL :: join [NL] (l' :: ls')).
    rewrite split_on_app by exact Hl. f_equal. apply IH. discriminate.
Qed.

(** *** The loop *)

Lemma summary_loop_lines lines acc :
  Forall (fun l => ~ In NL l) lines ->
  Forall summary_line acc -> List.length acc < 3 ->
  Forall summary_line (summary_loop lines acc) /\
  List.length (summary_loop lines acc) <= 3.
Proof.
  intros Hlines. revert acc.
  induction Hlines as [|line rest Hl _ IH]; intros acc Hacc Hlen;
    [split; [exact Hacc|simpl; lia]|].
  cbn [summary_loop].
  destruct (negb (bool_decide (strip line = []))
            && negb (starts_with_any summary_markers (strip line))) eqn:E.
  - apply andb_true_iff in E as [E1 E2].
    apply negb_true_iff in E1, E2. apply bool_decide_eq_false in E1.
    assert (Hnew : Forall summary_line (acc ++ [strip line])).
    { apply Forall_snoc; [exact Hacc|]. repeat split; try assumption.
      - intros Hin. apply Hl, in_strip, Hin.
      - apply strip_strip. }
    destruct (Nat.leb_spec 3 (List.length (acc ++ [strip line]))) as [H3|H3].
    + split; [exact Hnew|]. rewrite length_app in *. simpl in *. lia.
    + apply IH; assumption.
  - destruct (Nat.leb_spec 3 (List.length acc)) as [H3|H3]; [lia|].
    apply IH; assumption.
Qed.

Lemma summary_loop_kept lines acc :
  Forall summary_line lines -> List.length acc + List.length lines <= 3 ->
  summary_loop lines acc = acc ++ lines.
Proof.
  intros Hlines. revert acc.
  induction Hlines as [|line rest (Hne & _ & Hs & Hm) _ IH]; intros acc Hlen;
    [rewrite app_nil_r; reflexivity|].
  cbn [summary_loop]. rewrite Hs, Hm.
  rewrite bool_decide_eq_false_2 by exact Hne. cbn [negb andb].
  cbn [List.length] in Hlen.
  destruct (Nat.leb_spec 3 (List.length (acc ++ [line]))) as [H3|H3].
  - rewrite length_app in H3. cbn [List.length] in H3.
    destruct rest; [reflexivity|cbn [List.length] in Hlen; lia].
  - rewrite IH by (rewrite length_app; cbn [List.length]; lia).
    rewrite <- app_assoc. reflexivity.
Qed.

Lemma no_summary_line : summary_line (lit "No summary available").
Proof.
  repeat split; try reflexivity; [discriminate|].
  intros H. vm_compute in H. repeat destruct H as [H|H]; try discriminate H.
  exact H.
Qed.

(** X24.  The summary is made of one, two or three lines, joined by newlines,
    none of them empty, none with white space at either end, none that
    starts with a marker; so it is never empty.  The summary of a summary
    is the summary itself. *)
Theorem X24_summary_lines (ai_message : str) :
  exists ls,
    _extract_summary ai_message = join [NL] ls /\
    1 <= List.length ls <= 3 /\ Forall summary_line ls /\
    _extract_summary (join [NL] ls) = join [NL] ls.
Proof.
  assert (Hagain : forall ls,
    1 <= List.length ls <= 3 -> Forall summary_line ls ->
    _extract_summary (join [NL] ls) = join [NL] ls).
  { intros ls Hlen Hls. unfold _extract_summary.
    rewrite split_on_join.
    - rewrite (summary_loop_kept ls []); [|exact Hls|simpl; lia].
      cbn [app]. destruct ls; [simpl in Hlen; lia|reflexivity].
    - destruct ls; [simpl in Hlen; lia|discriminate].
    - eapply Forall_impl; [exact Hls|]. intros l (_ & H & _). exact H. }
  unfold _extract_summary at 1.
  destruct (summary_loop_lines (split_on NL ai_message) [])
    as [Hls Hlen]; [apply split_on_pieces|constructor|simpl; lia|].
  destruct (summary_loop (split_on NL ai_message) []) as [|l ls] eqn:E.
  - exists [lit "No summary available"].
    assert (H1 : 1 <= List.length [lit "No summary available"] <= 3)
      by (simpl; lia).
    assert (H2 : Forall summary_line [lit "No summary available"])
      by (constructor; [apply no_summary_line|constructor]).
    split; [reflexivity|]. split; [exact H1|]. split; [exact H2|].
    apply Hagain; assumption.
  - exists (l :: ls).
    assert (H1 : 1 <= List.length (l :: ls) <= 3) by (simpl in *; lia).
    split; [reflexivity|]. split; [exact H1|]. split; [exact Hls|].
    apply Hagain; assumption.
Qed.
